(** * Payroll-ES: the preflight pipeline of [payroll_pipeline.py]

    A shallow embedding of region enrichment, the missing-field detector and
    the missing-field resolver, and the properties of the specification
    checked against it.

    Python values are modelled as they come out of [json.loads]: trees of
    [None], booleans, integers, floats, strings, lists and dictionaries.
    - A [str] is held as the UTF-8 bytes of its text.  Case folding and
      decimal digits are those of ASCII; white space is all of Python's.
    - A [float] is an IEEE 754 binary64 number, read and written with exact
      arithmetic.
    - A dictionary is an association list in insertion order: a lookup
      finds the first binding of a key, an assignment overwrites it in
      place, a new key goes to the end.  Equality of two such lists is finer
      than [==] of Python, which ignores the order of the keys.
    - A function that mutates its argument is a step on a state that holds
      the argument, and a step that raises keeps what was written before.
      The detector and the resolver are modelled on documents held by
      value: a default they write into the payload is never mutated
      afterwards.  Region enrichment is modelled a second time on a heap of
      objects, where copying and sharing can be told apart. *)

From Stdlib Require Import ZArith String Ascii List Bool Lia.
From Stdlib Require Import Floats.SpecFloat.
From stdpp Require Import base option list strings gmap.

Local Open Scope Z_scope.
Local Open Scope string_scope.

(** ** Strings *)

Module PyStr.

Definition byte_of (c : ascii) : N := N_of_ascii c.

Definition is_upper (c : ascii) : bool :=
  ((65 <=? byte_of c) && (byte_of c <=? 90))%N.

(** [str.lower]: the ASCII letters are folded; bytes of other characters
    are kept.  The pipeline only compares the result with the ASCII literal
    ["plus convenio"], and no character outside ASCII lowers to one of its
    letters. *)
Definition lower_char (c : ascii) : ascii :=
  if is_upper c then ascii_of_N (byte_of c + 32) else c.

Fixpoint lower (s : string) : string :=
  match s with
  | EmptyString => EmptyString
  | String c r => String (lower_char c) (lower r)
  end.

(** ASCII white space of [str.strip]: TAB, LF, VT, FF, CR, FS, GS, RS, US
    and the space. *)
Definition is_ascii_space (c : ascii) : bool :=
  let n := byte_of c in
  (((9 <=? n) && (n <=? 13)) || ((28 <=? n) && (n <=? 32)))%N.

(** The other white-space characters, from the bytes of their UTF-8
    encoding: U+0085, U+00A0 (two bytes), U+1680, U+2000 to U+200A,
    U+2028, U+2029, U+202F, U+205F and U+3000 (three bytes). *)
Definition is_space2 (a b : ascii) : bool :=
  ((byte_of a =? 194) && ((byte_of b =? 133) || (byte_of b =? 160)))%N.

Definition is_space3 (a b c : ascii) : bool :=
  let '(x, y, z) := (byte_of a, byte_of b, byte_of c) in
  (((x =? 225) && (y =? 154) && (z =? 128))
   || ((x =? 226) && (y =? 128)
       && (((128 <=? z) && (z <=? 138)) || (z =? 168) || (z =? 169) || (z =? 175)))
   || ((x =? 226) && (y =? 129) && (z =? 159))
   || ((x =? 227) && (y =? 128) && (z =? 128)))%N.

Fixpoint lstrip (s : string) : string :=
  match s with
  | String a r =>
      if is_ascii_space a then lstrip r
      else
        match r with
        | String b r2 =>
            if is_space2 a b then lstrip r2
            else
              match r2 with
              | String c r3 => if is_space3 a b c then lstrip r3 else s
              | EmptyString => s
              end
        | EmptyString => s
        end
  | EmptyString => s
  end.

(** The same from the right end, on the reversed bytes. *)
Fixpoint lstrip_rev (s : string) : string :=
  match s with
  | String a r =>
      if is_ascii_space a then lstrip_rev r
      else
        match r with
        | String b r2 =>
            if is_space2 b a then lstrip_rev r2
            else
              match r2 with
              | String c r3 => if is_space3 c b a then lstrip_rev r3 else s
              | EmptyString => s
              end
        | EmptyString => s
        end
  | EmptyString => s
  end.

Definition rstrip (s : string) : string :=
  String.rev (lstrip_rev (String.rev s)).

Definition strip (s : string) : string := rstrip (lstrip s).

(** [s.replace(a, b)] for one-character [a] and [b]. *)
Fixpoint replace_char (a b : ascii) (s : string) : string :=
  match s with
  | EmptyString => EmptyString
  | String c r =>
      String (if Ascii.eqb c a then b else c) (replace_char a b r)
  end.

(** [s.split(sep)] for a one-character separator: never the empty list. *)
Fixpoint split_char (sep : ascii) (s : string) : list string :=
  match s with
  | EmptyString => [EmptyString]
  | String c r =>
      if Ascii.eqb c sep then EmptyString :: split_char sep r
      else
        match split_char sep r with
        | w :: ws => String c w :: ws
        | [] => [String c EmptyString]
        end
  end.

(** [sep.join(parts)] *)
Fixpoint join (sep : string) (parts : list string) : string :=
  match parts with
  | [] => EmptyString
  | [p] => p
  | p :: rest => p ++ sep ++ join sep rest
  end.

Fixpoint contains_char (c : ascii) (s : string) : bool :=
  match s with
  | EmptyString => false
  | String d r => Ascii.eqb c d || contains_char c r
  end.

(** [needle in haystack] on strings. *)
Fixpoint is_prefix (p s : string) : bool :=
  match p, s with
  | EmptyString, _ => true
  | String a p', String b s' => Ascii.eqb a b && is_prefix p' s'
  | String _ _, EmptyString => false
  end.

Fixpoint is_substring (needle s : string) : bool :=
  is_prefix needle s
  || match s with
     | EmptyString => false
     | String _ r => is_substring needle r
     end.

(** The characters of a string, as [for ch in s] yields them: a lead byte
    with the continuation bytes (10xxxxxx) that follow it. *)
Definition is_cont (c : ascii) : bool :=
  ((128 <=? byte_of c) && (byte_of c <=? 191))%N.

Fixpoint chars_aux (cur : string) (s : string) : list string :=
  match s with
  | EmptyString => [cur]
  | String c r =>
      if is_cont c then chars_aux (cur ++ String c EmptyString) r
      else cur :: chars_aux (String c EmptyString) r
  end.

Definition chars (s : string) : list string :=
  match s with
  | EmptyString => []
  | String c r => chars_aux (String c EmptyString) r
  end.

(** Decimal digits of a natural number, most significant first. *)
Definition digit_char (d : Z) : ascii := ascii_of_N (Z.to_N (48 + d)).

Fixpoint digits_fuel (fuel : nat) (n : Z) (acc : string) : string :=
  match fuel with
  | O => acc
  | S f =>
      let acc' := String (digit_char (n mod 10)) acc in
      if (n <? 10)%Z then acc' else digits_fuel f (n / 10) acc'
  end.

Definition of_nonneg (n : Z) : string :=
  digits_fuel (S (Z.to_nat (Z.log2 n))) n EmptyString.

(** [str(n)] for an [int]. *)
Definition of_Z (n : Z) : string :=
  if (n <? 0)%Z then String "-" (of_nonneg (- n)) else of_nonneg n.

Definition hex_char (d : N) : ascii :=
  if (d <? 10)%N then ascii_of_N (48 + d) else ascii_of_N (87 + d).

(** [repr(s)]: single quotes unless the text has a single quote and no
    double quote; the backslash, the chosen quote and the control
    characters are escaped.  Bytes from 128 up belong to characters that
    are taken as printable and are kept. *)
Fixpoint repr_body (q : ascii) (s : string) : string :=
  match s with
  | EmptyString => EmptyString
  | String c r =>
      let n := byte_of c in
      let rest := repr_body q r in
      if Ascii.eqb c "\" then String "\" (String "\" rest)
      else if Ascii.eqb c q then String "\" (String c rest)
      else if (n =? 9)%N then String "\" (String "t" rest)
      else if (n =? 10)%N then String "\" (String "n" rest)
      else if (n =? 13)%N then String "\" (String "r" rest)
      else if ((n <? 32) || (n =? 127))%N then
        String "\" (String "x" (String (hex_char (n / 16)) (String (hex_char (n mod 16)) rest)))
      else String c rest
  end.

Definition dquote : ascii := ascii_of_N 34.

Definition repr (s : string) : string :=
  let q : ascii :=
    if contains_char "'" s && negb (contains_char dquote s) then dquote
    else "'"%char in
  String q (repr_body q s ++ String q EmptyString).

End PyStr.

(** ** Floats

    A Python [float] is an IEEE 754 binary64 value, held as the Standard
    Library's [spec_float] (precision 53, infinities at exponent 1024).
    Conversions round to nearest, ties to even, with exact integer
    arithmetic. *)

Module PyFloat.

Definition prec : Z := 53.
Definition emax : Z := 1024.

Definition zero : spec_float := S754_zero false.

(** [bool(x)] is [x != 0.0]: both zeros are false, a NaN is true. *)
Definition truthy (x : spec_float) : bool :=
  match x with
  | S754_zero _ => false
  | _ => true
  end.

(** The double nearest to [n / d] for positive [n] and [d]. *)
Definition of_ratio (neg : bool) (n d : Z) : spec_float :=
  let s := Z.max 0 (64 + Z.log2 d - Z.log2 n) in
  let n' := Z.shiftl n s in
  let q := n' / d in
  let r := n' mod d in
  let l := if (r =? 0)%Z then loc_Exact else loc_Inexact (Z.compare (2 * r) d) in
  binary_round_aux prec emax neg q (- s) l.

(** The double nearest to [m * 10 ^ e], for [m >= 0]; [nd] is the number of
    decimal digits of [m], and a value of more than 310 or fewer than -325
    integer digits is out of the range without computing the power. *)
Definition of_decimal (neg : bool) (m e : Z) : spec_float :=
  let nd := Z.of_nat (String.length (PyStr.of_nonneg m)) in
  if (m =? 0)%Z then S754_zero neg
  else if (310 <? nd + e)%Z then S754_infinity neg
  else if (nd + e <? - 325)%Z then S754_zero neg
  else if (0 <=? e)%Z then of_ratio neg (m * 10 ^ e) 1
  else of_ratio neg m (10 ^ (- e)).

(** [float(n)] for an [int]; too large a value is an [OverflowError]. *)
Definition of_Z (n : Z) : option spec_float :=
  match binary_normalize prec emax n 0 false with
  | S754_infinity _ => None
  | x => Some x
  end.

(** *** Reading a float: [float(s)] for a string. *)

Definition digit_val (c : ascii) : option Z :=
  let n := Z.of_N (N_of_ascii c) in
  if ((48 <=? n) && (n <=? 57))%Z then Some (n - 48) else None.

(** [digitpart ::= digit (["_"] digit)*], read into an accumulator; gives
    the value, the number of digits and the rest of the text.  [prev] says
    that the character before was a digit. *)
Fixpoint read_digits (s : string) (acc cnt : Z) (prev : bool)
  : option (Z * Z * string) :=
  match s with
  | String c r =>
      match digit_val c with
      | Some d => read_digits r (10 * acc + d) (cnt + 1) true
      | None =>
          if Ascii.eqb c "_" && prev then
            match r with
            | String c2 _ =>
                match digit_val c2 with
                | Some _ => read_digits r acc cnt false
                | None => None
                end
            | EmptyString => None
            end
          else if prev then Some (acc, cnt, s) else None
      end
  | EmptyString => if prev then Some (acc, cnt, s) else None
  end.

Definition starts_digit (s : string) : bool :=
  match s with
  | String c _ => bool_decide (is_Some (digit_val c))
  | EmptyString => false
  end.

(** [exponent ::= ("e" | "E") [sign] digitpart], or nothing. *)
Definition read_exponent (s : string) : option Z :=
  match s with
  | EmptyString => Some 0
  | String c r =>
      if Ascii.eqb c "e" || Ascii.eqb c "E" then
        let '(neg, r') :=
          match r with
          | String "-" t => (true, t)
          | String "+" t => (false, t)
          | _ => (false, r)
          end in
        match read_digits r' 0 0 false with
        | Some (v, _, EmptyString) => Some (if neg then - v else v)
        | _ => None
        end
      else None
  end.

(** [number ::= [digitpart] "." digitpart | digitpart ["."]] followed by
    the exponent: the decimal mantissa and exponent. *)
Definition read_number (s : string) : option (Z * Z) :=
  let after_point (m : Z) (r : string) (need_frac : bool) :=
    if starts_digit r then
      match read_digits r m 0 false with
      | Some (m', nfrac, r') =>
          match read_exponent r' with
          | Some e => Some (m', e - nfrac)
          | None => None
          end
      | None => None
      end
    else if need_frac then None
    else
      match read_exponent r with
      | Some e => Some (m, e)
      | None => None
      end in
  match s with
  | String "." r => after_point 0 r true
  | _ =>
      match read_digits s 0 0 false with
      | Some (m, _, String "." r) => after_point m r false
      | Some (m, _, r) =>
          match read_exponent r with
          | Some e => Some (m, e)
          | None => None
          end
      | None => None
      end
  end.

(** Decimal digits outside ASCII are not read. *)
Definition of_string (s : string) : option spec_float :=
  let t := PyStr.strip s in
  let '(neg, body) :=
    match t with
    | String "-" r => (true, r)
    | String "+" r => (false, r)
    | _ => (false, t)
    end in
  let low := PyStr.lower body in
  if String.eqb low "inf" || String.eqb low "infinity" then Some (S754_infinity neg)
  else if String.eqb low "nan" then Some S754_nan
  else
    match read_number body with
    | Some (m, e) => Some (of_decimal neg m e)
    | None => None
    end.

(** *** Writing a float: [repr(x)], the shortest decimal text that reads
    back as [x]. *)

(** Smallest [j >= 0] with [n * 10 ^ j >= d]. *)
Fixpoint scale_up (fuel : nat) (n d j : Z) : Z :=
  match fuel with
  | O => j
  | S f => if (d <=? n)%Z then j else scale_up f (n * 10) d (j + 1)
  end.

(** [floor (log10 (n / d))] for positive [n] and [d]. *)
Definition floor_log10 (n d : Z) : Z :=
  if (d <=? n)%Z then Z.of_nat (String.length (PyStr.of_nonneg (n / d))) - 1
  else - scale_up 400 n d 0.

Fixpoint strip_zeros (fuel : nat) (c k : Z) : Z * Z :=
  match fuel with
  | O => (c, k)
  | S f =>
      if ((c mod 10 =? 0) && negb (c =? 0))%Z then strip_zeros f (c / 10) (k + 1)
      else (c, k)
  end.

(** The digits [c] and exponent [k] of the shortest decimal [c * 10 ^ k]
    between [lo / d] and [hi / d] (the bounds count when [incl]), the
    nearest to [x / d] when several have the same length.  [p] is the
    number of digits tried, [k0 = floor (log10 (x / d))]. *)
Fixpoint shortest (fuel : nat) (p k0 x lo hi d : Z) (incl : bool) : Z * Z :=
  let ku := k0 - p + 1 in
  let up := 10 ^ Z.max 0 (- ku) in
  let dn := d * 10 ^ Z.max 0 ku in
  let '(a, al, ah) := (x * up, lo * up, hi * up) in
  let c1 := a / dn in
  let c2 := c1 + 1 in
  let inside c :=
    if incl then ((al <=? c * dn) && (c * dn <=? ah))%Z
    else ((al <? c * dn) && (c * dn <? ah))%Z in
  let d1 := a - c1 * dn in
  let d2 := c2 * dn - a in
  let pick :=
    match inside c1, inside c2 with
    | true, true =>
        Some (if (d1 <? d2)%Z then c1
              else if (d2 <? d1)%Z then c2
              else if Z.even c1 then c1 else c2)
    | true, false => Some c1
    | false, true => Some c2
    | false, false => None
    end in
  match pick, fuel with
  | Some c, _ => (c, ku)
  | None, S f => shortest f (p + 1) k0 x lo hi d incl
  | None, O => (c1, ku)
  end.

(** The digits and the position of the decimal point of a finite positive
    double [m * 2 ^ e], in units of a quarter of its last place: the
    rounding interval reaches half a place up and, at a power of two above
    the subnormals, a quarter of a place down. *)
Definition shortest_digits (m : positive) (e : Z) : string * Z :=
  let x := 4 * Z.pos m in
  let pow2 := ((Z.pos m =? 2 ^ 52) && (- 1074 <? e))%Z in
  let lo := if pow2 then x - 1 else x - 2 in
  let hi := x + 2 in
  let e2 := e - 2 in
  let up := 2 ^ Z.max 0 e2 in
  let d := 2 ^ Z.max 0 (- e2) in
  let k0 := floor_log10 (x * up) d in
  let '(c, k) := shortest 17 1 k0 (x * up) (lo * up) (hi * up) d (Z.even (Z.pos m)) in
  let '(c', k') := strip_zeros 20 c k in
  let ds := PyStr.of_nonneg c' in
  (ds, Z.of_nat (String.length ds) + k').

Fixpoint zeros (n : nat) : string :=
  match n with
  | O => EmptyString
  | S k => String "0" (zeros k)
  end.

Definition take (n : nat) (s : string) : string := String.substring 0 n s.
Definition drop (n : nat) (s : string) : string :=
  String.substring n (String.length s - n) s.

(** The exponent of the scientific form: a sign and two digits at least. *)
Definition exp_text (x : Z) : string :=
  let a := Z.abs x in
  String (if (x <? 0)%Z then "-" else "+")%char
    ((if (a <? 10)%Z then "0" else EmptyString) ++ PyStr.of_nonneg a).

Definition format_short (ds : string) (decpt : Z) : string :=
  let n := Z.of_nat (String.length ds) in
  if ((decpt <=? - 4) || (16 <? decpt))%Z then
    take 1 ds
    ++ (if (1 <? n)%Z then String "." (drop 1 ds) else EmptyString)
    ++ String "e" (exp_text (decpt - 1))
  else if (decpt <=? 0)%Z then
    "0." ++ zeros (Z.to_nat (- decpt)) ++ ds
  else if (n <=? decpt)%Z then
    ds ++ zeros (Z.to_nat (decpt - n)) ++ ".0"
  else
    take (Z.to_nat decpt) ds ++ String "." (drop (Z.to_nat decpt) ds).

Definition repr (x : spec_float) : string :=
  match x with
  | S754_nan => "nan"
  | S754_infinity s => if s then "-inf" else "inf"
  | S754_zero s => if s then "-0.0" else "0.0"
  | S754_finite s m e =>
      let '(ds, decpt) := shortest_digits m e in
      (if s then "-" else EmptyString) ++ format_short ds decpt
  end.

End PyFloat.

(** ** Values *)

#[local] Unset Elimination Schemes.
Inductive json : Type :=
| JNull
| JBool (b : bool)
| JInt (n : Z)
| JFloat (x : spec_float)
| JStr (s : string)
| JList (items : list json)
| JDict (kvs : list (string * json)).
#[local] Set Elimination Schemes.

Definition dict : Type := list (string * json).

(** Induction on a document, through its lists and dictionaries. *)
Section JsonInduction.

Variable P : json -> Prop.
Hypothesis case_null : P JNull.
Hypothesis case_bool : forall b, P (JBool b).
Hypothesis case_int : forall n, P (JInt n).
Hypothesis case_float : forall x, P (JFloat x).
Hypothesis case_str : forall s, P (JStr s).
Hypothesis case_list : forall items, Forall P items -> P (JList items).
Hypothesis case_dict : forall kvs, Forall (fun kv => P (snd kv)) kvs -> P (JDict kvs).

Fixpoint json_induction (j : json) : P j :=
  match j with
  | JNull => case_null
  | JBool b => case_bool b
  | JInt n => case_int n
  | JFloat x => case_float x
  | JStr s => case_str s
  | JList items =>
      case_list items
        ((fix go (l : list json) : Forall P l :=
            match l with
            | [] => Forall_nil_2 P
            | x :: r => Forall_cons_2 P x r (json_induction x) (go r)
            end) items)
  | JDict kvs =>
      case_dict kvs
        ((fix go (l : list (string * json)) : Forall (fun kv => P (snd kv)) l :=
            match l with
            | [] => Forall_nil_2 _
            | kv :: r => Forall_cons_2 _ kv r (json_induction (snd kv)) (go r)
            end) kvs)
  end.

End JsonInduction.

(** Exceptions.  Those the pipeline raises itself carry their message; so
    does the [ValueError] of [float]. *)
Inductive exn : Type :=
| ValueError (msg : string)
| TypeError
| AttributeError
| IndexError
| KeyError
| OverflowError
| EOFError.

Inductive result (A : Type) : Type :=
| Ok (a : A)
| Err (e : exn).
Arguments Ok {A} a.
Arguments Err {A} e.

Definition bind_result {A B} (r : result A) (k : A -> result B) : result B :=
  match r with
  | Ok a => k a
  | Err e => Err e
  end.

Declare Scope py_scope.
Delimit Scope py_scope with py.
Notation "x <- r ;; k" := (bind_result r (fun x => k))
  (at level 100, r at next level, right associativity) : py_scope.

(** *** Dictionaries

    The operations are those of any dictionary with string keys, whatever
    it holds. *)

Section Dict.

Context {V : Type}.

Fixpoint dict_get (k : string) (d : list (string * V)) : option V :=
  match d with
  | [] => None
  | (k', v) :: r => if String.eqb k k' then Some v else dict_get k r
  end.

(** [d[k] = v] *)
Fixpoint dict_set (k : string) (v : V) (d : list (string * V)) : list (string * V) :=
  match d with
  | [] => [(k, v)]
  | (k', v') :: r =>
      if String.eqb k k' then (k', v) :: r else (k', v') :: dict_set k v r
  end.

(** [k in d] *)
Definition dict_has (k : string) (d : list (string * V)) : bool :=
  match dict_get k d with
  | Some _ => true
  | None => false
  end.

(** [d.get(k, dflt)] *)
Definition dict_get_or (k : string) (dflt : V) (d : list (string * V)) : V :=
  match dict_get k d with
  | Some v => v
  | None => dflt
  end.

(** [d.setdefault(k, dflt)]: the dictionary afterwards and the value. *)
Definition dict_setdefault (k : string) (dflt : V) (d : list (string * V))
  : list (string * V) * V :=
  match dict_get k d with
  | Some v => (d, v)
  | None => (dict_set k dflt d, dflt)
  end.

End Dict.

(** *** Built-ins on arbitrary values *)

(** [o.get(k, dflt)]: only a [dict] has the method. *)
Definition py_get (o : json) (k : string) (dflt : json) : result json :=
  match o with
  | JDict d => Ok (dict_get_or k dflt d)
  | _ => Err AttributeError
  end.

(** [bool(v)] *)
Definition truthy (v : json) : bool :=
  match v with
  | JNull => false
  | JBool b => b
  | JInt n => negb (n =? 0)%Z
  | JFloat x => PyFloat.truthy x
  | JStr s => negb (String.eqb s EmptyString)
  | JList l => negb (bool_decide (l = []))
  | JDict d => negb (bool_decide (d = []))
  end.

(** [iter(v)]: the items of a list, the keys of a dictionary, the characters
    of a string; the other values are not iterable. *)
Definition py_iter (v : json) : result (list json) :=
  match v with
  | JList l => Ok l
  | JDict d => Ok (map (fun kv => JStr (fst kv)) d)
  | JStr s => Ok (map JStr (PyStr.chars s))
  | _ => Err TypeError
  end.

(** [repr(v)] and [str(v)] *)
Fixpoint py_repr (v : json) : string :=
  match v with
  | JNull => "None"
  | JBool b => if b then "True" else "False"
  | JInt n => PyStr.of_Z n
  | JFloat x => PyFloat.repr x
  | JStr s => PyStr.repr s
  | JList l => "[" ++ PyStr.join ", " (map py_repr l) ++ "]"
  | JDict d =>
      "{" ++ PyStr.join ", "
               (map (fun kv => PyStr.repr (fst kv) ++ ": " ++ py_repr (snd kv)) d)
          ++ "}"
  end.

Definition py_str (v : json) : string :=
  match v with
  | JStr s => s
  | _ => py_repr v
  end.

Definition one : spec_float := S754_finite false (2 ^ 52) (- 52).

(** [float(v)] *)
Definition py_float (v : json) : result spec_float :=
  match v with
  | JFloat x => Ok x
  | JInt n =>
      match PyFloat.of_Z n with
      | Some x => Ok x
      | None => Err OverflowError
      end
  | JBool b => Ok (if b then one else PyFloat.zero)
  | JStr s =>
      match PyFloat.of_string s with
      | Some x => Ok x
      | None => Err (ValueError ("could not convert string to float: " ++ PyStr.repr s))
      end
  | JNull | JList _ | JDict _ => Err TypeError
  end.

(** ** State and exceptions

    A computation over a mutable state [S] that returns or raises: what it
    wrote before an exception stays written. *)

Definition M (S A : Type) : Type := S -> S * result A.

Definition ret {S A} (a : A) : M S A := fun s => (s, Ok a).
Definition raise {S A} (e : exn) : M S A := fun s => (s, Err e).
Definition lift {S A} (r : result A) : M S A := fun s => (s, r).
Definition get {S} : M S S := fun s => (s, Ok s).
Definition put {S} (s' : S) : M S unit := fun _ => (s', Ok tt).

Definition bind {S A B} (c : M S A) (k : A -> M S B) : M S B :=
  fun s =>
    match c s with
    | (s', Ok a) => k a s'
    | (s', Err e) => (s', Err e)
    end.

Declare Scope st_scope.
Delimit Scope st_scope with st.
Notation "x <- c ;; k" := (bind c (fun x => k))
  (at level 100, c at next level, right associativity) : st_scope.
Notation "c ;; k" := (bind c (fun _ => k))
  (at level 100, right associativity) : st_scope.

(** Running a computation on a part of the state. *)
Definition on_fst {S T A} (c : M S A) : M (S * T) A :=
  fun st => let '(s', r) := c (fst st) in ((s', snd st), r).
Definition on_snd {S T A} (c : M T A) : M (S * T) A :=
  fun st => let '(t', r) := c (snd st) in ((fst st, t'), r).

(** ** 1) CCAA -> IRPF map *)

Definition regime (tag : string) : json := JDict [("irpf_regime", JStr tag)].

Definition CCAA_REGION_MAP : dict :=
  [ ("Andalucía", regime "AEAT");
    ("Aragón", regime "AEAT");
    ("Principado de Asturias", regime "AEAT");
    ("Illes Balears", regime "AEAT");
    ("Canarias", regime "AEAT");
    ("Cantabria", regime "AEAT");
    ("Castilla-La Mancha", regime "AEAT");
    ("Castilla y León", regime "AEAT");
    ("Cataluña", regime "AEAT");
    ("Comunitat Valenciana", regime "AEAT");
    ("Extremadura", regime "AEAT");
    ("Galicia", regime "AEAT");
    ("Comunidad de Madrid", regime "AEAT");
    ("Región de Murcia", regime "AEAT");
    ("La Rioja", regime "AEAT");
    ("Comunidad Foral de Navarra", regime "FORAL_NAVARRA");
    ("País Vasco", regime "FORAL_PV");
    ("Ceuta", regime "AEAT");
    ("Melilla", regime "AEAT") ].

(** ** 3) Utils: region enrichment *)

(** [key in d] for an arbitrary key: lists and dictionaries cannot be
    hashed; a key that is not a string equals none of the string keys. *)
Definition py_in_dict (key : json) (d : dict) : result bool :=
  match key with
  | JStr s => Ok (dict_has s d)
  | JList _ | JDict _ => Err TypeError
  | _ => Ok false
  end.

(** [d[k]] on an arbitrary value, for a string [k]. *)
Definition py_getitem (o : json) (k : string) : result json :=
  match o with
  | JDict d =>
      match dict_get k d with
      | Some v => Ok v
      | None => Err KeyError
      end
  | _ => Err TypeError
  end.

(** [enrich_region_config].  [data = json.loads(json.dumps(payload))] is a
    value equal to [payload]; the heap model further down shows it built
    from new objects. *)
Definition enrich_region_config (payload : dict) : result dict :=
  (let data := payload in
   ccaa <- (rc0 <- Ok (dict_get_or "region_config" (JDict []) data) ;;
            py_get rc0 "ccaa" JNull) ;;
   if negb (truthy ccaa) then Ok data
   else
     let '(data, rc) := dict_setdefault "region_config" (JDict []) data in
     match rc with
     | JDict rc =>
         let '(rc, _) := dict_setdefault "notes" (JStr EmptyString) rc in
         mapped <- (if negb (dict_has "irpf_regime" rc)
                    then py_in_dict ccaa CCAA_REGION_MAP
                    else Ok false) ;;
         if (mapped : bool) then
           match ccaa with
           | JStr c =>
               entry <- py_getitem (JDict CCAA_REGION_MAP) c ;;
               tag <- py_getitem entry "irpf_regime" ;;
               Ok (dict_set "region_config" (JDict (dict_set "irpf_regime" tag rc)) data)
           | _ => Err KeyError
           end
         else Ok (dict_set "region_config" (JDict rc) data)
     | _ => Err AttributeError
     end)%py.

(** ** 4) Preflight and missing-policy *)

(** The [MissingField] dataclass; [None] is [JNull] for [default]. *)
Record MissingField : Type := mkMissingField {
  path : string;
  question : string;
  hint : string;
  type : string;
  enum : option (list string);
  default : json
}.

(** [_set_by_path(d, path_parts, value)].  An intermediate key that is
    absent, or bound to something that is neither a dictionary nor a list,
    is bound to a new dictionary; a dictionary or a list is kept and becomes
    [cur].  Once [cur] is a list, the next statement subscripts it with a
    string ([cur[p] = {}], [cur[p]] or [cur[path_parts[-1]] = value]) and
    raises a [TypeError]; nothing has been written then.  An empty
    [path_parts] fails at [path_parts[-1]]. *)
Fixpoint _set_by_path (d : dict) (path_parts : list string) (value : json)
  : dict * result unit :=
  match path_parts with
  | [] => (d, Err IndexError)
  | [last] => (dict_set last value d, Ok tt)
  | p :: rest =>
      match dict_get p d with
      | Some (JDict cur) =>
          let '(cur', r) := _set_by_path cur rest value in
          (dict_set p (JDict cur') d, r)
      | Some (JList _) => (d, Err TypeError)
      | _ =>
          let '(cur', r) := _set_by_path [] rest value in
          (dict_set p (JDict cur') d, r)
      end
  end.

(** [str(l)] for a list of strings. *)
Definition str_list (l : list string) : string :=
  "[" ++ PyStr.join ", " (map PyStr.repr l) ++ "]".

(** [v not in l] for a list of strings. *)
Definition not_in (v : string) (l : list string) : bool :=
  negb (existsb (String.eqb v) l).

Definition enum_truthy (e : option (list string)) : bool :=
  match e with
  | Some (_ :: _) => true
  | _ => false
  end.

Definition enum_list (e : option (list string)) : list string :=
  match e with
  | Some l => l
  | None => []
  end.

Definition _parse_input (value_str : string) (mf : MissingField) : result json :=
  if String.eqb (type mf) "number" then
    (x <- py_float (JStr (PyStr.replace_char "," "." value_str)) ;; Ok (JFloat x))%py
  else if String.eqb (type mf) "enum" then
    let v := PyStr.strip value_str in
    if enum_truthy (enum mf) && not_in v (enum_list (enum mf)) then
      Err (ValueError ("Valor '" ++ v ++ "' no está en " ++ str_list (enum_list (enum mf))))
    else Ok (JStr v)
  else Ok (JStr (PyStr.strip value_str)).

(** [it.get("name","").lower() == "plus convenio"] *)
Definition is_plus_convenio (it : json) : result bool :=
  (name <- py_get it "name" (JStr EmptyString) ;;
   match name with
   | JStr s => Ok (String.eqb (PyStr.lower s) "plus convenio")
   | _ => Err AttributeError
   end)%py.

(** [any(is_plus_convenio(it) for it in items)]: stops at the first hit. *)
Fixpoint any_plus_convenio (items : list json) : result bool :=
  match items with
  | [] => Ok false
  | it :: rest =>
      (b <- is_plus_convenio it ;;
       if (b : bool) then Ok true else any_plus_convenio rest)%py
  end.

(** [any(... for it in o.get(k1, {}).get(k2, []))] on the payload. *)
Definition has_plus_in (k1 k2 : string) (payload : dict) : result bool :=
  (items <- py_get (dict_get_or k1 (JDict []) payload) k2 (JList []) ;;
   l <- py_iter items ;;
   any_plus_convenio l)%py.

(** [not payload.get(k1, {}).get(k2)] *)
Definition field_unset (k1 k2 : string) (payload : dict) : result bool :=
  (v <- py_get (dict_get_or k1 (JDict []) payload) k2 JNull ;;
   Ok (negb (truthy v)))%py.

Definition gap_plus_convenio : MissingField :=
  mkMissingField "compensation.plus_convenio_amount"
    "¿Importe mensual del 'Plus Convenio' (€)?"
    "Introduce la cuantía bruta mensual."
    "number" None (JFloat PyFloat.zero).

(** 1.50 *)
Definition one_and_a_half : spec_float := S754_finite false (3 * 2 ^ 51) (- 52).

Definition gap_atep : MissingField :=
  mkMissingField "company.atep_tariff_pct"
    "Sin CNAE: indica tarifa AT/EP (%) p.ej. 1.50"
    "Si conoces el CNAE, mejor añádelo y deja vacío aquí."
    "number" None (JFloat one_and_a_half).

Definition gap_cotization_year (period_year : json) : MissingField :=
  mkMissingField "tables.cotization_year"
    ("¿Año de tablas de cotización a aplicar? (p.ej. " ++ py_str period_year ++ ")")
    "Normalmente coincide con el año del período."
    "number" None period_year.

Definition gap_irpf_year (period_year : json) : MissingField :=
  mkMissingField "tables.irpf_year"
    ("¿Año de tablas IRPF a aplicar? (p.ej. " ++ py_str period_year ++ ")")
    "AEAT o forales del ejercicio."
    "number" None period_year.

Definition gap_cra : MissingField :=
  mkMissingField "compensation.base_salary_cra_code"
    "Código CRA para salario base (p.ej. C01):"
    "Si no sabes, usa C01."
    "string" None (JStr "C01").

Definition gap_nif : MissingField :=
  mkMissingField "worker.nif"
    "NIF del trabajador (formato 12345678Z). Déjalo vacío si no aplica:"
    "No afecta al cálculo pero sí a trazabilidad."
    "string" None (JStr "NO-INFORMADO").

Definition gap_regime : MissingField :=
  mkMissingField "region_config.irpf_regime"
    "Régimen IRPF (AEAT | FORAL_NAVARRA | FORAL_PV):"
    "Por Cataluña: AEAT."
    "enum" (Some ["AEAT"; "FORAL_NAVARRA"; "FORAL_PV"]) (JStr "AEAT").

(** [missing.append(m)] when [b] *)
Definition append_if (b : bool) (m : MissingField) (missing : list MissingField)
  : list MissingField :=
  if b then missing ++ [m] else missing.

(** [payload.setdefault(k, {})] as a step on the payload. *)
Definition setdefault_dict (k : string) : M dict json :=
  fun payload => let '(p', v) := dict_setdefault k (JDict []) payload in (p', Ok v).

(** [detect_missing(payload)]: the state is the caller's [payload], to
    which the probing adds [company] and [tables] when absent. *)
Definition detect_missing : M dict (list MissingField) :=
  (let missing := [] in
   payload <- get ;;
   has_plus_in_allowances <- lift (has_plus_in "collective_agreement" "allowances" payload) ;;
   has_plus_in_comp <- lift (has_plus_in "compensation" "variables" payload) ;;
   let missing :=
     append_if (has_plus_in_allowances && negb has_plus_in_comp) gap_plus_convenio missing in
   company <- setdefault_dict "company" ;;
   cnae <- lift (py_get company "cnae" JNull) ;;
   no_tariff <- (if negb (truthy cnae)
                 then atep <- lift (py_get company "atep_tariff_pct" JNull) ;;
                      ret (negb (truthy atep))
                 else ret false) ;;
   let missing := append_if no_tariff gap_atep missing in
   payload <- get ;;
   period_year <- lift (py_get (dict_get_or "period" (JDict []) payload) "year" JNull) ;;
   tables <- setdefault_dict "tables" ;;
   cotization_year <- lift (py_get tables "cotization_year" JNull) ;;
   let missing :=
     append_if (negb (truthy cotization_year)) (gap_cotization_year period_year) missing in
   irpf_year <- lift (py_get tables "irpf_year" JNull) ;;
   let missing :=
     append_if (negb (truthy irpf_year)) (gap_irpf_year period_year) missing in
   payload <- get ;;
   no_cra <- lift (field_unset "compensation" "base_salary_cra_code" payload) ;;
   let missing := append_if no_cra gap_cra missing in
   no_nif <- lift (field_unset "worker" "nif" payload) ;;
   let missing := append_if no_nif gap_nif missing in
   no_regime <- lift (field_unset "region_config" "irpf_regime" payload) ;;
   let missing := append_if no_regime gap_regime missing in
   ret missing)%st.

(** The console: the lines still to be read by [input] and the prompts
    written so far. *)
Record console : Type := mkConsole {
  stdin : list string;
  stdout : list string
}.

(** [input(prompt)]: writes the prompt, reads one line without its end of
    line; [EOFError] when no line is left. *)
Definition input (prompt : string) : M console string :=
  fun c =>
    match stdin c with
    | line :: rest => (mkConsole rest (stdout c ++ [prompt])%list, Ok line)
    | [] => (mkConsole [] (stdout c ++ [prompt])%list, Err EOFError)
    end.

Definition newline : string := String (ascii_of_N 10) EmptyString.

(** [m.default is not None] *)
Definition is_not_none (v : json) : bool :=
  match v with
  | JNull => false
  | _ => true
  end.

(** [f"{text}{m.path}: {m.default}"] *)
Definition warning_text (text : string) (m : MissingField) : string :=
  text ++ path m ++ ": " ++ py_str (default m).

(** The first half of the loop body of [resolve_missing] (lines 241 to 255):
    the value for the gap [m] and the warnings afterwards.  A policy other
    than "ask" takes the [else] branch. *)
Definition choose_value (policy : string) (m : MissingField) (warnings : list string)
  : M console (json * list string) :=
  (if String.eqb policy "ask" then
     let q := question m ++ " [" ++ hint m ++ "]" in
     let q :=
       if String.eqb (type m) "enum" && enum_truthy (enum m)
       then q ++ " Opciones: " ++ PyStr.join ", " (enum_list (enum m))
       else q in
     line <- input (q ++ newline ++ "> ") ;;
     let raw := PyStr.strip line in
     if String.eqb raw EmptyString && is_not_none (default m) then
       ret (default m,
            (warnings ++ [warning_text "Usado valor por defecto en " m])%list)
     else if String.eqb raw EmptyString then
       raise (ValueError ("Dato obligatorio no proporcionado: " ++ path m))
     else
       value <- lift (_parse_input raw m) ;;
       ret (value, warnings)
   else
     ret (default m,
          (warnings ++ [warning_text "Valor por defecto aplicado en " m])%list))%st.

(** The loop with [break] of lines 262 to 264: position and value of the
    first item named Plus Convenio. *)
Fixpoint find_plus_convenio (vars_ : list json) (i : nat) : result (option (nat * json)) :=
  match vars_ with
  | [] => Ok None
  | v :: rest =>
      (b <- is_plus_convenio v ;;
       if (b : bool) then Ok (Some (i, v)) else find_plus_convenio rest (S i))%py
  end.

Definition new_plus_convenio : dict :=
  [("name", JStr "Plus Convenio"); ("taxable", JBool true);
   ("contributory", JBool true); ("cra_code", JStr "C02")].

(** [float(value) if value is not None else 0.0] *)
Definition amount_of (value : json) : result json :=
  if is_not_none value then (x <- py_float value ;; Ok (JFloat x))%py
  else Ok (JFloat PyFloat.zero).

(** Writing back into the payload the objects it holds: [comp] is
    [payload["compensation"]] and [vars_] is [comp["variables"]]. *)
Definition store_compensation (comp : dict) : M dict unit :=
  fun payload => (dict_set "compensation" (JDict comp) payload, Ok tt).

Definition store_variables (comp : dict) (vars_ : list json) : M dict unit :=
  store_compensation (dict_set "variables" (JList vars_) comp).

(** Lines 266 to 268 when nothing was found: only a list has [append], and
    the new item is in the list before its amount is computed. *)
Definition append_plus_convenio (comp : dict) (vars_ : json) (value : json)
  : M dict unit :=
  match vars_ with
  | JList l =>
      (store_variables comp (l ++ [JDict new_plus_convenio])%list ;;
       amount <- lift (amount_of value) ;;
       store_variables comp
         (l ++ [JDict (dict_set "amount" amount new_plus_convenio)])%list)%st
  | _ => raise AttributeError
  end.

(** Lines 261 to 268, with [comp] and [vars_] at hand: the search, then the
    amount written into the item found or into a new one. *)
Definition put_plus_amount (comp : dict) (vars_ : json) (value : json) : M dict unit :=
  (items <- lift (py_iter vars_) ;;
   found <- lift (find_plus_convenio items 0) ;;
   match found with
   | Some (i, JDict f) =>
       if truthy (JDict f) then
         amount <- lift (amount_of value) ;;
         store_variables comp (<[i := JDict (dict_set "amount" amount f)]> items)
       else append_plus_convenio comp vars_ value
   | _ => append_plus_convenio comp vars_ value
   end)%st.

(** The special case of lines 258 to 268. *)
Definition set_plus_convenio (value : json) : M dict unit :=
  (comp <- setdefault_dict "compensation" ;;
   match comp with
   | JDict comp =>
       let '(comp, vars_) := dict_setdefault "variables" (JList []) comp in
       store_compensation comp ;;
       put_plus_amount comp vars_ value
   | _ => raise AttributeError
   end)%st.

(** The second half of the loop body (lines 257 to 270). *)
Definition apply_value (m : MissingField) (value : json) : M dict unit :=
  if String.eqb (path m) "compensation.plus_convenio_amount" then
    set_plus_convenio value
  else
    fun payload => _set_by_path payload (PyStr.split_char "." (path m)) value.

Fixpoint resolve_loop (policy : string) (missing : list MissingField)
  (warnings : list string) : M (dict * console) (list string) :=
  match missing with
  | [] => ret warnings
  | m :: rest =>
      (vw <- on_snd (choose_value policy m warnings) ;;
       on_fst (apply_value m (fst vw)) ;;
       resolve_loop policy rest (snd vw))%st
  end.

(** [resolve_missing(payload, missing, policy)]: the state holds the
    caller's [payload] object, which is also the one returned, and the
    console; the result is the list of warnings. *)
Definition resolve_missing (missing : list MissingField) (policy : string)
  : M (dict * console) (list string) :=
  match missing with
  | [] => ret []
  | _ :: _ =>
      if String.eqb policy "fail" then
        raise (ValueError ("Faltan datos críticos: " ++ PyStr.join "; " (map path missing)))
      else resolve_loop policy missing []
  end.

(** [preflight]: the detector followed by the resolver on the same payload
    object, as lines 280 and 281 of [call_gpt5_compute_payroll] run them. *)
Definition preflight (policy : string) : M (dict * console) (list string) :=
  (missing <- on_fst detect_missing ;;
   resolve_missing missing policy)%st.

(** * Definitions for the properties *)

(** ** The detector, rule by rule *)

(** [payload.get(k1, {}).get(k2, dflt)]: every rule of the detector reads
    the payload through this. *)
Definition read2 (k1 k2 : string) (dflt : json) (d : dict) : result json :=
  py_get (dict_get_or k1 (JDict []) d) k2 dflt.

(** The dictionary bound to [k], empty when [k] is absent or bound to
    something else. *)
Definition sub (k : string) (d : dict) : dict :=
  match dict_get k d with
  | Some (JDict c) => c
  | _ => []
  end.

(** [d[k1][k2] = v], with [d[k1]] made a dictionary when it is not one. *)
Definition nest_set (k1 k2 : string) (v : json) (d : dict) : dict :=
  dict_set k1 (JDict (dict_set k2 v (sub k1 d))) d.

(** The two segments of a path such as ["tables.irpf_year"]. *)
Definition key_of (m : MissingField) : option (string * string) :=
  match PyStr.split_char "." (path m) with
  | [k1; k2] => Some (k1, k2)
  | _ => None
  end.

Definition is_plus_path (m : MissingField) : bool :=
  String.eqb (path m) "compensation.plus_convenio_amount".

Definition no_tariff (company : dict) : bool :=
  negb (truthy (dict_get_or "cnae" JNull company))
  && negb (truthy (dict_get_or "atep_tariff_pct" JNull company)).

(** The list the detector builds from the outcome of its seven rules. *)
Definition gaps_of (b1 b2 b3 b4 b5 b6 b7 : bool) (period_year : json)
  : list MissingField :=
  append_if b7 gap_regime
    (append_if b6 gap_nif
       (append_if b5 gap_cra
          (append_if b4 (gap_irpf_year period_year)
             (append_if b3 (gap_cotization_year period_year)
                (append_if b2 gap_atep
                   (append_if b1 gap_plus_convenio [])))))).

(** The payload after the probing of the detector. *)
Definition probed (d : dict) : dict :=
  fst (dict_setdefault "tables" (JDict [])
         (fst (dict_setdefault "company" (JDict []) d))).

(** Reading along a dotted path, the counterpart of [_set_by_path]. *)
Fixpoint get_by_path (path_parts : list string) (v : json) : option json :=
  match path_parts with
  | [] => Some v
  | p :: rest =>
      match v with
      | JDict d =>
          match dict_get p d with
          | Some c => get_by_path rest c
          | None => None
          end
      | _ => None
      end
  end.

(** The document does not satisfy the field at [p]: nothing is there, or
    what is there is false for Python ([None], zero, an empty text, list or
    dictionary), which is the detector's test [not value]. *)
Definition unset_at (p : string) (d : dict) : bool :=
  match get_by_path (PyStr.split_char "." p) (JDict d) with
  | Some v => negb (truthy v)
  | None => true
  end.

(** The loop of the resolver with the values given: [apply_value] for each
    gap in turn. *)
Fixpoint apply_values (gvs : list (MissingField * json)) : M dict unit :=
  match gvs with
  | [] => ret tt
  | (m, v) :: rest => (apply_value m v ;; apply_values rest)%st
  end.

(** The values [choose_value] gives for the gaps in turn, reading the
    console [c]; the list stops where [choose_value] raises. *)
Fixpoint chosen_values (policy : string) (missing : list MissingField) (c : console)
  : list json :=
  match missing with
  | [] => []
  | m :: rest =>
      match choose_value policy m [] c with
      | (c', Ok (v, _)) => v :: chosen_values policy rest c'
      | (_, Err _) => []
      end
  end.

(** A gap the generic assignment handles, with a path of two segments. *)
Definition simple_gap (m : MissingField) : Prop :=
  is_plus_path m = false /\ exists k1 k2, key_of m = Some (k1, k2).

Definition is_dict_at (k : string) (d : dict) : Prop :=
  exists c : dict, dict_get k d = Some (JDict c).

Definition not_list_at (k : string) (d : dict) : Prop :=
  forall l : list json, dict_get k d <> Some (JList l).

(** The item the resolver appends, with its amount [a]. *)
Definition plus_convenio_item (a : json) : json :=
  JDict [("name", JStr "Plus Convenio"); ("taxable", JBool true);
         ("contributory", JBool true); ("cra_code", JStr "C02"); ("amount", a)].

(** The value applied for a gap settles its rule when it is true for
    Python; the amount of the allowance always does. *)
Definition settles (m : MissingField) (v : json) : Prop :=
  is_plus_path m = true \/ truthy v = true.

(** What the specification asks after a resolution: the detector, run again
    on the payload the resolver left, reports nothing. *)
Definition redetects_nothing (policy : string) (payload : dict) (con : console) : Prop :=
  forall (d1 d2 : dict) (gaps : list MissingField) (con' : console) (w : list string),
    detect_missing payload = (d1, Ok gaps) ->
    resolve_missing gaps policy (d1, con) = ((d2, con'), Ok w) ->
    detect_missing d2 = (d2, Ok []).

(** ** Region enrichment *)

(** What the specification asks of every result: a [notes] field on its
    [region_config]. *)
Definition notes_ensured (payload : dict) : Prop :=
  exists (data rc : dict),
    enrich_region_config payload = Ok data
    /\ dict_get "region_config" data = Some (JDict rc)
    /\ dict_has "notes" rc = true.

(** The regime tag of a document, when it has one. *)
Definition regime_tag (payload : dict) : option json :=
  match dict_get "region_config" payload with
  | Some (JDict rc) => dict_get "irpf_regime" rc
  | _ => None
  end.

(** The [region_config] that enrichment leaves when it holds the region
    identifier [c]: [notes] defaulted, then the regime tag of [c] from the
    table unless a tag is there. *)
Definition enriched_rc (c : string) (rc : dict) : dict :=
  let rc1 := fst (dict_setdefault "notes" (JStr EmptyString) rc) in
  if dict_has "irpf_regime" rc1 then rc1
  else
    match dict_get c CCAA_REGION_MAP with
    | Some (JDict e) =>
        match dict_get "irpf_regime" e with
        | Some t => dict_set "irpf_regime" t rc1
        | None => rc1
        end
    | _ => rc1
    end.

(** ** Samples *)

Definition bogus_message : string :=
  "Valor 'BOGUS' no está en ['AEAT', 'FORAL_NAVARRA', 'FORAL_PV']".

(** A document with the allowance in capitals and no variable pay. *)
Definition sample_allowance : dict :=
  [("collective_agreement",
    JDict [("allowances", JList [JDict [("name", JStr "PLUS Convenio")]])])].

(** A document with a region identifier. *)
Definition sample_region : dict :=
  [("region_config", JDict [("ccaa", JStr "País Vasco")]);
   ("worker", JDict [("nif", JStr "12345678Z")])].

(** ** Objects and references

    For the claim that enrichment works on a copy, the payload is an
    object on a heap.  Lists and dictionaries are objects, reached through
    references; the other values cannot be mutated and are held in place.
    The heap is the list of the objects allocated so far, an address being
    a position in it. *)

Abbreviation loc := nat.

Inductive val : Type :=
| VNull
| VBool (b : bool)
| VInt (n : Z)
| VFloat (x : spec_float)
| VStr (s : string)
| VRef (l : loc).

Inductive obj : Type :=
| OList (items : list val)
| ODict (fields : list (string * val)).

Abbreviation heap := (list obj).

(** A new object. *)
Definition alloc (o : obj) : M heap val :=
  fun h => ((h ++ [o])%list, Ok (VRef (length h))).

(** All or nothing of a list of optional results. *)
Fixpoint all_some {A : Type} (l : list (option A)) : option (list A) :=
  match l with
  | [] => Some []
  | Some a :: r =>
      match all_some r with
      | Some r' => Some (a :: r')
      | None => None
      end
  | None :: _ => None
  end.

(** The document a value stands for, read off the heap through at most
    [fuel] references in a row. *)
Fixpoint reify (fuel : nat) (h : heap) (v : val) : option json :=
  match v with
  | VNull => Some JNull
  | VBool b => Some (JBool b)
  | VInt n => Some (JInt n)
  | VFloat x => Some (JFloat x)
  | VStr s => Some (JStr s)
  | VRef l =>
      match fuel with
      | O => None
      | S f =>
          match h !! l with
          | Some (OList items) =>
              match all_some (map (reify f h) items) with
              | Some js => Some (JList js)
              | None => None
              end
          | Some (ODict fields) =>
              match all_some (map (fun kv =>
                                     match reify f h (snd kv) with
                                     | Some j => Some (fst kv, j)
                                     | None => None
                                     end) fields) with
              | Some kvs => Some (JDict kvs)
              | None => None
              end
          | None => None
          end
      end
  end.

(** [json.dumps(v)]: the text, held as the document it denotes.  A chain of
    more references than the heap has objects passes one object twice: the
    circular reference that [json.dumps] rejects. *)
Definition dumps (v : val) : M heap json :=
  fun h =>
    match reify (S (length h)) h v with
    | Some j => (h, Ok j)
    | None => (h, Err (ValueError "Circular reference detected"))
    end.

(** [json.loads(text)]: every list and dictionary of the document is a new
    object. *)
Fixpoint loads (j : json) (h : heap) {struct j} : heap * val :=
  match j with
  | JNull => (h, VNull)
  | JBool b => (h, VBool b)
  | JInt n => (h, VInt n)
  | JFloat x => (h, VFloat x)
  | JStr s => (h, VStr s)
  | JList items =>
      let '(h1, vs) :=
        (fix go (js : list json) (h : heap) : heap * list val :=
           match js with
           | [] => (h, [])
           | x :: r =>
               let '(h1, v) := loads x h in
               let '(h2, vs) := go r h1 in
               (h2, v :: vs)
           end) items h in
      ((h1 ++ [OList vs])%list, VRef (length h1))
  | JDict kvs =>
      let '(h1, fields) :=
        (fix go (kvs : list (string * json)) (h : heap) : heap * list (string * val) :=
           match kvs with
           | [] => (h, [])
           | (k, x) :: r =>
               let '(h1, v) := loads x h in
               let '(h2, fields) := go r h1 in
               (h2, (k, v) :: fields)
           end) kvs h in
      ((h1 ++ [ODict fields])%list, VRef (length h1))
  end.

Definition loads_m (j : json) : M heap val :=
  fun h => let '(h', v) := loads j h in (h', Ok v).

(** The two loops of [loads], on the items of a list and on the fields of a
    dictionary. *)
Definition load_items : list json -> heap -> heap * list val :=
  fix go (js : list json) (h : heap) : heap * list val :=
    match js with
    | [] => (h, [])
    | x :: r =>
        let '(h1, v) := loads x h in
        let '(h2, vs) := go r h1 in
        (h2, v :: vs)
    end.

Definition load_fields : list (string * json) -> heap -> heap * list (string * val) :=
  fix go (kvs : list (string * json)) (h : heap) : heap * list (string * val) :=
    match kvs with
    | [] => (h, [])
    | (k, x) :: r =>
        let '(h1, v) := loads x h in
        let '(h2, fields) := go r h1 in
        (h2, (k, v) :: fields)
    end.

(** The fields of a dictionary object: only such an object has [get] and
    [setdefault], takes [in] with a string and a string subscript. *)
Definition h_fields (o : val) : M heap (loc * list (string * val)) :=
  fun h =>
    match o with
    | VRef l =>
        match h !! l with
        | Some (ODict fields) => (h, Ok (l, fields))
        | _ => (h, Err AttributeError)
        end
    | _ => (h, Err AttributeError)
    end.

(** [o.get(k, dflt)] *)
Definition h_get (o : val) (k : string) (dflt : val) : M heap val :=
  (lf <- h_fields o ;; ret (dict_get_or k dflt (snd lf)))%st.

(** [o[k] = v] on a dictionary object: the object at its address changes. *)
Definition h_store (l : loc) (fields : list (string * val)) : M heap unit :=
  fun h => (<[l := ODict fields]> h, Ok tt).

(** [o.setdefault(k, dflt)] *)
Definition h_setdefault (o : val) (k : string) (dflt : val) : M heap val :=
  (lf <- h_fields o ;;
   match dict_get k (snd lf) with
   | Some v => ret v
   | None => h_store (fst lf) (dict_set k dflt (snd lf)) ;; ret dflt
   end)%st.

(** [k in o] *)
Definition h_contains (o : val) (k : string) : M heap bool :=
  (lf <- h_fields o ;; ret (dict_has k (snd lf)))%st.

(** [o[k] = v] *)
Definition h_setitem (o : val) (k : string) (v : val) : M heap unit :=
  (lf <- h_fields o ;; h_store (fst lf) (dict_set k v (snd lf)))%st.

(** [bool(v)] *)
Definition h_truthy (v : val) : M heap bool :=
  fun h =>
    (h, Ok match v with
           | VNull => false
           | VBool b => b
           | VInt n => negb (n =? 0)%Z
           | VFloat x => PyFloat.truthy x
           | VStr s => negb (String.eqb s EmptyString)
           | VRef l =>
               match h !! l with
               | Some (OList items) => negb (bool_decide (items = []))
               | Some (ODict fields) => negb (bool_decide (fields = []))
               | None => false
               end
           end).

(** [key in CCAA_REGION_MAP]: an object cannot be hashed. *)
Definition h_in_region_map (key : val) : result bool :=
  match key with
  | VStr s => Ok (dict_has s CCAA_REGION_MAP)
  | VRef _ => Err TypeError
  | _ => Ok false
  end.

(** Lines 113 to 120 of [enrich_region_config], on the copy [data].  The
    braces of [.get(..., {})] and [.setdefault(..., {})] are new empty
    dictionaries; the tag comes from the table, where it is a string. *)
Definition enrich_copy (data : val) : M heap val :=
  (empty <- alloc (ODict []) ;;
   rc0 <- h_get data "region_config" empty ;;
   ccaa <- h_get rc0 "ccaa" VNull ;;
   not_empty <- h_truthy ccaa ;;
   if negb not_empty then ret data
   else
     empty <- alloc (ODict []) ;;
     rc <- h_setdefault data "region_config" empty ;;
     h_setdefault rc "notes" (VStr EmptyString) ;;
     has_tag <- h_contains rc "irpf_regime" ;;
     mapped <- (if negb has_tag then lift (h_in_region_map ccaa) else ret false) ;;
     if (mapped : bool) then
       match ccaa with
       | VStr c =>
           entry <- lift (py_getitem (JDict CCAA_REGION_MAP) c) ;;
           tag <- lift (py_getitem entry "irpf_regime") ;;
           tag_value <- loads_m tag ;;
           h_setitem rc "irpf_regime" tag_value ;;
           ret data
       | _ => raise KeyError
       end
     else ret data)%st.

(** [enrich_region_config] on the heap: line 112 makes the copy. *)
Definition enrich_region_config_heap (payload : val) : M heap val :=
  (text <- dumps payload ;;
   data <- loads_m text ;;
   enrich_copy data)%st.

(** *** Frames

    [n] is the size of the heap when enrichment starts: the objects below
    [n] are the caller's, those from [n] on are the copy's. *)

Definition val_above (n : nat) (v : val) : Prop :=
  match v with
  | VRef l => (n <= l)%nat
  | _ => True
  end.

Definition obj_above (n : nat) (o : obj) : Prop :=
  match o with
  | OList items => Forall (val_above n) items
  | ODict fields => Forall (fun kv => val_above n (snd kv)) fields
  end.

(** The objects from [n] on refer to objects from [n] on only. *)
Definition closed_above (n : nat) (h : heap) : Prop :=
  forall (l : loc) (o : obj), (n <= l)%nat -> h !! l = Some o -> obj_above n o.

(** [h'] holds below [n] what [h] holds. *)
Definition agree_below (n : nat) (h h' : heap) : Prop :=
  forall l : loc, (l < n)%nat -> h' !! l = h !! l.

(** A computation that leaves the objects below [n] alone, keeps the rest
    closed, and returns a result that satisfies [post]. *)
Definition framed (n : nat) {A : Type} (post : A -> Prop) (c : M heap A) : Prop :=
  forall (h h' : heap) (r : result A),
    (n <= length h)%nat -> closed_above n h -> c h = (h', r) ->
    agree_below n h h' /\ (n <= length h')%nat /\ closed_above n h'
    /\ (forall a, r = Ok a -> post a).

(** What [json.loads] builds: new objects only, that refer to new objects
    only. *)
Definition loads_new (j : json) : Prop :=
  forall h : heap,
  exists new : list obj,
    fst (loads j h) = (h ++ new)%list
    /\ Forall (obj_above (length h)) new
    /\ val_above (length h) (snd (loads j h)).

(** The address and the fields of a dictionary object of the copy. *)
Definition fields_above (n : nat) (lf : loc * list (string * val)) : Prop :=
  (n <= fst lf)%nat /\ Forall (fun kv => val_above n (snd kv)) (snd lf).

(** A computation that returns only results that satisfy [post]. *)
Definition returns {A : Type} (post : A -> Prop) (c : M heap A) : Prop :=
  forall (h h' : heap) (a : A), c h = (h', Ok a) -> post a.

(** Loading allocates by the size of the heap only. *)
Definition loads_by_size (j : json) : Prop :=
  forall h h' : heap,
    length h = length h' ->
    exists (new : list obj) (v : val),
      loads j h = ((h ++ new)%list, v) /\ loads j h' = ((h' ++ new)%list, v).


(** [h'] holds the objects of [h], and maybe more. *)
Definition extends (h h' : heap) : Prop :=
  forall (l : loc) (o : obj), h !! l = Some o -> h' !! l = Some o.


(** What [loads] has built reads back as the document, through as many
    references as objects were made. *)
Definition loads_reads_back (j : json) : Prop :=
  forall (h : heap) (f : nat),
    (length (fst (loads j h)) - length h <= f)%nat ->
    reify f (fst (loads j h)) (snd (loads j h)) = Some j.

(** ** Nested assignment *)

(** A list stands in the way of [_set_by_path]: it is bound to a segment
    before the last one, and reached through dictionaries only. *)
Fixpoint list_on_path (d : dict) (path_parts : list string) : bool :=
  match path_parts with
  | [] => false
  | [_] => false
  | p :: rest =>
      match dict_get p d with
      | Some (JDict cur) => list_on_path cur rest
      | Some (JList _) => true
      | _ => false
      end
  end.

(** Two paths part ways: after a common prefix, each has a segment and the
    two segments differ. *)
Fixpoint diverge (p q : list string) : bool :=
  match p, q with
  | a :: p', b :: q' => if String.eqb a b then diverge p' q' else true
  | _, _ => false
  end.

(** A value that is neither a dictionary nor a list. *)
Definition is_scalar (v : json) : bool :=
  match v with
  | JDict _ | JList _ => false
  | _ => true
  end.

(** ** The detector as a whole *)

(** The paths of the seven rules, in the order the detector runs them. *)
Definition detector_paths : list string :=
  ["compensation.plus_convenio_amount"; "company.atep_tariff_pct";
   "tables.cotization_year"; "tables.irpf_year";
   "compensation.base_salary_cra_code"; "worker.nif";
   "region_config.irpf_regime"].

(** The sections of the document the detector reads with [get]. *)
Definition detector_sections : list string :=
  ["collective_agreement"; "compensation"; "company"; "period"; "tables";
   "worker"; "region_config"].

(** The condition of the rule for the path [p], on the document [d]. *)
Definition rule_fires (p : string) (d : dict) : Prop :=
  if String.eqb p "compensation.plus_convenio_amount" then
    has_plus_in "collective_agreement" "allowances" d = Ok true
    /\ has_plus_in "compensation" "variables" d = Ok false
  else if String.eqb p "company.atep_tariff_pct" then
    unset_at "company.cnae" d = true /\ unset_at p d = true
  else unset_at p d = true.

(** The test of a rule, read along the two segments of its path. *)
Definition unset2 (k1 k2 : string) (d : dict) : bool :=
  match get_by_path [k1; k2] (JDict d) with
  | Some v => negb (truthy v)
  | None => true
  end.

(** ** The resolver as a whole *)

(** The prompt of the question for the gap [m] (lines 242 to 245). *)
Definition prompt_of (m : MissingField) : string :=
  let q := question m ++ " [" ++ hint m ++ "]" in
  let q :=
    if String.eqb (type m) "enum" && enum_truthy (enum m)
    then q ++ " Opciones: " ++ PyStr.join ", " (enum_list (enum m))
    else q in
  q ++ newline ++ "> ".

(** An answer with nothing but white space: the Enter key alone. *)
Definition blank (line : string) : Prop := PyStr.strip line = EmptyString.

Definition has_default (m : MissingField) : Prop := is_not_none (default m) = true.

(** A document on which no rule of the detector fires. *)
Definition sample_complete : dict :=
  [("company", JDict [("cnae", JStr "6201")]);
   ("period", JDict [("year", JInt 2025); ("month", JInt 3)]);
   ("tables", JDict [("cotization_year", JInt 2025); ("irpf_year", JInt 2025)]);
   ("compensation", JDict [("base_salary_cra_code", JStr "C01")]);
   ("worker", JDict [("nif", JStr "12345678Z")]);
   ("region_config", JDict [("ccaa", JStr "Galicia"); ("irpf_regime", JStr "AEAT")])].

(** ** Region enrichment as a whole *)

(** The [region_config] that enrichment leaves for the region identifier
    [ccaa]: only a string can be a key of the table. *)
Definition final_rc (ccaa : json) (rc : dict) : dict :=
  match ccaa with
  | JStr c => enriched_rc c rc
  | _ => fst (dict_setdefault "notes" (JStr EmptyString) rc)
  end.

(** [rc'] holds every field of [rc] with its value, and nothing more
    except maybe [notes] and [irpf_regime]. *)
Definition only_adds (rc rc' : dict) : Prop :=
  (forall k v, dict_get k rc = Some v -> dict_get k rc' = Some v)
  /\ (forall k, k <> "notes" -> k <> "irpf_regime" -> dict_get k rc' = dict_get k rc).

(** The regime of a region of the table: common, but for the two foral
    territories. *)
Definition regime_of (c : string) : string :=
  if String.eqb c "Comunidad Foral de Navarra" then "FORAL_NAVARRA"
  else if String.eqb c "País Vasco" then "FORAL_PV"
  else "AEAT".

(** ** 5) Call GPT-5

    [call_gpt5_compute_payroll] talks to two libraries, the JSON Schema
    validator and the client of the model, and reads the answer with
    [json.loads].  They are an interface here: the properties hold whatever
    the validator accepts and whatever the model answers. *)

(** A part of the content of an output item: [getattr(c, "type", None)],
    [getattr(c, "parsed", None)] and [c.text]. *)
Record content : Type := mkContent {
  c_type : option string;
  c_parsed : json;
  c_text : string
}.

(** An item of [resp.output]: [getattr(item, "type", None)] and
    [getattr(item, "content", [])]. *)
Record item : Type := mkItem {
  i_type : option string;
  i_content : list content
}.

Record services : Type := mkServices {
  schema : Type;
  PAYROLL_INPUT_SCHEMA : schema;
  PAYROLL_RESULT_SCHEMA : schema;
  (** [Draft202012Validator(schema).validate(payload)]: the message and
      the path of the [ValidationError] it raises, if it raises one. *)
  validation_error : schema -> json -> option (string * list json);
  client_error : Type;
  (** [client.responses.create(...)] with the document as the user
      message: [resp.output], or the exception of the client. *)
  responses_create : dict -> client_error + list item;
  json_loads : string -> result json
}.

(** How a call ends: it returns, or raises one of the exceptions of the
    preflight, the [RuntimeError] of line 311, or an exception of the
    client. *)
Inductive outcome (E A : Type) : Type :=
| Returned (a : A)
| Raised (e : exn)
| RuntimeError (msg : string)
| ClientError (e : E).
Arguments Returned {E A} a.
Arguments Raised {E A} e.
Arguments RuntimeError {E A} msg.
Arguments ClientError {E A} e.

(** [validate_with_schema(payload, schema, name)] *)
Definition validate_with_schema (svc : services)
  (payload : json) (sch : schema svc) (name : string) : result unit :=
  match validation_error svc sch payload with
  | None => Ok tt
  | Some (message, error_path) =>
      Err (ValueError ("Error de validación contra " ++ name ++ ": " ++ message
                       ++ newline ++ "Ruta: "
                       ++ PyStr.join "/" (map py_str error_path)))
  end.

Definition is_type (t : option string) (name : string) : bool :=
  match t with
  | Some s => String.eqb s name
  | None => false
  end.

(** The inner loop of lines 306 to 309, with its [break]: the first part of
    type [output_text], if any. *)
Fixpoint first_output_text (cs : list content) : option content :=
  match cs with
  | [] => None
  | c :: rest => if is_type (c_type c) "output_text" then Some c else first_output_text rest
  end.

(** [getattr(c, "parsed", None) or json.loads(c.text)] *)
Definition parsed_or_loaded (svc : services) (c : content) : result json :=
  if truthy (c_parsed c) then Ok (c_parsed c) else json_loads svc (c_text c).

(** The outer loop of lines 304 to 309: [output_obj] after the items. *)
Fixpoint extract_output (svc : services) (items : list item) (output_obj : json)
  : result json :=
  match items with
  | [] => Ok output_obj
  | it :: rest =>
      if is_type (i_type it) "message" then
        match first_output_text (i_content it) with
        | Some c =>
            (v <- parsed_or_loaded svc c ;; extract_output svc rest v)%py
        | None => extract_output svc rest output_obj
        end
      else extract_output svc rest output_obj
  end.

(** Lines 313 to 315: only a dictionary has [setdefault], only a list has
    [extend]. *)
Definition merge_warnings (output_obj : json) (preflight_warnings : list string)
  : result json :=
  match preflight_warnings with
  | [] => Ok output_obj
  | _ :: _ =>
      match output_obj with
      | JDict d =>
          let '(d1, out_w) := dict_setdefault "warnings" (JList []) d in
          match out_w with
          | JList l =>
              Ok (JDict (dict_set "warnings"
                           (JList (l ++ map JStr preflight_warnings)) d1))
          | _ => Err AttributeError
          end
      | _ => Err AttributeError
      end
  end.

(** What a call acts on: the console and the requests sent to the model so
    far. *)
Record world : Type := mkWorld {
  w_console : console;
  w_sent : list dict
}.

(** Lines 303 to 318, from the answer of the model on. *)
Definition finish (svc : services) (output : list item) (preflight_warnings : list string)
  : outcome (client_error svc) json :=
  match extract_output svc output JNull with
  | Err e => Raised e
  | Ok JNull => RuntimeError "No se pudo extraer la salida del modelo."
  | Ok output_obj =>
      match merge_warnings output_obj preflight_warnings with
      | Err e => Raised e
      | Ok output_obj =>
          match validate_with_schema svc output_obj (PAYROLL_RESULT_SCHEMA svc)
                  "PayrollResultSchema" with
          | Err e => Raised e
          | Ok _ => Returned output_obj
          end
      end
  end.

(** [call_gpt5_compute_payroll(input_payload, missing_policy)] *)
Definition call_gpt5_compute_payroll (svc : services)
  (input_payload : dict) (missing_policy : string) (w : world)
  : world * outcome (client_error svc) json :=
  match validate_with_schema svc (JDict input_payload) (PAYROLL_INPUT_SCHEMA svc)
          "PayrollInputSchema" with
  | Err e => (w, Raised e)
  | Ok _ =>
      match enrich_region_config input_payload with
      | Err e => (w, Raised e)
      | Ok enriched =>
          match preflight missing_policy (enriched, w_console w) with
          | ((_, con), Err e) => (mkWorld con (w_sent w), Raised e)
          | ((enriched, con), Ok preflight_warnings) =>
              let w' := mkWorld con (w_sent w ++ [enriched])%list in
              match responses_create svc enriched with
              | inl e => (w', ClientError e)
              | inr output => (w', finish svc output preflight_warnings)
              end
          end
      end
  end.

(** A validator that accepts everything and a model that always answers
    with one message, already parsed. *)
Definition sample_services : services :=
  mkServices unit tt tt (fun _ _ => None) unit
    (fun _ => inr [mkItem (Some "message")
                     [mkContent (Some "output_text") (JDict [("net", JInt 1)])
                        EmptyString]])
    (fun _ => Ok JNull).

(** The world after a call for [sample_complete]: one request, with the
    enriched document. *)
Definition sample_world : world :=
  mkWorld (mkConsole [] [])
    [dict_set "region_config"
       (JDict [("ccaa", JStr "Galicia"); ("irpf_regime", JStr "AEAT");
               ("notes", JStr EmptyString)])
       sample_complete].

(** What a call under "default" returns for [sample_region] with these
    services. *)
Definition sample_output : json :=
  JDict [("net", JInt 1);
         ("warnings",
          JList [JStr "Valor por defecto aplicado en company.atep_tariff_pct: 1.5";
                 JStr "Valor por defecto aplicado en tables.cotization_year: None";
                 JStr "Valor por defecto aplicado en tables.irpf_year: None";
                 JStr "Valor por defecto aplicado en compensation.base_salary_cra_code: C01"])].

(** The last element of a list of options that is not [None]. *)
Fixpoint last_some {A : Type} (l : list (option A)) : option A :=
  match l with
  | [] => None
  | x :: rest =>
      match last_some rest with
      | Some y => Some y
      | None => x
      end
  end.

(** The part of an item that the loop of lines 304 to 309 reads, if it
    reads one. *)
Definition read_part (it : item) : option content :=
  if is_type (i_type it) "message" then first_output_text (i_content it) else None.

(** ** The batch driver: file names

    [_safe_slug] of [batch_run.py] makes the part of a file name that comes
    from the region identifier. *)

Definition is_ascii_alnum (c : ascii) : bool :=
  let n := PyStr.byte_of c in
  (((48 <=? n) && (n <=? 57)) || ((65 <=? n) && (n <=? 90))
   || ((97 <=? n) && (n <=? 122)))%N.

(** [ch.isalnum()] for one character: the digits and letters of ASCII; for
    a character outside ASCII, what the Unicode database [unicode_isalnum]
    says. *)
Definition isalnum (unicode_isalnum : string -> bool) (ch : string) : bool :=
  match ch with
  | EmptyString => false
  | String c rest =>
      if (PyStr.byte_of c <? 128)%N
      then String.eqb rest EmptyString && is_ascii_alnum c
      else unicode_isalnum ch
  end.

(** [s.lstrip(c)] and [s.strip(c)] for one character [c], on the bytes. *)
Fixpoint lstrip_bytes (c : ascii) (l : list ascii) : list ascii :=
  match l with
  | a :: r => if Ascii.eqb a c then lstrip_bytes c r else l
  | [] => []
  end.

Definition strip_bytes (c : ascii) (l : list ascii) : list ascii :=
  rev (lstrip_bytes c (rev (lstrip_bytes c l))).

(** [ch.isalnum() or ch in ("-", "_")] *)
Definition slug_keeps (unicode_isalnum : string -> bool) (ch : string) : bool :=
  isalnum unicode_isalnum ch || String.eqb ch "-" || String.eqb ch "_".

(** [_safe_slug(s)] *)
Definition _safe_slug (unicode_isalnum : string -> bool) (s : string) : string :=
  string_of_list_ascii
    (strip_bytes "_"
       (list_ascii_of_string
          (PyStr.join EmptyString
             (List.filter (slug_keeps unicode_isalnum) (PyStr.chars s))))).

(** A character as [PyStr.chars] cuts it: a byte and the continuation bytes
    after it. *)
Definition lead_and_continuation (ch : string) : Prop :=
  exists (b : ascii) (conts : string),
    ch = String b conts
    /\ Forall (fun c => PyStr.is_cont c = true) (list_ascii_of_string conts).

(** A byte that may stand in a file name: a digit or letter of ASCII, the
    hyphen, the underscore, or a byte of a character outside ASCII. *)
Definition slug_byte (c : ascii) : Prop :=
  (PyStr.byte_of c < 128)%N -> is_ascii_alnum c = true \/ c = "-"%char \/ c = "_"%char.

(** ** Names and letter-casing *)

Definition small_letters : string := "abcdefghijklmnopqrstuvwxyz".

Definition capital_letters : string := "ABCDEFGHIJKLMNOPQRSTUVWXYZ".

(** The character of [ys] at the place where [c] first stands in [xs]. *)
Fixpoint letter_in (xs ys : string) (c : ascii) : option ascii :=
  match xs, ys with
  | String x xs', String y ys' =>
      if Ascii.eqb c x then Some y else letter_in xs' ys' c
  | _, _ => None
  end.

(** The capital of a small letter. *)
Definition capital_of (c : ascii) : option ascii :=
  letter_in small_letters capital_letters c.

(** Two characters that differ at most in letter-casing: the same
    character, or a small letter and its capital. *)
Definition same_letter (a b : ascii) : bool :=
  Ascii.eqb a b
  || match capital_of a with Some u => Ascii.eqb u b | None => false end
  || match capital_of b with Some u => Ascii.eqb u a | None => false end.

(** Two texts that differ at most in the letter-casing of their
    characters. *)
Fixpoint same_text (s t : string) : bool :=
  match s, t with
  | EmptyString, EmptyString => true
  | String a s', String b t' => same_letter a b && same_text s' t'
  | _, _ => false
  end.

(** An item named [label] in some letter-casing: a dictionary whose [name]
    is a text that differs from [label] at most in casing. *)
Definition named (label : string) (it : json) : bool :=
  match it with
  | JDict f =>
      match dict_get "name" f with
      | Some (JStr s) => same_text s label
      | _ => false
      end
  | _ => false
  end.

(** An item whose name can be read: a dictionary whose [name], when it has
    one, is a text. *)
Definition labelled (it : json) : bool :=
  match it with
  | JDict f =>
      match dict_get "name" f with
      | Some (JStr _) | None => true
      | Some _ => false
      end
  | _ => false
  end.

(** The document holds the list [l] under [k1.k2]; a list that is not
    there, in a section that is a dictionary or is not there, counts as the
    empty list. *)
Definition list_at (k1 k2 : string) (d : dict) (l : list json) : Prop :=
  match dict_get k1 d with
  | None => l = []
  | Some (JDict c) =>
      match dict_get k2 c with
      | None => l = []
      | Some v => v = JList l
      end
  | Some _ => False
  end.

(** A section of the document that is a dictionary, or is not there. *)
Definition is_section (d : dict) (k : string) : bool :=
  match dict_get k d with
  | Some (JDict _) | None => true
  | Some _ => false
  end.

(** What the specification asks of the allowance special case: the
    detector returns the gap of the monthly amount and no other gap of that
    path, and the resolver, run under "default" on the gaps of the detector,
    returns with the new item at the end of [compensation.variables]. *)
Definition routes_plus_convenio (payload : dict) (con : console) : Prop :=
  exists (d1 d2 : dict) (rest : list MissingField) (con' : console)
         (w : list string) (l : list json),
    detect_missing payload = (d1, Ok (gap_plus_convenio :: rest))
    /\ Forall (fun g => is_plus_path g = false) rest
    /\ resolve_missing (gap_plus_convenio :: rest) "default" (d1, con)
       = ((d2, con'), Ok w)
    /\ get_by_path ["compensation"; "variables"] (JDict d2)
       = Some (JList (l ++ [plus_convenio_item (JFloat PyFloat.zero)])).

(** A document with the allowance, whose variable pay is an empty
    dictionary instead of a list. *)
Definition sample_variables_dict : dict :=
  [("collective_agreement",
    JDict [("allowances", JList [JDict [("name", JStr "PLUS Convenio")]])]);
   ("compensation", JDict [("variables", JDict [])])].

(** ** Fields that hold a value *)

(** The document has a value at the dotted path [p]: something is there,
    and it is not [None]. *)
Definition holds_value (p : string) (d : dict) : bool :=
  match get_by_path (PyStr.split_char "." p) (JDict d) with
  | Some JNull | None => false
  | Some _ => true
  end.

(** What the specification asks of the detector: a gap, the allowance's
    apart, is for a field that holds no value in the document. *)
Definition reports_only_absent (payload : dict) : Prop :=
  forall (d1 : dict) (gaps : list MissingField),
    detect_missing payload = (d1, Ok gaps) ->
    Forall (fun g => is_plus_path g = true \/ holds_value (path g) payload = false) gaps.

(** A document whose year of the contribution tables is zero. *)
Definition sample_zero_year : dict :=
  [("company", JDict [("cnae", JStr "6201")]);
   ("period", JDict [("year", JInt 2025)]);
   ("tables", JDict [("cotization_year", JInt 0); ("irpf_year", JInt 2025)]);
   ("compensation", JDict [("base_salary_cra_code", JStr "C01")]);
   ("worker", JDict [("nif", JStr "12345678Z")]);
   ("region_config", JDict [("irpf_regime", JStr "AEAT")])].

(** * Properties *)

(** ** Strings *)

Section StringFacts.

Lemma is_prefix_refl_app (p s : string) : PyStr.is_prefix p (p ++ s) = true.
Proof.
  induction p as [|a p IH]; simpl; [reflexivity|].
  rewrite Ascii.eqb_refl. exact IH.
Qed.

Lemma is_prefix_app_r (p s t : string) :
  PyStr.is_prefix p s = true -> PyStr.is_prefix p (s ++ t) = true.
Proof.
  revert s. induction p as [|a p IH]; intros s H; [reflexivity|].
  destruct s as [|b s]; simpl in *; [discriminate|].
  apply andb_true_iff in H as [Hab Hp].
  rewrite Hab. simpl. apply IH, Hp.
Qed.

Lemma is_substring_prefix (p s : string) :
  PyStr.is_prefix p s = true -> PyStr.is_substring p s = true.
Proof. intros H. destruct s; simpl in *; rewrite H; reflexivity. Qed.

Lemma is_substring_app_l (p s t : string) :
  PyStr.is_substring p t = true -> PyStr.is_substring p (s ++ t) = true.
Proof.
  intros H. induction s as [|a s IH]; simpl; [exact H|].
  rewrite IH. apply orb_true_r.
Qed.

Lemma is_substring_app_r (p s t : string) :
  PyStr.is_substring p s = true -> PyStr.is_substring p (s ++ t) = true.
Proof.
  induction s as [|a s IH]; simpl; intros H.
  - rewrite orb_false_r in H. destruct p; [|discriminate].
    destruct t; reflexivity.
  - apply orb_true_iff. apply orb_true_iff in H as [H|H].
    + left. exact (is_prefix_app_r p (String a s) t H).
    + right. exact (IH H).
Qed.

Lemma is_substring_self_app (p t : string) : PyStr.is_substring p (p ++ t) = true.
Proof. apply is_substring_prefix, is_prefix_refl_app. Qed.

Lemma is_substring_refl (p : string) : PyStr.is_substring p p = true.
Proof.
  apply is_substring_prefix. induction p as [|a p IH]; simpl; [reflexivity|].
  rewrite Ascii.eqb_refl. exact IH.
Qed.

(** Every part occurs in the joined text. *)
Lemma is_substring_join (sep p : string) (parts : list string) :
  In p parts -> PyStr.is_substring p (PyStr.join sep parts) = true.
Proof.
  induction parts as [|q parts IH]; intros Hin; [destruct Hin|].
  destruct Hin as [->|Hin].
  - destruct parts; simpl PyStr.join.
    + apply is_substring_refl.
    + apply is_substring_self_app.
  - destruct parts as [|q' parts]; [destruct Hin|].
    change (PyStr.join sep (q :: q' :: parts))
      with (q ++ sep ++ PyStr.join sep (q' :: parts)).
    apply is_substring_app_l, is_substring_app_l, IH, Hin.
Qed.

End StringFacts.

(** ** The resolver under [fail] *)

(** C1. For every payload and every non-empty list of gaps, the resolver
    under policy "fail" raises one [ValueError]; its message is the fixed
    heading followed by the paths of all the gaps joined by "; ", so every
    gap's path occurs in it; the payload (and the console) is as it was: no
    gap is resolved and nothing is written before the error. *)
Theorem resolve_missing_fail_raises
  (payload : dict) (con : console) (missing : list MissingField) :
  missing <> [] ->
  exists msg : string,
    resolve_missing missing "fail" (payload, con) = ((payload, con), Err (ValueError msg))
    /\ msg = "Faltan datos críticos: " ++ PyStr.join "; " (map path missing)
    /\ Forall (fun m => PyStr.is_substring (path m) msg = true) missing.
Proof.
  intros Hne. eexists. split; [|split; [reflexivity|]].
  - destruct missing as [|m rest]; [congruence|]. reflexivity.
  - apply Forall_forall. intros m Hin. apply list_elem_of_In in Hin.
    apply is_substring_app_l, is_substring_join, in_map, Hin.
Qed.

Lemma resolve_missing_fail_raises_witness :
  exists msg : string,
    resolve_missing [gap_nif; gap_regime] "fail" ([], mkConsole [] [])
    = (([], mkConsole [] []), Err (ValueError msg))
    /\ msg = "Faltan datos críticos: " ++ PyStr.join "; " (map path [gap_nif; gap_regime])
    /\ Forall (fun m => PyStr.is_substring (path m) msg = true) [gap_nif; gap_regime].
Proof.
  apply (resolve_missing_fail_raises [] (mkConsole [] []) [gap_nif; gap_regime]).
  discriminate.
Defined.

(** ** The resolver loop *)

Section LoopFacts.

Lemma resolve_loop_app (policy : string) (l1 l2 : list MissingField)
  (w : list string) (s : dict * console) :
  resolve_loop policy (l1 ++ l2) w s
  = match resolve_loop policy l1 w s with
    | (s', Ok w') => resolve_loop policy l2 w' s'
    | (s', Err e) => (s', Err e)
    end.
Proof.
  revert w s. induction l1 as [|m l1 IH]; intros w s; [reflexivity|].
  simpl. unfold bind.
  destruct (on_snd (choose_value policy m w) s) as [s1 [vw|e]]; [|reflexivity].
  destruct (on_fst (apply_value m (fst vw)) s1) as [s2 [[]|e]]; [|reflexivity].
  apply IH.
Qed.

Lemma resolve_missing_loop (policy : string) (missing : list MissingField)
  (s : dict * console) :
  String.eqb policy "fail" = false ->
  resolve_missing missing policy s = resolve_loop policy missing [] s.
Proof. intros H. destruct missing; simpl; [reflexivity|]. rewrite H. reflexivity. Qed.

End LoopFacts.

(** ** Enum rejection *)

(** C7. When the resolver under "ask" comes to the gap of
    [region_config.irpf_regime] (the gaps before it resolved, whatever the
    payload) and reads the line BOGUS, it raises a [ValueError] whose
    message quotes BOGUS and lists AEAT, FORAL_NAVARRA and FORAL_PV; the
    payload is the one the earlier gaps left. *)
Theorem ask_bogus_regime_rejected
  (before after : list MissingField) (s s1 : dict * console) (w1 : list string)
  (line : string) (lines : list string) :
  resolve_loop "ask" before [] s = (s1, Ok w1) ->
  stdin (snd s1) = line :: lines ->
  PyStr.strip line = "BOGUS" ->
  exists c2 : console,
    resolve_missing (before ++ gap_regime :: after) "ask" s
    = ((fst s1, c2), Err (ValueError bogus_message))
    /\ stdin c2 = lines
    /\ PyStr.is_substring "'BOGUS'" bogus_message = true
    /\ Forall (fun v => PyStr.is_substring v bogus_message = true)
         ["AEAT"; "FORAL_NAVARRA"; "FORAL_PV"].
Proof.
  intros Hpre Hin Hline.
  rewrite resolve_missing_loop by reflexivity.
  rewrite resolve_loop_app, Hpre.
  destruct s1 as [d [inp out]]. simpl in Hin. subst inp.
  eexists. split; [|split; [|split]].
  - cbn [resolve_loop]. unfold bind, on_snd, choose_value.
    cbn [String.eqb Ascii.eqb Bool.eqb snd fst andb type gap_regime enum enum_truthy
         enum_list question hint].
    unfold bind, input. cbn [stdin stdout]. rewrite Hline.
    reflexivity.
  - reflexivity.
  - vm_compute. reflexivity.
  - repeat constructor.
Qed.

Lemma ask_bogus_regime_rejected_witness :
  exists c2 : console,
    resolve_missing ([gap_nif] ++ gap_regime :: []) "ask"
      ([], mkConsole ["12345678Z"; "BOGUS"] [])
    = ((fst ([("worker", JDict [("nif", JStr "12345678Z")])],
             mkConsole ["BOGUS"]
               ["NIF del trabajador (formato 12345678Z). Déjalo vacío si no aplica: [No afecta al cálculo pero sí a trazabilidad.]"
                ++ newline ++ "> "]), c2),
       Err (ValueError bogus_message))
    /\ stdin c2 = []
    /\ PyStr.is_substring "'BOGUS'" bogus_message = true
    /\ Forall (fun v => PyStr.is_substring v bogus_message = true)
         ["AEAT"; "FORAL_NAVARRA"; "FORAL_PV"].
Proof.
  apply (ask_bogus_regime_rejected [gap_nif] [] _ _ [] "BOGUS" []); reflexivity.
Defined.

(** ** Dictionaries *)

Section DictFacts.

Lemma dict_get_set_eq (k : string) (v : json) (d : dict) :
  dict_get k (dict_set k v d) = Some v.
Proof.
  induction d as [|[k' v'] d IH]; simpl.
  - rewrite String.eqb_refl. reflexivity.
  - destruct (String.eqb k k') eqn:E; simpl; rewrite E; [reflexivity|exact IH].
Qed.

Lemma dict_get_set_ne (k k' : string) (v : json) (d : dict) :
  k <> k' -> dict_get k (dict_set k' v d) = dict_get k d.
Proof.
  intros Hne. induction d as [|[k2 v2] d IH]; simpl.
  - apply String.eqb_neq in Hne. rewrite Hne. reflexivity.
  - destruct (String.eqb k' k2) eqn:E; simpl.
    + apply String.eqb_eq in E. subst k2.
      apply String.eqb_neq in Hne. rewrite Hne. reflexivity.
    + destruct (String.eqb k k2); [reflexivity|exact IH].
Qed.

Lemma dict_get_set (k k' : string) (v : json) (d : dict) :
  dict_get k (dict_set k' v d)
  = if String.eqb k k' then Some v else dict_get k d.
Proof.
  destruct (String.eqb k k') eqn:E.
  - apply String.eqb_eq in E. subst. apply dict_get_set_eq.
  - apply String.eqb_neq in E. apply dict_get_set_ne, E.
Qed.

(** Assigning to a key the value it holds changes nothing. *)
Lemma dict_set_same (k : string) (v : json) (d : dict) :
  dict_get k d = Some v -> dict_set k v d = d.
Proof.
  induction d as [|[k' v'] d IH]; simpl; [discriminate|].
  destruct (String.eqb k k') eqn:E.
  - intros [= ->]. reflexivity.
  - intros H. rewrite (IH H). reflexivity.
Qed.

Lemma dict_get_or_set (k k' : string) (dflt v : json) (d : dict) :
  dict_get_or k dflt (dict_set k' v d)
  = if String.eqb k k' then v else dict_get_or k dflt d.
Proof.
  unfold dict_get_or. rewrite dict_get_set.
  destruct (String.eqb k k'); reflexivity.
Qed.

Lemma dict_has_set (k k' : string) (v : json) (d : dict) :
  dict_has k (dict_set k' v d) = String.eqb k k' || dict_has k d.
Proof.
  unfold dict_has. rewrite dict_get_set.
  destruct (String.eqb k k'); reflexivity.
Qed.

End DictFacts.

(** ** Generic nested assignment *)

Lemma set_by_path_through_list
  (payload : dict) (k : string) (rest : list string) (l : list json) (value : json) :
  rest <> [] ->
  dict_get k payload = Some (JList l) ->
  _set_by_path payload (k :: rest) value = (payload, Err TypeError).
Proof.
  intros Hrest Hk. destruct rest as [|p rest]; [congruence|].
  simpl. rewrite Hk. reflexivity.
Qed.

(** C10. The nested assignment is not total.  Whenever the first segment of
    a gap's path is bound in the payload to a list, [_set_by_path] keeps
    the list and raises a [TypeError] without writing anything, and the
    resolver under "default" lets that error through with the payload as
    it was. *)
Theorem resolve_missing_list_intermediate
  (payload : dict) (con : console) (m : MissingField)
  (k : string) (rest : list string) (l : list json) :
  String.eqb (path m) "compensation.plus_convenio_amount" = false ->
  PyStr.split_char "." (path m) = k :: rest ->
  rest <> [] ->
  dict_get k payload = Some (JList l) ->
  _set_by_path payload (PyStr.split_char "." (path m)) (default m)
  = (payload, Err TypeError)
  /\ resolve_missing [m] "default" (payload, con) = ((payload, con), Err TypeError).
Proof.
  intros Hplus Hsplit Hrest Hk.
  assert (Hset : _set_by_path payload (PyStr.split_char "." (path m)) (default m)
                 = (payload, Err TypeError)).
  { rewrite Hsplit. eapply set_by_path_through_list; eauto. }
  split; [exact Hset|].
  cbn [resolve_missing String.eqb Ascii.eqb Bool.eqb resolve_loop].
  unfold bind, on_snd, on_fst, choose_value, apply_value.
  cbn [String.eqb Ascii.eqb Bool.eqb ret fst snd].
  rewrite Hplus, Hset. reflexivity.
Qed.

Lemma resolve_missing_list_intermediate_witness :
  _set_by_path [("worker", JList [])] (PyStr.split_char "." (path gap_nif)) (default gap_nif)
  = ([("worker", JList [])], Err TypeError)
  /\ resolve_missing [gap_nif] "default" ([("worker", JList [])], mkConsole [] [])
     = (([("worker", JList [])], mkConsole [] []), Err TypeError).
Proof.
  apply (resolve_missing_list_intermediate
           [("worker", JList [])] (mkConsole [] []) gap_nif "worker" ["nif"] []);
    [reflexivity | reflexivity | discriminate | reflexivity].
Defined.

(** ** Region enrichment *)

Section Enrichment.

(** Without a region identifier the document comes back as it is. *)
Lemma enrich_no_identifier (payload : dict) (rc0 ccaa : json) :
  dict_get_or "region_config" (JDict []) payload = rc0 ->
  py_get rc0 "ccaa" JNull = Ok ccaa ->
  truthy ccaa = false ->
  enrich_region_config payload = Ok payload.
Proof.
  intros H0 H1 H2. unfold enrich_region_config. simpl.
  rewrite H0, H1. simpl. rewrite H2. reflexivity.
Qed.

(** With a regime tag in place the third step writes nothing: the result
    is the document with [notes] defaulted in its [region_config]. *)
Lemma enrich_with_regime (payload rc : dict) (ccaa tag : json) :
  dict_get "region_config" payload = Some (JDict rc) ->
  dict_get_or "ccaa" JNull rc = ccaa ->
  truthy ccaa = true ->
  dict_get "irpf_regime" rc = Some tag ->
  enrich_region_config payload
  = Ok (dict_set "region_config"
          (JDict (fst (dict_setdefault "notes" (JStr EmptyString) rc))) payload).
Proof.
  intros Hrc Hccaa Ht Htag. unfold enrich_region_config. simpl.
  unfold dict_get_or at 1. rewrite Hrc. simpl. rewrite Hccaa, Ht. simpl.
  unfold dict_setdefault at 1. rewrite Hrc.
  unfold dict_setdefault. destruct (dict_get "notes" rc) eqn:Hn.
  - unfold dict_has. rewrite Htag. reflexivity.
  - unfold dict_has. rewrite dict_get_set_ne by discriminate.
    rewrite Htag. reflexivity.
Qed.

(** Every entry of the table holds a regime tag. *)
Lemma region_map_entry (c : string) (entry : json) :
  dict_get c CCAA_REGION_MAP = Some entry -> exists t : string, entry = regime t.
Proof.
  unfold CCAA_REGION_MAP. simpl.
  repeat (destruct (String.eqb c _); [intros [= <-]; eexists; reflexivity|]).
  discriminate.
Qed.

Lemma enrich_with_identifier (payload rc : dict) (c : string) :
  dict_get "region_config" payload = Some (JDict rc) ->
  dict_get "ccaa" rc = Some (JStr c) ->
  c <> EmptyString ->
  enrich_region_config payload
  = Ok (dict_set "region_config" (JDict (enriched_rc c rc)) payload).
Proof.
  intros Hrc Hccaa Hc.
  assert (H0 : dict_get_or "region_config" (JDict []) payload = JDict rc)
    by (unfold dict_get_or; rewrite Hrc; reflexivity).
  assert (H1 : dict_get_or "ccaa" JNull rc = JStr c)
    by (unfold dict_get_or; rewrite Hccaa; reflexivity).
  assert (H2 : truthy (JStr c) = true).
  { simpl. destruct (String.eqb c EmptyString) eqn:Ec; [|reflexivity].
    apply String.eqb_eq in Ec. contradiction. }
  unfold enrich_region_config, enriched_rc. cbv zeta.
  cbn [bind_result]. rewrite H0. cbn [py_get]. rewrite H1. cbn [bind_result].
  rewrite H2. cbn [negb].
  unfold dict_setdefault at 1. rewrite Hrc.
  destruct (dict_setdefault "notes" (JStr EmptyString) rc) as [rc1 u].
  cbn [fst].
  destruct (dict_has "irpf_regime" rc1); cbn [negb bind_result]; [reflexivity|].
  cbn [py_in_dict]. unfold dict_has.
  destruct (dict_get c CCAA_REGION_MAP) as [entry|] eqn:Hentry;
    cbn [bind_result py_getitem]; [|reflexivity].
  rewrite Hentry. cbn [bind_result].
  destruct (region_map_entry c entry Hentry) as [t ->]. reflexivity.
Qed.

Lemma enriched_rc_notes (c : string) (rc : dict) :
  dict_get "notes" (enriched_rc c rc)
  = Some (dict_get_or "notes" (JStr EmptyString) rc).
Proof.
  assert (H : dict_get "notes" (fst (dict_setdefault "notes" (JStr EmptyString) rc))
              = Some (dict_get_or "notes" (JStr EmptyString) rc)).
  { unfold dict_setdefault, dict_get_or.
    destruct (dict_get "notes" rc) eqn:Hn; simpl; [exact Hn|apply dict_get_set_eq]. }
  unfold enriched_rc. cbv zeta.
  destruct (dict_has "irpf_regime" _); [exact H|].
  destruct (dict_get c CCAA_REGION_MAP) as [[| | | | | |e]|]; try exact H.
  destruct (dict_get "irpf_regime" e); [|exact H].
  rewrite dict_get_set_ne by discriminate. exact H.
Qed.

End Enrichment.

(** C9. When [region_config.irpf_regime] is set in the document, enrichment
    returns a document with the same tag.  An enriched document that has a
    tag is such a document, so enriching it again leaves the tag alone. *)
Theorem enrich_keeps_regime (payload : dict) (tag : json) :
  regime_tag payload = Some tag ->
  exists data : dict,
    enrich_region_config payload = Ok data /\ regime_tag data = Some tag.
Proof.
  unfold regime_tag. intros H.
  destruct (dict_get "region_config" payload) as [[| | | | | |rc]|] eqn:Hrc;
    try discriminate.
  destruct (truthy (dict_get_or "ccaa" JNull rc)) eqn:Ht.
  - eexists. split; [eapply enrich_with_regime; eauto|].
    rewrite dict_get_set_eq. unfold dict_setdefault.
    destruct (dict_get "notes" rc); simpl; [exact H|].
    rewrite dict_get_set_ne by discriminate. exact H.
  - exists payload. split.
    + eapply enrich_no_identifier; [| |exact Ht].
      * unfold dict_get_or. rewrite Hrc. reflexivity.
      * reflexivity.
    + rewrite Hrc. exact H.
Qed.

Lemma enrich_keeps_regime_witness :
  exists data : dict,
    enrich_region_config
      [("region_config", JDict [("ccaa", JStr "País Vasco"); ("irpf_regime", JStr "AEAT")])]
    = Ok data
    /\ regime_tag data = Some (JStr "AEAT").
Proof.
  apply (enrich_keeps_regime
           [("region_config", JDict [("ccaa", JStr "País Vasco"); ("irpf_regime", JStr "AEAT")])]
           (JStr "AEAT")).
  reflexivity.
Defined.

(** The end-to-end scenario of the specification. *)
Example enrich_pais_vasco :
  enrich_region_config [("region_config", JDict [("ccaa", JStr "País Vasco")])]
  = Ok [("region_config",
         JDict [("ccaa", JStr "País Vasco"); ("notes", JStr EmptyString);
                ("irpf_regime", JStr "FORAL_PV")])].
Proof. reflexivity. Qed.

(** C3, as stated, fails: a document with a [region_config] but no [ccaa]
    comes back without [notes]. *)
Lemma notes_not_ensured_without_ccaa :
  ~ notes_ensured [("region_config", JDict [("irpf_regime", JStr "AEAT")])].
Proof.
  intros (data & rc & Hdata & Hrc & Hnotes).
  vm_compute in Hdata. injection Hdata as <-.
  vm_compute in Hrc. injection Hrc as <-.
  vm_compute in Hnotes. discriminate.
Qed.

(** ** Determinism *)

Section Determinism.

Variable policy : string.
Hypothesis not_ask : String.eqb policy "ask" = false.

(** Outside "ask" the loop never touches the console, and what it does to
    the payload does not depend on it. *)
Lemma resolve_loop_console (missing : list MissingField) (w : list string)
  (d : dict) (c c0 : console) :
  resolve_loop policy missing w (d, c)
  = ((fst (fst (resolve_loop policy missing w (d, c0))), c),
     snd (resolve_loop policy missing w (d, c0))).
Proof.
  revert w d. induction missing as [|m rest IH]; intros w d; [reflexivity|].
  cbn [resolve_loop]. unfold bind, on_snd, on_fst, choose_value.
  rewrite not_ask. cbn [ret fst snd].
  destruct (apply_value m (default m) d) as [d' [[]|e]]; [|reflexivity].
  apply IH.
Qed.

Lemma preflight_console (d : dict) (c c0 : console) :
  String.eqb policy "fail" = false ->
  preflight policy (d, c)
  = ((fst (fst (preflight policy (d, c0))), c), snd (preflight policy (d, c0))).
Proof.
  intros not_fail. unfold preflight, bind, on_fst. cbn [fst snd].
  destruct (detect_missing d) as [d1 [missing|e]]; [|reflexivity].
  rewrite !resolve_missing_loop by exact not_fail.
  apply resolve_loop_console.
Qed.

End Determinism.

(** C6. Under policy "default", two runs of the detector followed by the
    resolver on the same document, whatever the console holds in each run,
    end with the same document and the same outcome: the same warnings in
    the same order, or the same exception.  Neither run reads or writes the
    console. *)
Theorem preflight_default_deterministic (payload : dict) (con1 con2 : console) :
  fst (fst (preflight "default" (payload, con1)))
  = fst (fst (preflight "default" (payload, con2)))
  /\ snd (preflight "default" (payload, con1)) = snd (preflight "default" (payload, con2))
  /\ snd (fst (preflight "default" (payload, con1))) = con1
  /\ snd (fst (preflight "default" (payload, con2))) = con2.
Proof.
  pose proof (preflight_console "default" eq_refl payload con1 con2 eq_refl) as H1.
  pose proof (preflight_console "default" eq_refl payload con2 con2 eq_refl) as H2.
  destruct (preflight "default" (payload, con2)) as [[d2 c2] r2].
  cbn [fst snd] in H1, H2. injection H2 as ->.
  rewrite H1. cbn [fst snd]. repeat split.
Qed.

Example preflight_default_run :
  preflight "default" ([("period", JDict [("year", JInt 2025)])], mkConsole ["x"] [])
  = (([("period", JDict [("year", JInt 2025)]);
       ("company", JDict [("atep_tariff_pct", JFloat one_and_a_half)]);
       ("tables", JDict [("cotization_year", JInt 2025); ("irpf_year", JInt 2025)]);
       ("compensation", JDict [("base_salary_cra_code", JStr "C01")]);
       ("worker", JDict [("nif", JStr "NO-INFORMADO")]);
       ("region_config", JDict [("irpf_regime", JStr "AEAT")])],
      mkConsole ["x"] []),
     Ok ["Valor por defecto aplicado en company.atep_tariff_pct: 1.5";
         "Valor por defecto aplicado en tables.cotization_year: 2025";
         "Valor por defecto aplicado en tables.irpf_year: 2025";
         "Valor por defecto aplicado en compensation.base_salary_cra_code: C01";
         "Valor por defecto aplicado en worker.nif: NO-INFORMADO";
         "Valor por defecto aplicado en region_config.irpf_regime: AEAT"]).
Proof. vm_compute. reflexivity. Qed.

(** ** The detector, rule by rule *)

Section DetectorFacts.

Lemma dict_setdefault_get (k : string) (dflt v : json) (d d' : dict) :
  dict_setdefault k dflt d = (d', v) -> dict_get k d' = Some v.
Proof.
  unfold dict_setdefault. destruct (dict_get k d) eqn:E; intros [= <- <-].
  - exact E.
  - apply dict_get_set_eq.
Qed.

Lemma dict_setdefault_present (k : string) (dflt v : json) (d : dict) :
  dict_get k d = Some v -> dict_setdefault k dflt d = (d, v).
Proof. unfold dict_setdefault. intros ->. reflexivity. Qed.

Lemma dict_setdefault_other (k k' : string) (dflt : json) (d : dict) :
  k' <> k -> dict_get k' (fst (dict_setdefault k dflt d)) = dict_get k' d.
Proof.
  intros Hne. unfold dict_setdefault. destruct (dict_get k d); simpl; [reflexivity|].
  apply dict_get_set_ne, Hne.
Qed.

(** What a successful detection says about the payload. *)
Lemma detect_missing_inv (d d1 : dict) (gaps : list MissingField) :
  detect_missing d = (d1, Ok gaps) ->
  exists (a b : bool) (company tables : dict) (period_year : json)
         (no_cra no_nif no_regime : bool),
    has_plus_in "collective_agreement" "allowances" d = Ok a
    /\ has_plus_in "compensation" "variables" d = Ok b
    /\ d1 = probed d
    /\ dict_get "company" (fst (dict_setdefault "company" (JDict []) d))
       = Some (JDict company)
    /\ dict_get "tables" d1 = Some (JDict tables)
    /\ read2 "period" "year" JNull (fst (dict_setdefault "company" (JDict []) d))
       = Ok period_year
    /\ field_unset "compensation" "base_salary_cra_code" d1 = Ok no_cra
    /\ field_unset "worker" "nif" d1 = Ok no_nif
    /\ field_unset "region_config" "irpf_regime" d1 = Ok no_regime
    /\ gaps = gaps_of (a && negb b) (no_tariff company)
                (negb (truthy (dict_get_or "cotization_year" JNull tables)))
                (negb (truthy (dict_get_or "irpf_year" JNull tables)))
                no_cra no_nif no_regime period_year.
Proof.
  unfold detect_missing, bind, lift, get, ret, setdefault_dict, probed, read2.
  destruct (has_plus_in "collective_agreement" "allowances" d) as [a|e]; [|discriminate].
  destruct (has_plus_in "compensation" "variables" d) as [b|e]; [|discriminate].
  destruct (dict_setdefault "company" (JDict []) d) as [da company] eqn:Hco.
  apply dict_setdefault_get in Hco. cbn [fst].
  destruct company as [| | | | | |company]; try discriminate.
  cbn [py_get].
  destruct (negb (truthy (dict_get_or "cnae" JNull company))) eqn:Hcnae;
    (destruct (py_get (dict_get_or "period" (JDict []) da) "year" JNull) as [py|e];
       [|discriminate];
     destruct (dict_setdefault "tables" (JDict []) da) as [db tables] eqn:Hta;
     apply dict_setdefault_get in Hta; cbn [fst];
     destruct tables as [| | | | | |tables]; try discriminate;
     cbn [py_get];
     destruct (field_unset "compensation" "base_salary_cra_code" db) as [b5|e] eqn:H5;
       [|discriminate];
     destruct (field_unset "worker" "nif" db) as [b6|e] eqn:H6; [|discriminate];
     destruct (field_unset "region_config" "irpf_regime" db) as [b7|e] eqn:H7;
       [|discriminate];
     intros [= <- <-];
     exists a, b, company, tables, py, b5, b6, b7;
     unfold no_tariff; rewrite Hcnae; repeat split; assumption).
Qed.

(** The converse on a payload that holds [company] and [tables]. *)
Lemma detect_missing_intro (d company tables : dict) (a b : bool)
  (period_year : json) (no_cra no_nif no_regime : bool) :
  has_plus_in "collective_agreement" "allowances" d = Ok a ->
  has_plus_in "compensation" "variables" d = Ok b ->
  dict_get "company" d = Some (JDict company) ->
  dict_get "tables" d = Some (JDict tables) ->
  read2 "period" "year" JNull d = Ok period_year ->
  field_unset "compensation" "base_salary_cra_code" d = Ok no_cra ->
  field_unset "worker" "nif" d = Ok no_nif ->
  field_unset "region_config" "irpf_regime" d = Ok no_regime ->
  detect_missing d
  = (d, Ok (gaps_of (a && negb b) (no_tariff company)
              (negb (truthy (dict_get_or "cotization_year" JNull tables)))
              (negb (truthy (dict_get_or "irpf_year" JNull tables)))
              no_cra no_nif no_regime period_year)).
Proof.
  intros Ha Hb Hco Hta Hpy H5 H6 H7.
  unfold detect_missing, bind, lift, get, ret, setdefault_dict.
  rewrite Ha, Hb, (dict_setdefault_present _ _ _ _ Hco). cbn [py_get].
  unfold read2 in Hpy. unfold no_tariff.
  destruct (negb (truthy (dict_get_or "cnae" JNull company)));
    rewrite Hpy, (dict_setdefault_present _ _ _ _ Hta); cbn [py_get];
    rewrite H5, H6, H7; reflexivity.
Qed.

End DetectorFacts.

(** ** The detector reports only what is unset *)

Section OnlyUnset.

Lemma Forall_append_if (P : MissingField -> Prop) (b : bool) (m : MissingField)
  (l : list MissingField) :
  Forall P l -> (b = true -> P m) -> Forall P (append_if b m l).
Proof.
  intros Hl Hm. unfold append_if. destruct b; [|exact Hl].
  apply Forall_app. split; [exact Hl|]. constructor; [auto|constructor].
Qed.

Lemma setdefault_cases (k : string) (d : dict) (v : json) :
  dict_get k (fst (dict_setdefault k (JDict []) d)) = Some v ->
  dict_get k d = Some v \/ (dict_get k d = None /\ v = JDict []).
Proof.
  unfold dict_setdefault. destruct (dict_get k d) eqn:E; simpl.
  - rewrite E. auto.
  - rewrite dict_get_set_eq. intros [= <-]. auto.
Qed.

Lemma unset_two (k1 k2 : string) (d : dict) :
  match dict_get k1 d with
  | Some (JDict c) => truthy (dict_get_or k2 JNull c) = false
  | Some _ => False
  | None => True
  end ->
  match get_by_path [k1; k2] (JDict d) with
  | Some v => negb (truthy v)
  | None => true
  end = true.
Proof.
  simpl. destruct (dict_get k1 d) as [[| | | | | |c]|]; try tauto; try reflexivity.
  unfold dict_get_or. destruct (dict_get k2 c); [|reflexivity].
  intros ->. reflexivity.
Qed.

Lemma field_unset_two (k1 k2 : string) (d : dict) :
  field_unset k1 k2 d = Ok true ->
  match dict_get k1 d with
  | Some (JDict c) => truthy (dict_get_or k2 JNull c) = false
  | Some _ => False
  | None => True
  end.
Proof.
  unfold field_unset, dict_get_or at 1.
  destruct (dict_get k1 d) as [[| | | | | |c]|]; simpl; try discriminate; [|tauto].
  intros [= H]. apply negb_true_iff, H.
Qed.

Lemma probed_other (k : string) (d : dict) :
  k <> "company" -> k <> "tables" -> dict_get k (probed d) = dict_get k d.
Proof.
  intros H1 H2. unfold probed.
  rewrite dict_setdefault_other by exact H2.
  apply dict_setdefault_other, H1.
Qed.

Lemma field_unset_probed (k1 k2 : string) (d : dict) :
  k1 <> "company" -> k1 <> "tables" ->
  field_unset k1 k2 (probed d) = field_unset k1 k2 d.
Proof.
  intros H1 H2. unfold field_unset, dict_get_or.
  rewrite probed_other by assumption. reflexivity.
Qed.

End OnlyUnset.

(** ** What a resolution writes *)

Section Writes.

Lemma set_by_path_two (d d' : dict) (k1 k2 : string) (v : json) :
  _set_by_path d [k1; k2] v = (d', Ok tt) -> d' = nest_set k1 k2 v d.
Proof.
  unfold nest_set, sub. simpl.
  destruct (dict_get k1 d) as [[| | | | | |c]|]; intros [= <-]; reflexivity.
Qed.

Lemma set_by_path_two_ok (d : dict) (k1 k2 : string) (v : json) :
  (forall l, dict_get k1 d <> Some (JList l)) ->
  _set_by_path d [k1; k2] v = (nest_set k1 k2 v d, Ok tt).
Proof.
  intros Hl. unfold nest_set, sub. simpl.
  destruct (dict_get k1 d) as [[| | | | |l|c]|]; try reflexivity.
  destruct (Hl l). reflexivity.
Qed.

Lemma apply_value_simple (m : MissingField) (v : json) (d d' : dict)
  (k1 k2 : string) :
  is_plus_path m = false ->
  key_of m = Some (k1, k2) ->
  apply_value m v d = (d', Ok tt) ->
  d' = nest_set k1 k2 v d.
Proof.
  unfold is_plus_path, key_of, apply_value. intros -> Hk.
  destruct (PyStr.split_char "." (path m)) as [|a [|b [|c l]]]; try discriminate.
  injection Hk as -> ->. apply set_by_path_two.
Qed.

Lemma read2_nest_set_same (k1 k2 : string) (dflt v : json) (d : dict) :
  read2 k1 k2 dflt (nest_set k1 k2 v d) = Ok v.
Proof.
  unfold read2, nest_set. rewrite dict_get_or_set, String.eqb_refl. simpl.
  rewrite dict_get_or_set, String.eqb_refl. reflexivity.
Qed.

Lemma read2_nest_set_other (k1 k2 x y : string) (dflt v r : json) (d : dict) :
  (k1, k2) <> (x, y) ->
  read2 k1 k2 dflt d = Ok r ->
  read2 k1 k2 dflt (nest_set x y v d) = Ok r.
Proof.
  intros Hne. unfold read2, nest_set, sub. rewrite dict_get_or_set.
  destruct (String.eqb k1 x) eqn:E1.
  - apply String.eqb_eq in E1. subst x. unfold dict_get_or at 1.
    assert (E2 : String.eqb k2 y = false).
    { apply String.eqb_neq. congruence. }
    destruct (dict_get k1 d) as [[| | | | | |c]|]; cbn [py_get]; try discriminate;
      rewrite dict_get_or_set, E2; auto.
  - auto.
Qed.

Lemma is_dict_at_nest_set (k x y : string) (v : json) (d : dict) :
  is_dict_at k d -> is_dict_at k (nest_set x y v d).
Proof.
  intros [c Hc]. unfold is_dict_at, nest_set. rewrite dict_get_set.
  destruct (String.eqb k x); eauto.
Qed.

Lemma read2_at_dict (k1 k2 : string) (dflt : json) (d c : dict) :
  dict_get k1 d = Some (JDict c) ->
  read2 k1 k2 dflt d = Ok (dict_get_or k2 dflt c).
Proof. intros H. unfold read2, dict_get_or at 1. rewrite H. reflexivity. Qed.

(** A read of a field that none of the gaps names goes through. *)
Lemma apply_values_read_other (k1 k2 : string) (dflt r : json)
  (gvs : list (MissingField * json)) (d d' : dict) :
  Forall (fun mv => simple_gap (fst mv)) gvs ->
  Forall (fun mv => key_of (fst mv) <> Some (k1, k2)) gvs ->
  apply_values gvs d = (d', Ok tt) ->
  read2 k1 k2 dflt d = Ok r ->
  read2 k1 k2 dflt d' = Ok r.
Proof.
  revert d. induction gvs as [|[m v] gvs IH]; intros d Hs Hk Ha Hr.
  - injection Ha as <-. exact Hr.
  - inversion Hs as [|? ? [Hp (x & y & Hxy)] Hs']; subst.
    inversion Hk as [|? ? Hne Hk']; subst. cbn [fst] in Hne, Hp, Hxy.
    cbn [apply_values] in Ha. unfold bind in Ha.
    destruct (apply_value m v d) as [d0 [[]|e]] eqn:Hav; [|discriminate].
    apply (apply_value_simple _ _ _ _ x y Hp Hxy) in Hav. subst d0.
    apply (IH _ Hs' Hk' Ha).
    apply read2_nest_set_other; [|exact Hr].
    intros [= -> ->]. exact (Hne Hxy).
Qed.

(** A read of the field a gap names gives the value applied for it, when
    no other gap names that field. *)
Lemma apply_values_read_written (k1 k2 : string) (dflt v : json)
  (m : MissingField) (gvs : list (MissingField * json)) (d d' : dict) :
  Forall (fun mv => simple_gap (fst mv)) gvs ->
  NoDup ((fun mv => key_of (fst mv)) <$> gvs) ->
  In (m, v) gvs ->
  key_of m = Some (k1, k2) ->
  apply_values gvs d = (d', Ok tt) ->
  read2 k1 k2 dflt d' = Ok v.
Proof.
  revert d. induction gvs as [|[m0 v0] gvs IH]; intros d Hs Hnd Hin Hk Ha;
    [destruct Hin|].
  inversion Hs as [|? ? [Hp (x & y & Hxy)] Hs']; subst.
  rewrite fmap_cons in Hnd. apply NoDup_cons in Hnd as [Hnotin Hnd].
  cbn [fst] in Hp, Hxy, Hnotin.
  cbn [apply_values] in Ha. unfold bind in Ha.
  destruct (apply_value m0 v0 d) as [d0 [[]|e]] eqn:Hav; [|discriminate].
  apply (apply_value_simple _ _ _ _ x y Hp Hxy) in Hav. subst d0.
  destruct Hin as [[= -> ->]|Hin].
  - rewrite Hk in Hxy. injection Hxy as <- <-.
    apply (apply_values_read_other k1 k2 dflt v gvs (nest_set k1 k2 v d) d' Hs');
      [|exact Ha|apply read2_nest_set_same].
    apply Forall_forall. intros [m' v'] Hin' Heq. cbn [fst] in Heq.
    apply Hnotin. rewrite Hk, <- Heq.
    apply list_elem_of_fmap. exists (m', v'). split; [reflexivity|exact Hin'].
  - apply (IH _ Hs' Hnd Hin Hk Ha).
Qed.

Lemma apply_values_is_dict (k : string) (gvs : list (MissingField * json))
  (d d' : dict) :
  Forall (fun mv => simple_gap (fst mv)) gvs ->
  apply_values gvs d = (d', Ok tt) ->
  is_dict_at k d -> is_dict_at k d'.
Proof.
  revert d. induction gvs as [|[m v] gvs IH]; intros d Hs Ha Hd.
  - injection Ha as <-. exact Hd.
  - inversion Hs as [|? ? [Hp (x & y & Hxy)] Hs']; subst. cbn [fst] in Hp, Hxy.
    cbn [apply_values] in Ha. unfold bind in Ha.
    destruct (apply_value m v d) as [d0 [[]|e]] eqn:Hav; [|discriminate].
    apply (apply_value_simple _ _ _ _ x y Hp Hxy) in Hav. subst d0.
    apply (IH _ Hs' Ha), is_dict_at_nest_set, Hd.
Qed.

Lemma apply_values_app (l1 l2 : list (MissingField * json)) (d : dict) :
  apply_values (l1 ++ l2) d
  = match apply_values l1 d with
    | (d', Ok _) => apply_values l2 d'
    | (d', Err e) => (d', Err e)
    end.
Proof.
  revert d. induction l1 as [|[m v] l1 IH]; intros d; [reflexivity|].
  simpl. unfold bind. destruct (apply_value m v d) as [d0 [[]|e]]; [apply IH|reflexivity].
Qed.

End Writes.

(** ** The allowance special case *)

Section PlusConvenio.

Lemma dict_set_set (k : string) (v v' : json) (d : dict) :
  dict_set k v (dict_set k v' d) = dict_set k v d.
Proof.
  induction d as [|[k0 v0] d IH]; simpl.
  - rewrite String.eqb_refl. reflexivity.
  - destruct (String.eqb k k0) eqn:E; simpl; rewrite E; [reflexivity|].
    rewrite IH. reflexivity.
Qed.

Lemma find_none_of_any (l : list json) (i : nat) :
  any_plus_convenio l = Ok false -> find_plus_convenio l i = Ok None.
Proof.
  revert i. induction l as [|x l IH]; intros i; [reflexivity|].
  simpl. destruct (is_plus_convenio x) as [[]|e]; simpl; try discriminate.
  apply IH.
Qed.

Lemma any_plus_app_found (l : list json) (x : json) :
  any_plus_convenio l = Ok false ->
  is_plus_convenio x = Ok true ->
  any_plus_convenio (l ++ [x]) = Ok true.
Proof.
  intros Hl Hx. induction l as [|y l IH]; simpl.
  - rewrite Hx. reflexivity.
  - simpl in Hl. destruct (is_plus_convenio y) as [[]|e]; simpl in *;
      try discriminate. apply IH, Hl.
Qed.

Lemma has_plus_in_read2 (k1 k2 : string) (d : dict) :
  has_plus_in k1 k2 d
  = (items <- read2 k1 k2 (JList []) d ;; l <- py_iter items ;; any_plus_convenio l)%py.
Proof. reflexivity. Qed.

(** The special case on a payload whose variable-pay entries are the list
    [l], with no item named Plus Convenio: a new item goes to the end, and
    is there without its amount when the amount cannot be computed. *)
Lemma set_plus_convenio_list (value : json) (l : list json) (d : dict) :
  read2 "compensation" "variables" (JList []) d = Ok (JList l) ->
  any_plus_convenio l = Ok false ->
  set_plus_convenio value d
  = match amount_of value with
    | Ok a =>
        (nest_set "compensation" "variables" (JList (l ++ [plus_convenio_item a])) d,
         Ok tt)
    | Err e =>
        (nest_set "compensation" "variables" (JList (l ++ [JDict new_plus_convenio])) d,
         Err e)
    end.
Proof.
  intros Hr Hany.
  unfold set_plus_convenio, put_plus_amount, bind, setdefault_dict, lift,
    store_compensation, append_plus_convenio, store_variables, store_compensation,
    bind, lift, nest_set, sub, read2, dict_get_or, dict_setdefault in *.
  destruct (dict_get "compensation" d) as [[| | | | | |comp]|] eqn:Hc;
    try discriminate.
  - cbn [py_get] in Hr. unfold dict_get_or in Hr. cbn [fst snd].
    destruct (dict_get "variables" comp) as [vars_|] eqn:Hv.
    + injection Hr as ->. cbn [py_iter].
      rewrite (find_none_of_any l 0 Hany).
      destruct (amount_of value); rewrite !dict_set_set; reflexivity.
    + injection Hr as <-. cbn [py_iter find_plus_convenio app].
      destruct (amount_of value); rewrite !dict_set_set; reflexivity.
  - cbn [py_get dict_get] in Hr. injection Hr as <-.
    cbn [dict_get fst snd py_iter find_plus_convenio app].
    destruct (amount_of value); rewrite !dict_set_set; reflexivity.
Qed.

Lemma set_plus_convenio_appends (value a : json) (l : list json) (d : dict) :
  read2 "compensation" "variables" (JList []) d = Ok (JList l) ->
  any_plus_convenio l = Ok false ->
  amount_of value = Ok a ->
  set_plus_convenio value d
  = (nest_set "compensation" "variables" (JList (l ++ [plus_convenio_item a])) d,
     Ok tt).
Proof.
  intros Hr Hany Ham. rewrite (set_plus_convenio_list value l d Hr Hany), Ham.
  reflexivity.
Qed.

(** Entries that are not a list (an empty dictionary or an empty text
    pass the scan of the detector) have no [append]. *)
Lemma put_plus_amount_not_list (comp : dict) (vars_ value : json) (d : dict) :
  (forall l, vars_ <> JList l) ->
  snd (put_plus_amount comp vars_ value d) <> Ok tt.
Proof.
  intros Hnl. unfold put_plus_amount, bind, lift, append_plus_convenio.
  destruct vars_ as [| | | |s|l|kvs]; cbn [py_iter snd]; try discriminate.
  - destruct (PyStr.chars s) as [|ch chs]; cbn; discriminate.
  - destruct (Hnl l eq_refl).
  - destruct kvs as [|[k v] kvs]; cbn; discriminate.
Qed.

Lemma set_plus_convenio_not_list (value items : json) (d : dict) :
  read2 "compensation" "variables" (JList []) d = Ok items ->
  (forall l, items <> JList l) ->
  snd (set_plus_convenio value d) <> Ok tt.
Proof.
  intros Hr Hnl.
  unfold set_plus_convenio, bind, setdefault_dict, store_compensation,
    read2, dict_get_or, dict_setdefault in *.
  destruct (dict_get "compensation" d) as [[| | | | | |comp]|] eqn:Hc;
    try discriminate.
  - cbn [py_get] in Hr. unfold dict_get_or in Hr. cbn [fst snd].
    destruct (dict_get "variables" comp) as [vars_|] eqn:Hv.
    + injection Hr as ->. apply put_plus_amount_not_list, Hnl.
    + injection Hr as <-. destruct (Hnl [] eq_refl).
  - cbn [py_get dict_get] in Hr. injection Hr as <-. destruct (Hnl [] eq_refl).
Qed.

Lemma gaps_of_plus (b2 b3 b4 b5 b6 b7 : bool) (py : json) :
  gaps_of true b2 b3 b4 b5 b6 b7 py
  = gap_plus_convenio :: gaps_of false b2 b3 b4 b5 b6 b7 py.
Proof. destruct b2, b3, b4, b5, b6, b7; reflexivity. Qed.

Lemma gaps_of_not_plus (b2 b3 b4 b5 b6 b7 : bool) (py : json) :
  Forall (fun g => is_plus_path g = false) (gaps_of false b2 b3 b4 b5 b6 b7 py).
Proof.
  unfold gaps_of.
  repeat apply Forall_append_if; [constructor|..]; intros H;
    try discriminate H; reflexivity.
Qed.

End PlusConvenio.

(** ** Detection after resolution *)

Section LoopValues.

Lemma choose_value_from_nil (policy : string) (m : MissingField)
  (w : list string) (c : console) :
  choose_value policy m w c
  = match choose_value policy m [] c with
    | (c', Ok (v, w0)) => (c', Ok (v, (w ++ w0)%list))
    | (c', Err e) => (c', Err e)
    end.
Proof.
  unfold choose_value. cbv zeta.
  destruct (String.eqb policy "ask"); [|reflexivity].
  unfold bind, input. destruct (stdin c) as [|line rest]; [reflexivity|].
  destruct (String.eqb (PyStr.strip line) EmptyString && is_not_none (default m));
    [reflexivity|].
  destruct (String.eqb (PyStr.strip line) EmptyString); [reflexivity|].
  unfold lift, ret. destruct (_parse_input (PyStr.strip line) m); [|reflexivity].
  rewrite app_nil_r. reflexivity.
Qed.

(** A run of the loop that returns has applied, gap by gap, the values
    [chosen_values] lists. *)
Lemma resolve_loop_values (policy : string) (missing : list MissingField)
  (w w' : list string) (d d' : dict) (c c' : console) :
  resolve_loop policy missing w (d, c) = ((d', c'), Ok w') ->
  length (chosen_values policy missing c) = length missing
  /\ apply_values (zip missing (chosen_values policy missing c)) d = (d', Ok tt).
Proof.
  revert w d c. induction missing as [|m rest IH]; intros w d c H.
  - injection H as <- _ _. split; reflexivity.
  - cbn [resolve_loop] in H. unfold bind, on_snd, on_fst in H. cbn [fst snd] in H.
    rewrite choose_value_from_nil in H. cbn [chosen_values].
    destruct (choose_value policy m [] c) as [c1 [[v w0]|e]]; [|discriminate].
    cbn [fst snd] in H.
    destruct (apply_value m v d) as [d1 [[]|e]] eqn:Hav; [|discriminate].
    apply IH in H as [Hlen Happ]. split; [simpl; congruence|].
    cbn [zip zip_with apply_values]. unfold bind. rewrite Hav. exact Happ.
Qed.

Lemma chosen_values_default (policy : string) (missing : list MissingField)
  (c : console) :
  String.eqb policy "ask" = false ->
  chosen_values policy missing c = map default missing.
Proof.
  intros Hp. induction missing as [|m rest IH]; [reflexivity|].
  cbn [chosen_values map]. unfold choose_value. rewrite Hp. cbn [ret].
  rewrite IH. reflexivity.
Qed.

End LoopValues.

Section ZipFacts.

Context {A B : Type}.

Lemma Forall_zip_fst (P : A -> Prop) (l : list A) (k : list B) :
  Forall P l -> Forall (fun xy => P (fst xy)) (zip l k).
Proof.
  intros H. revert k. induction H as [|x l Hx Hl IH]; intros k; [constructor|].
  destruct k as [|y k]; [constructor|]. constructor; [exact Hx|apply IH].
Qed.

Lemma Forall2_zip_in (R : A -> B -> Prop) (l : list A) (k : list B) (x : A) :
  Forall2 R l k -> In x l -> exists y, In (x, y) (zip l k) /\ R x y.
Proof.
  induction 1 as [|a b l k Hab Hlk IH]; intros Hin; [destruct Hin|].
  destruct Hin as [->|Hin].
  - exists b. split; [left; reflexivity|exact Hab].
  - destruct (IH Hin) as (y & Hy & Hr). exists y. split; [right; exact Hy|exact Hr].
Qed.

Lemma zip_fst_in (l : list A) (k : list B) (x : A) (y : B) :
  In (x, y) (zip l k) -> In x l.
Proof.
  revert k. induction l as [|a l IH]; intros k Hin; [destruct Hin|].
  destruct k as [|b k]; [destruct Hin|].
  destruct Hin as [[= -> ->]|Hin]; [left; reflexivity|right; eapply IH, Hin].
Qed.

End ZipFacts.

Section Redetect.

Variables (b2 b3 b4 b5 b6 b7 : bool) (py : json).
Variables (others : list MissingField) (vs : list json) (e d2 : dict).
Hypothesis others_eq : others = gaps_of false b2 b3 b4 b5 b6 b7 py.
Hypothesis values_settle : Forall2 settles others vs.
Hypothesis applied : apply_values (zip others vs) e = (d2, Ok tt).

Lemma in_append_if (g m : MissingField) (b : bool) (l : list MissingField) :
  In g (append_if b m l) -> In g l \/ (b = true /\ g = m).
Proof.
  unfold append_if. destruct b; [|auto].
  intros H. apply in_app_or in H as [H|[<-|[]]]; auto.
Qed.

Lemma in_others (g : MissingField) :
  In g others ->
  (b2 = true /\ g = gap_atep)
  \/ (b3 = true /\ g = gap_cotization_year py)
  \/ (b4 = true /\ g = gap_irpf_year py)
  \/ (b5 = true /\ g = gap_cra)
  \/ (b6 = true /\ g = gap_nif)
  \/ (b7 = true /\ g = gap_regime).
Proof.
  rewrite others_eq. unfold gaps_of. intros H.
  repeat (apply in_append_if in H as [H|H]; [|tauto]).
  destruct H.
Qed.

Lemma others_simple : Forall simple_gap others.
Proof.
  rewrite others_eq. unfold gaps_of.
  repeat apply Forall_append_if; [constructor|..]; intros H;
    try discriminate H; (split; [reflexivity|eexists _, _; reflexivity]).
Qed.

Lemma others_nodup : NoDup (key_of <$> others).
Proof.
  rewrite others_eq.
  destruct b2, b3, b4, b5, b6, b7; cbn;
    apply (bool_decide_unpack _); vm_compute; exact I.
Qed.

Lemma zipped_simple : Forall (fun mv => simple_gap (fst mv)) (zip others vs).
Proof. apply Forall_zip_fst, others_simple. Qed.

(** A field that is not the target of a gap reads as before. *)
Lemma read_other (k1 k2 : string) (dflt r : json) :
  (forall g, In g others -> key_of g <> Some (k1, k2)) ->
  read2 k1 k2 dflt e = Ok r ->
  read2 k1 k2 dflt d2 = Ok r.
Proof.
  intros Hk. apply (apply_values_read_other k1 k2 dflt r _ e d2 zipped_simple);
    [|exact applied].
  apply Forall_forall. intros [m v] Hin. apply list_elem_of_In, zip_fst_in in Hin.
  apply Hk, Hin.
Qed.

(** The target of a gap reads as a true value. *)
Lemma read_written (g : MissingField) (k1 k2 : string) :
  In g others ->
  key_of g = Some (k1, k2) ->
  exists v, read2 k1 k2 JNull d2 = Ok v /\ truthy v = true.
Proof.
  intros Hin Hk.
  destruct (Forall2_zip_in settles others vs g values_settle Hin) as (v & Hv & Hs).
  exists v. split.
  - apply (apply_values_read_written k1 k2 JNull v g _ e d2 zipped_simple);
      [|exact Hv|exact Hk|exact applied].
    change (fun mv : MissingField * json => key_of (fst mv))
      with (key_of ∘ @fst MissingField json).
    rewrite list_fmap_compose, fst_zip; [apply others_nodup|].
    rewrite (Forall2_length _ _ _ values_settle). reflexivity.
  - destruct Hs as [Hp|Ht]; [|exact Ht].
    pose proof others_simple as Hsim. rewrite Forall_forall in Hsim.
    apply list_elem_of_In in Hin. destruct (Hsim g Hin) as [Hnp _]. congruence.
Qed.

Lemma has_plus_in_after (k1 k2 : string) (r : bool) :
  (forall g, In g others -> key_of g <> Some (k1, k2)) ->
  has_plus_in k1 k2 e = Ok r ->
  has_plus_in k1 k2 d2 = Ok r.
Proof.
  intros Hk. rewrite !has_plus_in_read2.
  destruct (read2 k1 k2 (JList []) e) as [items|err] eqn:Hr; [|discriminate].
  rewrite (read_other k1 k2 (JList []) items Hk Hr). auto.
Qed.

Lemma is_dict_after (k : string) : is_dict_at k e -> is_dict_at k d2.
Proof. apply (apply_values_is_dict k _ e d2 zipped_simple applied). Qed.

Lemma in_append_if_here (m : MissingField) (l : list MissingField) :
  In m (append_if true m l).
Proof. unfold append_if. apply in_or_app. right. left. reflexivity. Qed.

Lemma in_append_if_skip (g m : MissingField) (b : bool) (l : list MissingField) :
  In g l -> In g (append_if b m l).
Proof. unfold append_if. destruct b; [|auto]. intros H. apply in_or_app. auto. Qed.

(** The rule reading [k1.k2], whose gap is [g] and which fired exactly
    when [b]: afterwards the field reads as a true value. *)
Lemma read_rule (g : MissingField) (k1 k2 : string) (b : bool) (r : json) :
  key_of g = Some (k1, k2) ->
  (b = true -> In g others) ->
  (b = false -> forall g', In g' others -> key_of g' <> Some (k1, k2)) ->
  read2 k1 k2 JNull e = Ok r ->
  b = negb (truthy r) ->
  exists r2, read2 k1 k2 JNull d2 = Ok r2 /\ truthy r2 = true.
Proof.
  intros Hk Hin Hout Hr Hb. destruct b.
  - apply (read_written g k1 k2 (Hin eq_refl) Hk).
  - exists r. split; [apply (read_other k1 k2 JNull r (Hout eq_refl) Hr)|].
    symmetry in Hb. apply negb_false_iff in Hb. exact Hb.
Qed.

Lemma field_unset_read2 (k1 k2 : string) (d : dict) :
  field_unset k1 k2 d = (v <- read2 k1 k2 JNull d ;; Ok (negb (truthy v)))%py.
Proof. reflexivity. Qed.

Lemma field_rule (g : MissingField) (k1 k2 : string) (b : bool) :
  key_of g = Some (k1, k2) ->
  (b = true -> In g others) ->
  (b = false -> forall g', In g' others -> key_of g' <> Some (k1, k2)) ->
  field_unset k1 k2 e = Ok b ->
  field_unset k1 k2 d2 = Ok false.
Proof.
  intros Hk Hin Hout. rewrite !field_unset_read2.
  destruct (read2 k1 k2 JNull e) as [r|err] eqn:Hr; [|discriminate].
  intros [= Hb]. symmetry in Hb.
  destruct (read_rule g k1 k2 b r Hk Hin Hout Hr Hb) as (r2 & -> & Ht).
  cbn [bind_result]. rewrite Ht. reflexivity.
Qed.

End Redetect.

(** A gap of the list, but not the one of the rule at hand: its key is
    another one. *)
Ltac other_key others_eq :=
  let g := fresh "g" in
  let Hin := fresh "Hin" in
  let Hb := fresh "Hb" in
  let Heq := fresh "Heq" in
  intros g Hin;
  apply (in_others _ _ _ _ _ _ _ _ others_eq) in Hin;
  destruct Hin as [[Hb ->]|[[Hb ->]|[[Hb ->]|[[Hb ->]|[[Hb ->]|[Hb ->]]]]]];
  first [congruence | intros Heq; lazy in Heq; discriminate Heq].

(** The gap of a rule that fired is in the list. *)
Ltac in_gaps others_eq :=
  let Hb := fresh "Hb" in
  intros Hb; rewrite others_eq, Hb; unfold gaps_of;
  repeat first [apply in_append_if_here | apply in_append_if_skip].

Section RedetectClean.

Variables (company tables : dict) (b5 b6 b7 : bool) (py py' : json).
Variables (others : list MissingField) (vs : list json) (e d2 : dict).
Variables (a b : bool).
Hypothesis others_eq :
  others = gaps_of false (no_tariff company)
             (negb (truthy (dict_get_or "cotization_year" JNull tables)))
             (negb (truthy (dict_get_or "irpf_year" JNull tables)))
             b5 b6 b7 py.
Hypothesis values_settle : Forall2 settles others vs.
Hypothesis applied : apply_values (zip others vs) e = (d2, Ok tt).
Hypothesis allowances_read : has_plus_in "collective_agreement" "allowances" e = Ok a.
Hypothesis variables_read : has_plus_in "compensation" "variables" e = Ok b.
Hypothesis plus_settled : a && negb b = false.
Hypothesis company_read : dict_get "company" e = Some (JDict company).
Hypothesis tables_read : dict_get "tables" e = Some (JDict tables).
Hypothesis period_read : read2 "period" "year" JNull e = Ok py'.
Hypothesis cra_read : field_unset "compensation" "base_salary_cra_code" e = Ok b5.
Hypothesis nif_read : field_unset "worker" "nif" e = Ok b6.
Hypothesis regime_read : field_unset "region_config" "irpf_regime" e = Ok b7.

Lemma company_after :
  exists company2, dict_get "company" d2 = Some (JDict company2)
                   /\ no_tariff company2 = false.
Proof.
  pose proof (read_other _ _ _ _ _ _ _ _ _ _ _ others_eq applied) as RO.
  pose proof (read_rule _ _ _ _ _ _ _ _ _ _ _ others_eq values_settle applied) as RR.
  destruct (is_dict_after _ _ _ _ _ _ _ _ _ _ _ others_eq applied "company")
    as [company2 Hc2]; [eexists; exact company_read|].
  exists company2. split; [exact Hc2|].
  pose proof (read2_at_dict "company" "cnae" JNull e company company_read) as Hcnae.
  apply RO in Hcnae; [|other_key others_eq].
  rewrite (read2_at_dict "company" "cnae" JNull d2 company2 Hc2) in Hcnae.
  injection Hcnae as Hcnae.
  unfold no_tariff. rewrite Hcnae.
  destruct (truthy (dict_get_or "cnae" JNull company)) eqn:Ht; [reflexivity|].
  pose proof (read2_at_dict "company" "atep_tariff_pct" JNull e company company_read)
    as Hatep.
  destruct (RR gap_atep "company" "atep_tariff_pct" (no_tariff company)
              (dict_get_or "atep_tariff_pct" JNull company) eq_refl)
    as (r2 & Hr2 & Ht2).
  - in_gaps others_eq.
  - intros Hf. other_key others_eq.
  - exact Hatep.
  - unfold no_tariff. rewrite Ht. reflexivity.
  - rewrite (read2_at_dict "company" "atep_tariff_pct" JNull d2 company2 Hc2) in Hr2.
    injection Hr2 as ->. rewrite Ht2. reflexivity.
Qed.

Lemma tables_after :
  exists tables2,
    dict_get "tables" d2 = Some (JDict tables2)
    /\ truthy (dict_get_or "cotization_year" JNull tables2) = true
    /\ truthy (dict_get_or "irpf_year" JNull tables2) = true.
Proof.
  pose proof (read_rule _ _ _ _ _ _ _ _ _ _ _ others_eq values_settle applied) as RR.
  destruct (is_dict_after _ _ _ _ _ _ _ _ _ _ _ others_eq applied "tables")
    as [tables2 Ht2]; [eexists; exact tables_read|].
  exists tables2. split; [exact Ht2|]. split.
  - destruct (RR (gap_cotization_year py) "tables" "cotization_year"
                (negb (truthy (dict_get_or "cotization_year" JNull tables)))
                (dict_get_or "cotization_year" JNull tables) eq_refl)
      as (r2 & Hr2 & Hr2t).
    + in_gaps others_eq.
    + intros Hf. other_key others_eq.
    + apply read2_at_dict, tables_read.
    + reflexivity.
    + rewrite (read2_at_dict "tables" "cotization_year" JNull d2 tables2 Ht2) in Hr2.
      injection Hr2 as ->. exact Hr2t.
  - destruct (RR (gap_irpf_year py) "tables" "irpf_year"
                (negb (truthy (dict_get_or "irpf_year" JNull tables)))
                (dict_get_or "irpf_year" JNull tables) eq_refl)
      as (r2 & Hr2 & Hr2t).
    + in_gaps others_eq.
    + intros Hf. other_key others_eq.
    + apply read2_at_dict, tables_read.
    + reflexivity.
    + rewrite (read2_at_dict "tables" "irpf_year" JNull d2 tables2 Ht2) in Hr2.
      injection Hr2 as ->. exact Hr2t.
Qed.

(** After the values, no rule of the detector fires. *)
Lemma redetect_clean : detect_missing d2 = (d2, Ok []).
Proof.
  pose proof (read_other _ _ _ _ _ _ _ _ _ _ _ others_eq applied) as RO.
  pose proof (has_plus_in_after _ _ _ _ _ _ _ _ _ _ _ others_eq applied) as HP.
  pose proof (field_rule _ _ _ _ _ _ _ _ _ _ _ others_eq values_settle applied) as FR.
  destruct company_after as (company2 & Hc2 & Hnt).
  destruct tables_after as (tables2 & Ht2 & Hcot & Hirpf).
  rewrite (detect_missing_intro d2 company2 tables2 a b py' false false false).
  - rewrite plus_settled, Hnt, Hcot, Hirpf. reflexivity.
  - apply HP; [other_key others_eq|exact allowances_read].
  - apply HP; [other_key others_eq|exact variables_read].
  - exact Hc2.
  - exact Ht2.
  - apply RO; [other_key others_eq|exact period_read].
  - apply (FR gap_cra _ _ b5 eq_refl); [in_gaps others_eq| |exact cra_read].
    intros Hf. other_key others_eq.
  - apply (FR gap_nif _ _ b6 eq_refl); [in_gaps others_eq| |exact nif_read].
    intros Hf. other_key others_eq.
  - apply (FR gap_regime _ _ b7 eq_refl); [in_gaps others_eq| |exact regime_read].
    intros Hf. other_key others_eq.
Qed.

End RedetectClean.

Section AfterPlus.

Lemma has_plus_in_nest_other (k1 k2 x y : string) (v : json) (r : bool) (d : dict) :
  (k1, k2) <> (x, y) ->
  has_plus_in k1 k2 d = Ok r ->
  has_plus_in k1 k2 (nest_set x y v d) = Ok r.
Proof.
  intros Hne. rewrite !has_plus_in_read2.
  destruct (read2 k1 k2 (JList []) d) as [items|err] eqn:Hr; [|discriminate].
  rewrite (read2_nest_set_other k1 k2 x y (JList []) v items d Hne Hr). auto.
Qed.

Lemma field_unset_nest_other (k1 k2 x y : string) (v : json) (r : bool) (d : dict) :
  (k1, k2) <> (x, y) ->
  field_unset k1 k2 d = Ok r ->
  field_unset k1 k2 (nest_set x y v d) = Ok r.
Proof.
  intros Hne. rewrite !field_unset_read2.
  destruct (read2 k1 k2 JNull d) as [u|err] eqn:Hr; [|discriminate].
  rewrite (read2_nest_set_other k1 k2 x y JNull v u d Hne Hr). auto.
Qed.

Lemma has_plus_in_appended (l : list json) (a : json) (d : dict) :
  any_plus_convenio l = Ok false ->
  has_plus_in "compensation" "variables"
    (nest_set "compensation" "variables" (JList (l ++ [plus_convenio_item a])) d)
  = Ok true.
Proof.
  intros Hany. rewrite has_plus_in_read2, read2_nest_set_same.
  cbn [bind_result py_iter]. apply any_plus_app_found; [exact Hany|reflexivity].
Qed.

(** The allowance gap resolved: the payload it leaves. *)
Lemma apply_plus_inv (v : json) (d e : dict) :
  has_plus_in "compensation" "variables" d = Ok false ->
  apply_value gap_plus_convenio v d = (e, Ok tt) ->
  exists (l : list json) (a : json),
    any_plus_convenio l = Ok false
    /\ e = nest_set "compensation" "variables" (JList (l ++ [plus_convenio_item a])) d.
Proof.
  intros Hb Hav. change (set_plus_convenio v d = (e, Ok tt)) in Hav.
  rewrite has_plus_in_read2 in Hb.
  destruct (read2 "compensation" "variables" (JList []) d) as [items|err] eqn:Hr;
    [|discriminate].
  cbn [bind_result] in Hb.
  assert (Hl : (exists l, items = JList l) \/ (forall l, items <> JList l)).
  { destruct items; try (right; intros l; discriminate). left. eauto. }
  destruct Hl as [[l ->]|Hnl].
  - cbn [py_iter bind_result] in Hb.
    rewrite (set_plus_convenio_list v l d Hr Hb) in Hav.
    destruct (amount_of v) as [a|err]; [|discriminate].
    injection Hav as <-. eauto.
  - pose proof (set_plus_convenio_not_list v items d Hr Hnl) as Hne.
    rewrite Hav in Hne. destruct Hne. reflexivity.
Qed.

End AfterPlus.

(** Whatever values are applied for the gaps of a detection, if each
    settles its gap the detector finds nothing afterwards. *)
Lemma redetect_after_values
  (payload d1 d2 : dict) (gaps : list MissingField) (vs : list json) :
  detect_missing payload = (d1, Ok gaps) ->
  Forall2 settles gaps vs ->
  apply_values (zip gaps vs) d1 = (d2, Ok tt) ->
  detect_missing d2 = (d2, Ok []).
Proof.
  intros Hdet Hset Happ.
  destruct (detect_missing_inv payload d1 gaps Hdet)
    as (a & b & company & tables & py & b5 & b6 & b7
        & Ha & Hb & Hd1 & Hco & Hta & Hpy & H5 & H6 & H7 & ->).
  assert (Ha1 : has_plus_in "collective_agreement" "allowances" d1 = Ok a).
  { subst d1. unfold has_plus_in, dict_get_or in *.
    rewrite probed_other by discriminate. exact Ha. }
  assert (Hb1 : has_plus_in "compensation" "variables" d1 = Ok b).
  { subst d1. unfold has_plus_in, dict_get_or in *.
    rewrite probed_other by discriminate. exact Hb. }
  assert (Hco1 : dict_get "company" d1 = Some (JDict company)).
  { subst d1. unfold probed. rewrite dict_setdefault_other by discriminate. exact Hco. }
  assert (Hpy1 : read2 "period" "year" JNull d1 = Ok py).
  { subst d1. unfold probed, read2, dict_get_or in *.
    rewrite dict_setdefault_other by discriminate. exact Hpy. }
  clear Ha Hb Hco Hpy Hdet.
  destruct (a && negb b) eqn:Hplus.
  - apply andb_true_iff in Hplus as [-> Hnb]. apply negb_true_iff in Hnb. subst b.
    rewrite gaps_of_plus in Hset, Happ.
    inversion Hset as [|g v others vs' Hv Hset' E1 E2]; subst.
    cbn [zip zip_with apply_values] in Happ. unfold bind in Happ.
    destruct (apply_value gap_plus_convenio v (probed payload)) as [e [[]|err]] eqn:Hav;
      [|discriminate].
    destruct (apply_plus_inv v _ e Hb1 Hav) as (l & amt & Hany & ->).
    eapply (redetect_clean company tables b5 b6 b7 py py _ vs' _ d2 true true
              eq_refl Hset' Happ).
    + apply has_plus_in_nest_other; [discriminate|exact Ha1].
    + apply has_plus_in_appended, Hany.
    + reflexivity.
    + unfold nest_set. rewrite dict_get_set_ne by discriminate. exact Hco1.
    + unfold nest_set. rewrite dict_get_set_ne by discriminate. exact Hta.
    + apply read2_nest_set_other; [discriminate|exact Hpy1].
    + apply field_unset_nest_other; [discriminate|exact H5].
    + apply field_unset_nest_other; [discriminate|exact H6].
    + apply field_unset_nest_other; [discriminate|exact H7].
  - eapply (redetect_clean company tables b5 b6 b7 py py _ vs d1 d2 a b
              eq_refl Hset Happ); eassumption.
Qed.


(** C2, as stated, fails: with no period year the table years are
    resolved to [None] and the detector reports them again. *)
Lemma redetect_counterexample :
  ~ redetects_nothing "default" [("company", JDict [("cnae", JStr "6201")])]
      (mkConsole [] []).
Proof.
  unfold redetects_nothing. intros H.
  epose proof (H _ _ _ _ _ eq_refl eq_refl) as H1.
  vm_compute in H1. discriminate H1.
Qed.

(** Under "ask", an answer that reads as zero leaves the gap open too. *)
Example redetect_after_zero_answer :
  let payload := [("period", JDict [("year", JInt 2025)]);
                  ("company", JDict [("cnae", JStr "6201")]);
                  ("tables", JDict [("irpf_year", JInt 2025)]);
                  ("compensation", JDict [("base_salary_cra_code", JStr "C01")]);
                  ("worker", JDict [("nif", JStr "12345678Z")]);
                  ("region_config", JDict [("irpf_regime", JStr "AEAT")])] in
  exists d1 d2 gaps con' w g,
    detect_missing payload = (d1, Ok gaps)
    /\ resolve_missing gaps "ask" (d1, mkConsole ["0"] []) = ((d2, con'), Ok w)
    /\ snd (detect_missing d2) = Ok [g]
    /\ path g = "tables.cotization_year".
Proof.
  eexists _, _, _, _, _, _. split; [vm_compute; reflexivity|].
  split; [vm_compute; reflexivity|]. split; vm_compute; reflexivity.
Qed.

(** ** Enrichment on the heap *)

Section Frames.

Variable n : nat.

Lemma val_above_le (m : nat) (v : val) : (n <= m)%nat -> val_above m v -> val_above n v.
Proof. destruct v; simpl; auto. lia. Qed.

Lemma obj_above_le (m : nat) (o : obj) : (n <= m)%nat -> obj_above m o -> obj_above n o.
Proof.
  intros Hle. destruct o; simpl; intros H; (eapply Forall_impl; [exact H|]);
    intros; eapply val_above_le; eauto.
Qed.

Lemma framed_ret {A} (post : A -> Prop) (a : A) : post a -> framed n post (ret a).
Proof.
  intros Hp h h' r Hn Hc [= <- <-]. repeat split; auto.
  intros a' [= <-]. exact Hp.
Qed.

Lemma framed_lift {A} (post : A -> Prop) (r : result A) :
  (forall a, r = Ok a -> post a) -> framed n post (lift r).
Proof. intros Hp h h' r' Hn Hc [= <- <-]. repeat split; auto. Qed.

Lemma framed_raise {A} (post : A -> Prop) (e : exn) : framed n post (raise e).
Proof.
  intros h h' r Hn Hc [= <- <-]. repeat split; auto. intros a. discriminate.
Qed.

Lemma framed_bind {A B} (p : A -> Prop) (q : B -> Prop) (c : M heap A)
  (k : A -> M heap B) :
  framed n p c -> (forall a, p a -> framed n q (k a)) -> framed n q (bind c k).
Proof.
  intros Hc Hk h h' r Hn Hcl. unfold bind.
  destruct (c h) as [h1 [a|e]] eqn:E; intros Hr.
  - destruct (Hc h h1 (Ok a) Hn Hcl E) as (Hag & Hn1 & Hcl1 & Hpa).
    destruct (Hk a (Hpa a eq_refl) h1 h' r Hn1 Hcl1 Hr) as (Hag2 & Hn2 & Hcl2 & Hq).
    repeat split; auto. intros l Hl. rewrite Hag2, Hag; auto.
  - injection Hr as <- <-.
    destruct (Hc h h1 (Err e) Hn Hcl E) as (Hag & Hn1 & Hcl1 & _).
    repeat split; auto. intros b. discriminate.
Qed.

Lemma framed_weaken {A} (p q : A -> Prop) (c : M heap A) :
  (forall a, p a -> q a) -> framed n p c -> framed n q c.
Proof.
  intros Hpq Hc h h' r Hn Hcl E.
  destruct (Hc h h' r Hn Hcl E) as (H1 & H2 & H3 & H4). repeat split; auto.
Qed.

(** Reading the heap writes nothing. *)
Lemma framed_dumps (v : val) : framed n (fun _ => True) (dumps v).
Proof.
  intros h h' r Hn Hcl. unfold dumps.
  destruct (reify (S (length h)) h v); intros [= <- <-]; repeat split; auto.
Qed.

Lemma framed_truthy (v : val) : framed n (fun _ => True) (h_truthy v).
Proof. intros h h' r Hn Hcl [= <- <-]. repeat split; auto. Qed.

Lemma closed_above_snoc (h : heap) (o : obj) :
  (n <= length h)%nat -> closed_above n h -> obj_above n o -> closed_above n (h ++ [o])%list.
Proof.
  intros Hn Hcl Ho l o' Hl Hlook.
  destruct (decide (l < length h)%nat) as [Hlt|Hge].
  - rewrite lookup_app_l in Hlook by exact Hlt. eapply Hcl; eauto.
  - rewrite lookup_app_r in Hlook by lia.
    destruct (l - length h)%nat as [|k]; simpl in Hlook; [|discriminate].
    injection Hlook as <-. exact Ho.
Qed.

Lemma framed_alloc (o : obj) : obj_above n o -> framed n (val_above n) (alloc o).
Proof.
  intros Ho h h' r Hn Hcl [= <- <-]. repeat split.
  - intros l Hl. apply lookup_app_l. lia.
  - rewrite length_app. lia.
  - apply closed_above_snoc; assumption.
  - intros a [= <-]. exact Hn.
Qed.

End Frames.

Section LoadsFrame.

Lemma Forall_obj_above_le (n m : nat) (l : list obj) :
  (n <= m)%nat -> Forall (obj_above m) l -> Forall (obj_above n) l.
Proof.
  intros Hle H. eapply Forall_impl; [exact H|]. intros o. apply obj_above_le, Hle.
Qed.

Lemma loads_new_all (j : json) : loads_new j.
Proof.
  induction j as [| | | | |items IH|kvs IH] using json_induction;
    try (intros h; exists []; rewrite app_nil_r; repeat split; constructor).
  - intros h. cbn [loads].
    set (go := fix go (js : list json) (h : heap) : heap * list val :=
           match js with
           | [] => (h, [])
           | x :: r =>
               let '(h1, v) := loads x h in
               let '(h2, vs) := go r h1 in (h2, v :: vs)
           end).
    assert (Hgo : forall h, exists new,
               fst (go items h) = (h ++ new)%list
               /\ Forall (obj_above (length h)) new
               /\ Forall (val_above (length h)) (snd (go items h))).
    { clear h. induction IH as [|x r Hx Hr IHr]; intros h.
      - exists []. rewrite app_nil_r. repeat split; constructor.
      - cbn [go]. destruct (Hx h) as (new1 & E1 & F1 & V1).
        destruct (loads x h) as [h1 v]. cbn [fst snd] in *. subst h1.
        destruct (IHr (h ++ new1)%list) as (new2 & E2 & F2 & V2).
        destruct (go r (h ++ new1)%list) as [h2 vs]. cbn [fst snd] in *. subst h2.
        exists (new1 ++ new2)%list. rewrite app_assoc.
        rewrite length_app in F2, V2.
        repeat split.
        + apply Forall_app. split; [exact F1|].
          eapply Forall_obj_above_le; [|exact F2]. lia.
        + constructor; [exact V1|].
          eapply Forall_impl; [exact V2|]. intros v'. apply val_above_le. lia. }
    destruct (Hgo h) as (new & E & F & V).
    destruct (go items h) as [h1 vs]. cbn [fst snd] in *. subst h1.
    exists (new ++ [OList vs])%list. rewrite app_assoc. repeat split.
    + apply Forall_app. split; [exact F|]. constructor; [exact V|constructor].
    + simpl. rewrite length_app. lia.
  - intros h. cbn [loads].
    set (go := fix go (kvs : list (string * json)) (h : heap)
             : heap * list (string * val) :=
           match kvs with
           | [] => (h, [])
           | (k, x) :: r =>
               let '(h1, v) := loads x h in
               let '(h2, fields) := go r h1 in (h2, (k, v) :: fields)
           end).
    assert (Hgo : forall h, exists new,
               fst (go kvs h) = (h ++ new)%list
               /\ Forall (obj_above (length h)) new
               /\ Forall (fun kv => val_above (length h) (snd kv)) (snd (go kvs h))).
    { clear h. induction IH as [|[k x] r Hx Hr IHr]; intros h.
      - exists []. rewrite app_nil_r. repeat split; constructor.
      - cbn [go]. cbn [snd] in Hx. destruct (Hx h) as (new1 & E1 & F1 & V1).
        destruct (loads x h) as [h1 v]. cbn [fst snd] in *. subst h1.
        destruct (IHr (h ++ new1)%list) as (new2 & E2 & F2 & V2).
        destruct (go r (h ++ new1)%list) as [h2 vs]. cbn [fst snd] in *. subst h2.
        exists (new1 ++ new2)%list. rewrite app_assoc.
        rewrite length_app in F2, V2.
        repeat split.
        + apply Forall_app. split; [exact F1|].
          eapply Forall_obj_above_le; [|exact F2]. lia.
        + constructor; [exact V1|].
          eapply Forall_impl; [exact V2|]. intros v'. apply val_above_le. lia. }
    destruct (Hgo h) as (new & E & F & V).
    destruct (go kvs h) as [h1 vs]. cbn [fst snd] in *. subst h1.
    exists (new ++ [ODict vs])%list. rewrite app_assoc. repeat split.
    + apply Forall_app. split; [exact F|]. constructor; [exact V|constructor].
    + simpl. rewrite length_app. lia.
Qed.

Lemma closed_above_app (n : nat) (h : heap) (new : list obj) :
  (n <= length h)%nat -> closed_above n h -> Forall (obj_above n) new ->
  closed_above n (h ++ new)%list.
Proof.
  intros Hn Hcl Hnew l o Hl Hlook.
  destruct (decide (l < length h)%nat) as [Hlt|Hge].
  - rewrite lookup_app_l in Hlook by exact Hlt. eapply Hcl; eauto.
  - rewrite lookup_app_r in Hlook by lia.
    rewrite Forall_forall in Hnew. apply Hnew.
    eapply list_elem_of_lookup_2, Hlook.
Qed.

Lemma framed_loads (n : nat) (j : json) : framed n (val_above n) (loads_m j).
Proof.
  intros h h' r Hn Hcl. unfold loads_m.
  destruct (loads_new_all j h) as (new & E & F & V).
  destruct (loads j h) as [h1 v]. cbn [fst snd] in *. subst h1.
  intros [= <- <-]. repeat split.
  - intros l Hl. apply lookup_app_l. lia.
  - rewrite length_app. lia.
  - apply closed_above_app; try assumption.
    eapply Forall_obj_above_le; [|exact F]. exact Hn.
  - intros a [= <-]. eapply val_above_le; [|exact V]. exact Hn.
Qed.

End LoadsFrame.

Section ObjectFrames.

Variable n : nat.

Lemma dict_get_Forall {V} (P : V -> Prop) (k : string) (d : list (string * V)) (v : V) :
  Forall (fun kv => P (snd kv)) d -> dict_get k d = Some v -> P v.
Proof.
  induction 1 as [|[k' v'] d Hv Hd IH]; simpl; [discriminate|].
  destruct (String.eqb k k'); [intros [= <-]; exact Hv|exact IH].
Qed.

Lemma dict_set_Forall {V} (P : V -> Prop) (k : string) (v : V) (d : list (string * V)) :
  P v -> Forall (fun kv => P (snd kv)) d -> Forall (fun kv => P (snd kv)) (dict_set k v d).
Proof.
  intros Hv. induction 1 as [|[k' v'] d Hv' Hd IH]; simpl.
  - constructor; [exact Hv|constructor].
  - destruct (String.eqb k k'); constructor; auto.
Qed.

Lemma framed_fields (o : val) : val_above n o -> framed n (fields_above n) (h_fields o).
Proof.
  intros Ho h h' r Hn Hcl. unfold h_fields.
  destruct o as [| | | | |l].
  1-5: intros [= <- <-]; (split; [intros ? ?; reflexivity|]);
    (split; [exact Hn|]); (split; [exact Hcl|]); intros a; discriminate.
  destruct (h !! l) as [[items|fields]|] eqn:Hl; intros [= <- <-];
    (split; [intros ? ?; reflexivity|]); (split; [exact Hn|]);
    (split; [exact Hcl|]); intros a Ha; try discriminate Ha.
  injection Ha as <-. split; [exact Ho|exact (Hcl l (ODict fields) Ho Hl)].
Qed.

Lemma framed_store (l : loc) (fields : list (string * val)) :
  fields_above n (l, fields) -> framed n (fun _ => True) (h_store l fields).
Proof.
  intros [Hl Hf] h h' r Hn Hcl [= <- <-]. cbn [fst snd] in *. repeat split; auto.
  - intros l' Hl'. apply list_lookup_insert_ne. lia.
  - rewrite length_insert. exact Hn.
  - intros l' o Hl' Hlook. apply list_lookup_insert_Some in Hlook.
    destruct Hlook as [(-> & <- & _)|[_ Hlook]]; [exact Hf|eapply Hcl; eauto].
Qed.

Lemma framed_get (o : val) (k : string) (dflt : val) :
  val_above n o -> val_above n dflt -> framed n (val_above n) (h_get o k dflt).
Proof.
  intros Ho Hd. unfold h_get.
  eapply framed_bind; [apply framed_fields, Ho|].
  intros [l fields] [_ Hf]. apply framed_ret. cbn [snd] in *.
  unfold dict_get_or. destruct (dict_get k fields) eqn:E; [|exact Hd].
  exact (dict_get_Forall (val_above n) k fields v Hf E).
Qed.

Lemma framed_setdefault (o : val) (k : string) (dflt : val) :
  val_above n o -> val_above n dflt -> framed n (val_above n) (h_setdefault o k dflt).
Proof.
  intros Ho Hd. unfold h_setdefault.
  eapply framed_bind; [apply framed_fields, Ho|].
  intros [l fields] [Hl Hf]. cbn [fst snd] in *.
  destruct (dict_get k fields) eqn:E.
  - apply framed_ret. exact (dict_get_Forall (val_above n) k fields v Hf E).
  - eapply framed_bind; [apply framed_store|intros _ _; apply framed_ret, Hd].
    split; [exact Hl|]. cbn [snd]. apply dict_set_Forall; assumption.
Qed.

Lemma framed_contains (o : val) (k : string) :
  val_above n o -> framed n (fun _ => True) (h_contains o k).
Proof.
  intros Ho. unfold h_contains.
  eapply framed_bind; [apply framed_fields, Ho|]. intros lf _. apply framed_ret. exact I.
Qed.

Lemma framed_setitem (o : val) (k : string) (v : val) :
  val_above n o -> val_above n v -> framed n (fun _ => True) (h_setitem o k v).
Proof.
  intros Ho Hv. unfold h_setitem.
  eapply framed_bind; [apply framed_fields, Ho|].
  intros [l fields] [Hl Hf]. cbn [fst snd] in *. apply framed_store.
  split; [exact Hl|]. cbn [snd]. apply dict_set_Forall; assumption.
Qed.

(** Enrichment writes to the objects it has allocated, and to no other. *)
Lemma framed_enrich (payload : val) :
  framed n (val_above n) (enrich_region_config_heap payload).
Proof.
  unfold enrich_region_config_heap.
  eapply framed_bind; [apply framed_dumps|]. intros text _.
  eapply framed_bind; [apply framed_loads|]. intros data Hdata.
  unfold enrich_copy.
  eapply framed_bind; [apply framed_alloc; constructor|]. intros empty Hempty.
  eapply framed_bind; [apply framed_get; assumption|]. intros rc0 Hrc0.
  eapply framed_bind; [apply framed_get; [assumption|exact I]|]. intros ccaa Hccaa.
  eapply framed_bind; [apply framed_truthy|]. intros t _.
  destruct (negb t); [apply framed_ret; assumption|].
  eapply framed_bind; [apply framed_alloc; constructor|]. intros empty2 Hempty2.
  eapply framed_bind; [apply framed_setdefault; assumption|]. intros rc Hrc.
  eapply framed_bind; [apply framed_setdefault; [assumption|exact I]|]. intros notes _.
  eapply framed_bind; [apply framed_contains; assumption|]. intros has_tag _.
  eapply (framed_bind n (fun _ => True)).
  { destruct (negb has_tag); [apply framed_lift|apply framed_ret]; auto. }
  intros mapped _.
  destruct mapped; [|apply framed_ret; assumption].
  destruct ccaa; try apply framed_raise.
  eapply (framed_bind n (fun _ => True)); [apply framed_lift; auto|]. intros entry _.
  eapply (framed_bind n (fun _ => True)); [apply framed_lift; auto|]. intros tag _.
  eapply framed_bind; [apply framed_loads|]. intros tag_value Htag.
  eapply framed_bind; [apply framed_setitem; assumption|]. intros u _.
  apply framed_ret. assumption.
Qed.

End ObjectFrames.

Section Reading.

Lemma all_some_map_ext {A B} (f g : A -> option B) (l : list A) :
  Forall (fun x => f x = g x) l -> all_some (map f l) = all_some (map g l).
Proof.
  induction 1 as [|x l Hx Hl IH]; [reflexivity|]. simpl. rewrite Hx, IH. reflexivity.
Qed.

Lemma all_some_map_mono {A B} (f g : A -> option B) (l : list A) (r : list B) :
  (forall x b, f x = Some b -> g x = Some b) ->
  all_some (map f l) = Some r -> all_some (map g l) = Some r.
Proof.
  intros Hfg. revert r. induction l as [|x l IH]; intros r; [auto|]. simpl.
  destruct (f x) as [b|] eqn:Hf; [|discriminate].
  rewrite (Hfg x b Hf).
  destruct (all_some (map f l)) as [r'|]; [|discriminate].
  rewrite (IH r' eq_refl). auto.
Qed.

(** A document read from a heap reads the same from any heap that holds
    the same objects and more, through as many references or more. *)
Lemma reify_mono (f f' : nat) (h h' : heap) (v : val) (j : json) :
  (f <= f')%nat ->
  (forall l o, h !! l = Some o -> h' !! l = Some o) ->
  reify f h v = Some j -> reify f' h' v = Some j.
Proof.
  intros Hf Hext. revert f' Hf v j.
  induction f as [|f IH]; intros f' Hf v j; destruct v; simpl;
    try (destruct f'; simpl; auto; fail); try discriminate.
  destruct f' as [|f']; [lia|]. simpl.
  destruct (h !! l) as [[items|fields]|] eqn:Hl; [| |discriminate];
    rewrite (Hext _ _ Hl).
  - destruct (all_some (map (reify f h) items)) as [js|] eqn:E; [|discriminate].
    rewrite (all_some_map_mono (reify f h) (reify f' h') items js); [auto| |exact E].
    intros x b. apply IH. lia.
  - match goal with
    | |- match all_some (map ?g fields) with _ => _ end = _ -> _ =>
        destruct (all_some (map g fields)) as [kvs|] eqn:E; [|discriminate]
    end.
    erewrite all_some_map_mono; [eauto| |exact E].
    intros [k x] b. cbn [fst snd].
    destruct (reify f h x) as [jx|] eqn:Ex; [|discriminate].
    rewrite (IH f' ltac:(lia) x jx Ex). auto.
Qed.

(** What is closed above [n] reads the same whatever lies below [n]. *)
Lemma reify_closed (n f : nat) (below : list obj) (h : heap) (v : val) :
  length below = n ->
  closed_above n h ->
  val_above n v ->
  reify f (below ++ drop n h) v = reify f h v.
Proof.
  intros Hlen Hcl. revert v. induction f as [|f IH]; intros v Hv;
    destruct v; simpl; try reflexivity.
  simpl in Hv.
  assert (Hlook : (below ++ drop n h)%list !! l = h !! l).
  { rewrite lookup_app_r by lia. rewrite lookup_drop. f_equal. lia. }
  rewrite Hlook. destruct (h !! l) as [[items|fields]|] eqn:Hl; [| |reflexivity].
  - pose proof (Hcl l _ Hv Hl) as Ho. simpl in Ho.
    rewrite (all_some_map_ext (reify f (below ++ drop n h)) (reify f h) items);
      [reflexivity|].
    eapply Forall_impl; [exact Ho|]. intros x Hx. apply IH, Hx.
  - pose proof (Hcl l _ Hv Hl) as Ho. simpl in Ho.
    erewrite all_some_map_ext; [reflexivity|].
    eapply Forall_impl; [exact Ho|]. intros [k x] Hx. cbn [fst snd] in *.
    rewrite (IH x Hx). reflexivity.
Qed.

Lemma returns_bind {A B} (q : B -> Prop) (c : M heap A) (k : A -> M heap B) :
  (forall a, returns q (k a)) -> returns q (bind c k).
Proof.
  intros Hk h h' b. unfold bind. destruct (c h) as [h1 [a|e]]; [|discriminate].
  apply Hk.
Qed.

Lemma returns_ret {A} (post : A -> Prop) (a : A) : post a -> returns post (ret a).
Proof. intros Hp h h' a' [= _ <-]. exact Hp. Qed.

Lemma returns_raise {A} (post : A -> Prop) (e : exn) : returns post (raise e).
Proof. intros h h' a. discriminate. Qed.

(** What enrichment returns is the copy. *)
Lemma enrich_copy_returns_data (data : val) :
  returns (fun a => a = data) (enrich_copy data).
Proof.
  unfold enrich_copy.
  repeat first
    [ apply returns_ret; reflexivity
    | apply returns_raise
    | apply returns_bind; intros ?
    | match goal with
      | |- returns _ (if ?b then _ else _) => destruct b
      | |- returns _ (match ?v with _ => _ end) => destruct v
      end ].
Qed.

(** And the copy is an object: a value that is not one has no [get]. *)
Lemma enrich_copy_of_object (data a : val) (h h' : heap) :
  enrich_copy data h = (h', Ok a) -> exists l, data = VRef l.
Proof.
  destruct data as [| | | | |l]; [discriminate..|eauto].
Qed.

Lemma enrich_returns_object (payload data : val) (h h' : heap) :
  enrich_region_config_heap payload h = (h', Ok data) -> exists l, data = VRef l.
Proof.
  unfold enrich_region_config_heap, bind, dumps, loads_m.
  destruct (reify (S (length h)) h payload) as [text|]; [|discriminate].
  destruct (loads text h) as [h1 d0]. intros H.
  pose proof (enrich_copy_returns_data d0 h1 h' data H) as ->.
  exact (enrich_copy_of_object _ _ _ _ H).
Qed.

End Reading.

(** C8. Enrichment works on a copy.  Whatever the heap and the argument, and
    whether the call returns or raises: every object that existed before
    the call is afterwards what it was, so the argument, read through
    [json.dumps], is the document it was; and what the call returns is a
    new object, whose reading does not depend on what the objects that
    existed before hold: the returned document shares no list and no
    dictionary with the argument. *)
Theorem enrich_region_config_copies (h : heap) (payload : val) :
  let h' := fst (enrich_region_config_heap payload h) in
  let r := snd (enrich_region_config_heap payload h) in
  (forall (l : loc) (o : obj), h !! l = Some o -> h' !! l = Some o)
  /\ (forall j : json, dumps payload h = (h, Ok j) -> dumps payload h' = (h', Ok j))
  /\ (forall data : val,
        r = Ok data ->
        exists l : loc,
          data = VRef l
          /\ (length h <= l)%nat
          /\ forall (below : list obj) (fuel : nat),
               length below = length h ->
               reify fuel (below ++ drop (length h) h') data = reify fuel h' data).
Proof.
  intros h' r.
  destruct (enrich_region_config_heap payload h) as [h1 r1] eqn:E.
  cbn [fst snd] in h', r. subst h' r.
  assert (Hcl0 : closed_above (length h) h).
  { intros l o Hl Hlook. apply lookup_lt_Some in Hlook. lia. }
  destruct (framed_enrich (length h) payload h h1 r1 (le_n _) Hcl0 E)
    as (Hag & Hlen & Hcl & Hpost).
  assert (Hext : forall (l : loc) (o : obj), h !! l = Some o -> h1 !! l = Some o).
  { intros l o Hlook. rewrite Hag; [exact Hlook|]. eapply lookup_lt_Some, Hlook. }
  split; [exact Hext|]. split.
  - intros j. unfold dumps.
    destruct (reify (S (length h)) h payload) as [j0|] eqn:Hr; [|discriminate].
    intros [= <-].
    rewrite (reify_mono (S (length h)) (S (length h1)) h h1 payload j0); auto. lia.
  - intros data ->.
    destruct (enrich_returns_object payload data h h1 E) as [l ->].
    exists l. split; [reflexivity|]. split; [exact (Hpost _ eq_refl)|].
    intros below fuel Hb. apply reify_closed; auto.
Qed.

Example enrich_on_heap :
  let '(h, payload) := loads (JDict sample_region) [] in
  let '(h', r) := enrich_region_config_heap payload h in
  exists data enriched,
    r = Ok data
    /\ enrich_region_config sample_region = Ok enriched
    /\ reify (length h') h' data = Some (JDict enriched)
    /\ reify (length h') h' payload = Some (JDict sample_region).
Proof. vm_compute. eexists _, _. repeat split. Qed.

(** ** Resolution under [default] returns *)

Section DefaultReturns.

Variable policy : string.
Hypothesis not_ask : String.eqb policy "ask" = false.

(** Outside "ask" the loop applies the defaults and warns of each. *)
Lemma resolve_loop_defaults (missing : list MissingField) (w : list string)
  (d : dict) (c : console) :
  resolve_loop policy missing w (d, c)
  = match apply_values (zip missing (map default missing)) d with
    | (d', Ok _) =>
        ((d', c),
         Ok (w ++ map (warning_text "Valor por defecto aplicado en ") missing)%list)
    | (d', Err e) => ((d', c), Err e)
    end.
Proof.
  revert w d. induction missing as [|m rest IH]; intros w d.
  - cbn. rewrite app_nil_r. reflexivity.
  - cbn [resolve_loop map zip zip_with apply_values].
    unfold bind, on_snd, on_fst, choose_value. rewrite not_ask. cbn [ret fst snd].
    destruct (apply_value m (default m) d) as [d1 [[]|e]]; [|reflexivity].
    rewrite IH. destruct (apply_values _ d1) as [d2 [[]|e]]; [|reflexivity].
    rewrite <- app_assoc. reflexivity.
Qed.

End DefaultReturns.

Section ApplyReturns.

Lemma not_list_at_nest_set (k x y : string) (v : json) (d : dict) :
  not_list_at k d -> not_list_at k (nest_set x y v d).
Proof.
  intros H l. unfold nest_set. rewrite dict_get_set.
  destruct (String.eqb k x); [discriminate|apply H].
Qed.

Lemma read2_not_list (k1 k2 : string) (dflt r : json) (d : dict) :
  read2 k1 k2 dflt d = Ok r -> not_list_at k1 d.
Proof.
  unfold read2, dict_get_or. intros H l Hl. rewrite Hl in H. discriminate.
Qed.

Lemma field_unset_not_list (k1 k2 : string) (b : bool) (d : dict) :
  field_unset k1 k2 d = Ok b -> not_list_at k1 d.
Proof.
  rewrite field_unset_read2.
  destruct (read2 k1 k2 JNull d) as [r|e] eqn:Hr; [|discriminate].
  intros _. exact (read2_not_list k1 k2 JNull r d Hr).
Qed.

(** The generic assignments go through when no first segment is bound to a
    list. *)
Lemma apply_values_returns (gvs : list (MissingField * json)) (d : dict) :
  Forall (fun mv => simple_gap (fst mv)) gvs ->
  Forall (fun mv => forall k1 k2, key_of (fst mv) = Some (k1, k2) -> not_list_at k1 d) gvs ->
  exists d', apply_values gvs d = (d', Ok tt).
Proof.
  revert d. induction gvs as [|[m v] gvs IH]; intros d Hs Hn; [eexists; reflexivity|].
  inversion Hs as [|? ? [Hp (x & y & Hxy)] Hs']; subst.
  inversion Hn as [|? ? Hm Hn']; subst. cbn [fst] in *.
  cbn [apply_values]. unfold bind, apply_value.
  unfold is_plus_path in Hp. rewrite Hp.
  unfold key_of in Hxy.
  destruct (PyStr.split_char "." (path m)) as [|a [|b [|c l]]] eqn:Hsplit;
    try discriminate.
  injection Hxy as -> ->.
  rewrite (set_by_path_two_ok d x y v).
  - apply IH; [exact Hs'|].
    eapply Forall_impl; [exact Hn'|]. intros mv H k1 k2 Hk.
    apply not_list_at_nest_set, (H k1 k2 Hk).
  - apply (Hm x y). unfold key_of. rewrite Hsplit. reflexivity.
Qed.

End ApplyReturns.

(** Under "default", on a document whose variable-pay entries are a list
    (an absent list counts as empty), the resolver returns whenever the
    detector does, without touching the console. *)
Theorem resolve_default_returns
  (payload d1 : dict) (gaps : list MissingField) (l : list json) (con : console) :
  detect_missing payload = (d1, Ok gaps) ->
  read2 "compensation" "variables" (JList []) payload = Ok (JList l) ->
  exists (d2 : dict) (w : list string),
    resolve_missing gaps "default" (d1, con) = ((d2, con), Ok w).
Proof.
  intros Hdet Hvars.
  rewrite resolve_missing_loop by reflexivity.
  rewrite (resolve_loop_defaults "default" eq_refl).
  assert (Hret : exists d2, apply_values (zip gaps (map default gaps)) d1 = (d2, Ok tt));
    [|destruct Hret as [d2 ->]; eauto].
  destruct (detect_missing_inv payload d1 gaps Hdet)
    as (a & b & company & tables & py & b5 & b6 & b7
        & Ha & Hb & Hd1 & Hco & Hta & Hpy & H5 & H6 & H7 & ->).
  assert (Hvars1 : read2 "compensation" "variables" (JList []) d1 = Ok (JList l)).
  { subst d1. unfold read2, dict_get_or in *.
    rewrite probed_other by discriminate. exact Hvars. }
  assert (Hco1 : not_list_at "company" d1).
  { subst d1. intros l0. unfold probed.
    rewrite dict_setdefault_other by discriminate. rewrite Hco. discriminate. }
  assert (Hta1 : not_list_at "tables" d1).
  { intros l0. rewrite Hta. discriminate. }
  pose proof (field_unset_not_list _ _ _ _ H5) as Hcomp.
  pose proof (field_unset_not_list _ _ _ _ H6) as Hwork.
  pose proof (field_unset_not_list _ _ _ _ H7) as Hreg.
  assert (Hothers : forall e,
             not_list_at "company" e -> not_list_at "tables" e ->
             not_list_at "compensation" e -> not_list_at "worker" e ->
             not_list_at "region_config" e ->
             forall others, others = gaps_of false (no_tariff company)
                      (negb (truthy (dict_get_or "cotization_year" JNull tables)))
                      (negb (truthy (dict_get_or "irpf_year" JNull tables)))
                      b5 b6 b7 py ->
             exists d2, apply_values (zip others (map default others)) e = (d2, Ok tt)).
  { intros e N1 N2 N3 N4 N5 others Hoth.
    apply apply_values_returns.
    - apply Forall_zip_fst, (others_simple _ _ _ _ _ _ _ _ Hoth).
    - apply (Forall_zip_fst
               (fun m => forall k1 k2, key_of m = Some (k1, k2) -> not_list_at k1 e)).
      apply Forall_forall. intros g Hin k1 k2 Hk.
      apply list_elem_of_In, (in_others _ _ _ _ _ _ _ _ Hoth) in Hin.
      destruct Hin as [[_ ->]|[[_ ->]|[[_ ->]|[[_ ->]|[[_ ->]|[_ ->]]]]]];
        lazy in Hk; injection Hk as <- <-; assumption. }
  destruct (a && negb b) eqn:Hplus.
  - rewrite gaps_of_plus. cbn [map zip zip_with apply_values]. unfold bind.
    apply andb_true_iff in Hplus as [-> Hnb]. apply negb_true_iff in Hnb. subst b.
    assert (Hany : any_plus_convenio l = Ok false).
    { rewrite has_plus_in_read2, Hvars in Hb. exact Hb. }
    change (apply_value gap_plus_convenio (default gap_plus_convenio) d1)
      with (set_plus_convenio (JFloat PyFloat.zero) d1).
    rewrite (set_plus_convenio_appends (JFloat PyFloat.zero) (JFloat PyFloat.zero)
               l d1 Hvars1 Hany eq_refl).
    eapply Hothers; try reflexivity; try (apply not_list_at_nest_set; assumption).
  - eapply Hothers; try reflexivity; assumption.
Qed.

Section DefaultComplete.

Lemma settles_defaults (b1 b2 b3 b4 b5 b6 b7 : bool) (py : json) :
  truthy py = true ->
  Forall (fun g => settles g (default g)) (gaps_of b1 b2 b3 b4 b5 b6 b7 py).
Proof.
  intros Hpy. unfold gaps_of.
  repeat apply Forall_append_if; [constructor|..]; intros _;
    first [left; reflexivity | right; reflexivity | right; exact Hpy].
Qed.

Lemma Forall2_map_self {A B} (R : A -> B -> Prop) (f : A -> B) (l : list A) :
  Forall (fun x => R x (f x)) l -> Forall2 R l (map f l).
Proof. induction 1; constructor; auto. Qed.

End DefaultComplete.

(** X22. Completeness under "default", with nothing left to assume about
    the run: on a document whose variable-pay entries are a list and whose
    period year is true for Python, whenever the detector returns, the
    resolver returns and the detector finds nothing in what it leaves. *)
Theorem default_resolution_complete
  (payload d1 : dict) (gaps : list MissingField) (l : list json) (py : json)
  (con : console) :
  detect_missing payload = (d1, Ok gaps) ->
  read2 "compensation" "variables" (JList []) payload = Ok (JList l) ->
  read2 "period" "year" JNull payload = Ok py ->
  truthy py = true ->
  exists (d2 : dict) (w : list string),
    resolve_missing gaps "default" (d1, con) = ((d2, con), Ok w)
    /\ detect_missing d2 = (d2, Ok []).
Proof.
  intros Hdet Hvars Hpy Ht.
  destruct (resolve_default_returns payload d1 gaps l con Hdet Hvars) as (d2 & w & Hres).
  exists d2, w. split; [exact Hres|].
  rewrite resolve_missing_loop in Hres by reflexivity.
  apply resolve_loop_values in Hres as [_ Happ].
  rewrite (chosen_values_default "default" gaps con eq_refl) in Happ.
  apply (redetect_after_values payload d1 d2 gaps (map default gaps) Hdet); [|exact Happ].
  apply Forall2_map_self.
  destruct (detect_missing_inv payload d1 gaps Hdet)
    as (a & b & company & tables & py' & b5 & b6 & b7
        & _ & _ & _ & _ & _ & Hpy' & _ & _ & _ & ->).
  apply settles_defaults.
  unfold read2, dict_get_or in Hpy, Hpy'.
  rewrite dict_setdefault_other in Hpy' by discriminate.
  rewrite Hpy in Hpy'. injection Hpy' as <-. exact Ht.
Qed.

(** ** The two models of enrichment agree *)

Section Loading.

Lemma loads_list (items : list json) (h : heap) :
  loads (JList items) h
  = let '(h1, vs) := load_items items h in ((h1 ++ [OList vs])%list, VRef (length h1)).
Proof. reflexivity. Qed.

Lemma loads_dict (kvs : list (string * json)) (h : heap) :
  loads (JDict kvs) h
  = let '(h1, fs) := load_fields kvs h in ((h1 ++ [ODict fs])%list, VRef (length h1)).
Proof. reflexivity. Qed.

Lemma load_items_cons (x : json) (r : list json) (h : heap) :
  load_items (x :: r) h
  = let '(h1, v) := loads x h in
    let '(h2, vs) := load_items r h1 in (h2, v :: vs).
Proof. reflexivity. Qed.

Lemma load_fields_cons (k : string) (x : json) (r : list (string * json)) (h : heap) :
  load_fields ((k, x) :: r) h
  = let '(h1, v) := loads x h in
    let '(h2, fs) := load_fields r h1 in (h2, (k, v) :: fs).
Proof. reflexivity. Qed.

(** What [loads] appends and returns depends on the heap through its size
    only. *)
Lemma loads_by_size_all (j : json) : loads_by_size j.
Proof.
  induction j as [| | | | |items IH|kvs IH] using json_induction;
    try (intros h h' _; exists []; eexists; rewrite !app_nil_r; split; reflexivity).
  - assert (Hgo : forall h h', length h = length h' ->
               exists new vs, load_items items h = ((h ++ new)%list, vs)
                              /\ load_items items h' = ((h' ++ new)%list, vs)).
    { induction IH as [|x r Hx Hr IHr]; intros h h' Hlen.
      - exists [], []. rewrite !app_nil_r. split; reflexivity.
      - rewrite !load_items_cons.
        destruct (Hx h h' Hlen) as (new1 & v & -> & ->).
        destruct (IHr (h ++ new1)%list (h' ++ new1)%list) as (new2 & vs & -> & ->).
        { rewrite !length_app. lia. }
        exists (new1 ++ new2)%list, (v :: vs). rewrite !app_assoc. split; reflexivity. }
    intros h h' Hlen. rewrite !loads_list.
    destruct (Hgo h h' Hlen) as (new & vs & -> & ->).
    exists (new ++ [OList vs])%list, (VRef (length (h ++ new))).
    rewrite !app_assoc. split; [reflexivity|].
    rewrite !length_app, Hlen. reflexivity.
  - assert (Hgo : forall h h', length h = length h' ->
               exists new fs, load_fields kvs h = ((h ++ new)%list, fs)
                              /\ load_fields kvs h' = ((h' ++ new)%list, fs)).
    { induction IH as [|[k x] r Hx Hr IHr]; intros h h' Hlen.
      - exists [], []. rewrite !app_nil_r. split; reflexivity.
      - rewrite !load_fields_cons. cbn [snd] in Hx.
        destruct (Hx h h' Hlen) as (new1 & v & -> & ->).
        destruct (IHr (h ++ new1)%list (h' ++ new1)%list) as (new2 & fs & -> & ->).
        { rewrite !length_app. lia. }
        exists (new1 ++ new2)%list, ((k, v) :: fs). rewrite !app_assoc.
        split; reflexivity. }
    intros h h' Hlen. rewrite !loads_dict.
    destruct (Hgo h h' Hlen) as (new & fs & -> & ->).
    exists (new ++ [ODict fs])%list, (VRef (length (h ++ new))).
    rewrite !app_assoc. split; [reflexivity|].
    rewrite !length_app, Hlen. reflexivity.
Qed.

Lemma loads_appends (j : json) (h : heap) :
  exists new : list obj, fst (loads j h) = (h ++ new)%list.
Proof.
  destruct (loads_by_size_all j h h eq_refl) as (new & v & -> & _). eauto.
Qed.

Lemma load_fields_by_size (kvs : list (string * json)) (h h' : heap) :
  length h = length h' ->
  exists (new : list obj) (fs : list (string * val)),
    load_fields kvs h = ((h ++ new)%list, fs)
    /\ load_fields kvs h' = ((h' ++ new)%list, fs).
Proof.
  revert h h'. induction kvs as [|[k x] r IH]; intros h h' Hlen.
  - exists [], []. rewrite !app_nil_r. split; reflexivity.
  - rewrite !load_fields_cons.
    destruct (loads_by_size_all x h h' Hlen) as (new1 & v & -> & ->).
    destruct (IH (h ++ new1)%list (h' ++ new1)%list) as (new2 & fs & -> & ->).
    { rewrite !length_app. lia. }
    exists (new1 ++ new2)%list, ((k, v) :: fs). rewrite !app_assoc. split; reflexivity.
Qed.

Lemma load_items_appends (items : list json) (h : heap) :
  exists new : list obj, fst (load_items items h) = (h ++ new)%list.
Proof.
  revert h. induction items as [|x r IH]; intros h.
  - exists []. rewrite app_nil_r. reflexivity.
  - rewrite load_items_cons.
    destruct (loads_appends x h) as [new1 E1]. destruct (loads x h) as [h1 v].
    cbn [fst] in E1. subst h1.
    destruct (IH (h ++ new1)%list) as [new2 E2].
    destruct (load_items r (h ++ new1)%list) as [h2 vs]. cbn [fst] in *. subst h2.
    exists (new1 ++ new2)%list. rewrite app_assoc. reflexivity.
Qed.

Lemma load_fields_appends (kvs : list (string * json)) (h : heap) :
  exists new : list obj, fst (load_fields kvs h) = (h ++ new)%list.
Proof.
  destruct (load_fields_by_size kvs h h eq_refl) as (new & fs & -> & _). eauto.
Qed.

Lemma extends_app (h new : heap) : extends h (h ++ new)%list.
Proof. intros l o H. apply lookup_app_l_Some, H. Qed.

Lemma extends_trans (h1 h2 h3 : heap) : extends h1 h2 -> extends h2 h3 -> extends h1 h3.
Proof. intros H12 H23 l o H. apply H23, H12, H. Qed.

Lemma reify_scalar_fuel (f f' : nat) (h h' : heap) (v : val) :
  (forall l, v <> VRef l) -> reify f h v = reify f' h' v.
Proof.
  intros Hv. destruct v; try (destruct f, f'; reflexivity). destruct (Hv l eq_refl).
Qed.

Lemma loads_reads_back_all (j : json) : loads_reads_back j.
Proof.
  induction j as [| | | | |items IH|kvs IH] using json_induction;
    try (intros h f _; destruct f; reflexivity).
  - assert (Hgo : forall h H f,
               extends (fst (load_items items h)) H ->
               (length (fst (load_items items h)) - length h <= f)%nat ->
               all_some (map (reify f H) (snd (load_items items h))) = Some items).
    { induction IH as [|x r Hx Hr IHr]; intros h H f Hext Hf; [reflexivity|].
      rewrite load_items_cons in *.
      pose proof (Hx h) as Hx'. destruct (loads_appends x h) as [new1 E1].
      destruct (loads x h) as [h1 v]. cbn [fst snd] in *. subst h1.
      pose proof (IHr (h ++ new1)%list H f) as IHr'.
      destruct (load_items_appends r (h ++ new1)%list) as [new2 E2].
      destruct (load_items r (h ++ new1)%list) as [h2 vs]. cbn [fst snd] in *. subst h2.
      rewrite !length_app in *.
      cbn [map all_some].
      rewrite (reify_mono (length new1) f (h ++ new1)%list H v x);
        [|lia| |apply Hx'; lia].
      - rewrite IHr'; [reflexivity|exact Hext|lia].
      - eapply extends_trans; [apply extends_app|exact Hext]. }
    intros h f Hf. rewrite loads_list in *.
    pose proof (Hgo h) as Hgo'.
    destruct (load_items_appends items h) as [new E].
    destruct (load_items items h) as [h1 vs]. cbn [fst snd] in *. subst h1.
    rewrite !length_app in Hf. cbn [length] in Hf.
    destruct f as [|f]; [lia|]. cbn [reify].
    rewrite list_lookup_middle by reflexivity.
    rewrite Hgo'; [reflexivity|apply extends_app|rewrite length_app; lia].
  - assert (Hgo : forall h H f,
               extends (fst (load_fields kvs h)) H ->
               (length (fst (load_fields kvs h)) - length h <= f)%nat ->
               all_some (map (fun kv => match reify f H (snd kv) with
                                        | Some j => Some (fst kv, j)
                                        | None => None
                                        end) (snd (load_fields kvs h))) = Some kvs).
    { induction IH as [|[k x] r Hx Hr IHr]; intros h H f Hext Hf; [reflexivity|].
      rewrite load_fields_cons in *. cbn [snd] in Hx.
      pose proof (Hx h) as Hx'. destruct (loads_appends x h) as [new1 E1].
      destruct (loads x h) as [h1 v]. cbn [fst snd] in *. subst h1.
      pose proof (IHr (h ++ new1)%list H f) as IHr'.
      destruct (load_fields_appends r (h ++ new1)%list) as [new2 E2].
      destruct (load_fields r (h ++ new1)%list) as [h2 fs]. cbn [fst snd] in *. subst h2.
      rewrite !length_app in *.
      cbn [map all_some fst snd].
      rewrite (reify_mono (length new1) f (h ++ new1)%list H v x);
        [|lia| |apply Hx'; lia].
      - rewrite IHr'; [reflexivity|exact Hext|lia].
      - eapply extends_trans; [apply extends_app|exact Hext]. }
    intros h f Hf. rewrite loads_dict in *.
    pose proof (Hgo h) as Hgo'.
    destruct (load_fields_appends kvs h) as [new E].
    destruct (load_fields kvs h) as [h1 fs]. cbn [fst snd] in *. subst h1.
    rewrite !length_app in Hf. cbn [length] in Hf.
    destruct f as [|f]; [lia|]. cbn [reify].
    rewrite list_lookup_middle by reflexivity.
    rewrite Hgo'; [reflexivity|apply extends_app|rewrite length_app; lia].
Qed.

End Loading.

(** ** Nested assignment: outcome, round trip and frame *)

Section NestedAssignment.

Lemma set_by_path_snd (d : dict) (path_parts : list string) (value : json) :
  snd (_set_by_path d path_parts value)
  = match path_parts with
    | [] => Err IndexError
    | _ :: _ => if list_on_path d path_parts then Err TypeError else Ok tt
    end.
Proof.
  revert d. induction path_parts as [|p rest IH]; intros d; [reflexivity|].
  destruct rest as [|q rest]; [reflexivity|].
  change (_set_by_path d (p :: q :: rest) value)
    with (match dict_get p d with
          | Some (JDict cur) =>
              let '(cur', r) := _set_by_path cur (q :: rest) value in
              (dict_set p (JDict cur') d, r)
          | Some (JList _) => (d, Err TypeError)
          | _ =>
              let '(cur', r) := _set_by_path [] (q :: rest) value in
              (dict_set p (JDict cur') d, r)
          end).
  change (list_on_path d (p :: q :: rest))
    with (match dict_get p d with
          | Some (JDict cur) => list_on_path cur (q :: rest)
          | Some (JList _) => true
          | _ => false
          end).
  assert (Hnil : snd (_set_by_path [] (q :: rest) value) = Ok tt).
  { rewrite IH. destruct rest; reflexivity. }
  destruct (dict_get p d) as [[| | | | |l|cur]|];
    try (destruct (_set_by_path [] (q :: rest) value); exact Hnil);
    [reflexivity|].
  specialize (IH cur). destruct (_set_by_path cur (q :: rest) value). exact IH.
Qed.

Lemma set_by_path_unfold (d : dict) (p q : string) (rest : list string) (value : json) :
  _set_by_path d (p :: q :: rest) value
  = match dict_get p d with
    | Some (JDict cur) =>
        (dict_set p (JDict (fst (_set_by_path cur (q :: rest) value))) d,
         snd (_set_by_path cur (q :: rest) value))
    | Some (JList _) => (d, Err TypeError)
    | _ =>
        (dict_set p (JDict (fst (_set_by_path [] (q :: rest) value))) d,
         snd (_set_by_path [] (q :: rest) value))
    end.
Proof.
  change (_set_by_path d (p :: q :: rest) value)
    with (match dict_get p d with
          | Some (JDict cur) =>
              let '(cur', r) := _set_by_path cur (q :: rest) value in
              (dict_set p (JDict cur') d, r)
          | Some (JList _) => (d, Err TypeError)
          | _ =>
              let '(cur', r) := _set_by_path [] (q :: rest) value in
              (dict_set p (JDict cur') d, r)
          end).
  destruct (dict_get p d) as [[| | | | |l|cur]|]; try reflexivity;
    match goal with |- context [_set_by_path ?c ?r ?v] =>
      destruct (_set_by_path c r v); reflexivity end.
Qed.

Lemma set_by_path_fresh (path_parts : list string) (value : json) :
  path_parts <> [] -> snd (_set_by_path [] path_parts value) = Ok tt.
Proof.
  intros Hne. rewrite set_by_path_snd.
  destruct path_parts as [|p [|q rest]]; [congruence|reflexivity|reflexivity].
Qed.

Lemma set_by_path_keeps (d : dict) (path_parts : list string) (value : json) (e : exn) :
  snd (_set_by_path d path_parts value) = Err e ->
  fst (_set_by_path d path_parts value) = d.
Proof.
  revert d. induction path_parts as [|p rest IH]; intros d; [reflexivity|].
  destruct rest as [|q rest]; [discriminate|].
  rewrite set_by_path_unfold.
  destruct (dict_get p d) as [[| | | | |l|cur]|] eqn:Hp; cbn [fst snd];
    try (rewrite set_by_path_fresh by discriminate; discriminate);
    [reflexivity|].
  intros H. rewrite (IH cur H). apply dict_set_same, Hp.
Qed.

Lemma get_by_path_set (d : dict) (path_parts : list string) (value : json) :
  snd (_set_by_path d path_parts value) = Ok tt ->
  get_by_path path_parts (JDict (fst (_set_by_path d path_parts value))) = Some value.
Proof.
  revert d. induction path_parts as [|p rest IH]; intros d; [discriminate|].
  destruct rest as [|q rest].
  - intros _. cbn [_set_by_path fst get_by_path]. rewrite dict_get_set_eq. reflexivity.
  - rewrite set_by_path_unfold.
    destruct (dict_get p d) as [[| | | | |l|cur]|] eqn:Hp; cbn [fst snd];
      try discriminate;
      intros H; cbn [get_by_path]; rewrite dict_get_set_eq; apply IH, H.
Qed.

Lemma get_by_path_scalar (q : list string) (v : json) :
  q <> [] -> is_scalar v = true -> get_by_path q v = None.
Proof. destruct q; [congruence|]. destruct v; try discriminate; reflexivity. Qed.

Lemma get_by_path_empty (q : list string) : q <> [] -> get_by_path q (JDict []) = None.
Proof. destruct q; [congruence|reflexivity]. Qed.

Lemma diverge_nonempty (q p : list string) : diverge q p = true -> q <> [].
Proof. destruct q; [discriminate|congruence]. Qed.

Lemma get_by_path_frame (d : dict) (path_parts q : list string) (value : json) :
  diverge q path_parts = true ->
  get_by_path q (JDict (fst (_set_by_path d path_parts value)))
  = get_by_path q (JDict d).
Proof.
  revert d q. induction path_parts as [|p rest IH]; intros d q.
  - destruct q; discriminate.
  - destruct q as [|b q]; [discriminate|]. cbn [diverge].
    destruct (String.eqb b p) eqn:E.
    + apply String.eqb_eq in E. subst b. intros Hd.
      destruct rest as [|r rest]; [destruct q; discriminate|].
      pose proof (diverge_nonempty _ _ Hd) as Hq.
      rewrite set_by_path_unfold.
      destruct (dict_get p d) as [[| | | | |l|cur]|] eqn:Hp; cbn [fst get_by_path];
        rewrite ?dict_get_set_eq, ?Hp; try reflexivity;
        rewrite (IH _ _ Hd);
        try (rewrite get_by_path_empty by exact Hq;
             symmetry; apply get_by_path_scalar; [exact Hq|reflexivity]);
        try reflexivity.
      apply get_by_path_empty, Hq.
    + intros _. apply String.eqb_neq in E.
      assert (Hg : dict_get b (fst (_set_by_path d (p :: rest) value)) = dict_get b d).
      { destruct rest as [|r rest].
        - cbn [_set_by_path fst]. apply dict_get_set_ne, E.
        - rewrite set_by_path_unfold.
          destruct (dict_get p d) as [[| | | | |l|cur]|]; cbn [fst];
            try reflexivity; apply dict_get_set_ne, E. }
      cbn [get_by_path]. rewrite Hg. reflexivity.
Qed.

Lemma set_by_path_again (d : dict) (path_parts : list string) (v w : json) :
  snd (_set_by_path d path_parts v) = Ok tt ->
  _set_by_path (fst (_set_by_path d path_parts v)) path_parts w
  = _set_by_path d path_parts w.
Proof.
  revert d. induction path_parts as [|p rest IH]; intros d; [discriminate|].
  destruct rest as [|q rest].
  - intros _. cbn [_set_by_path fst]. rewrite dict_set_set. reflexivity.
  - rewrite (set_by_path_unfold d p q rest v), (set_by_path_unfold d p q rest w).
    destruct (dict_get p d) as [[| | | | |l|cur]|] eqn:Hp; cbn [fst snd];
      try discriminate;
      intros H; rewrite set_by_path_unfold, dict_get_set_eq, dict_set_set;
      rewrite (IH _ H); reflexivity.
Qed.

End NestedAssignment.

(** X1. [_set_by_path] returns exactly when the path is not empty and no
    list stands on it; it raises [IndexError] on the empty path and
    [TypeError] at a list, and whenever it raises, the dictionary is as it
    was. *)
Theorem set_by_path_outcome (d : dict) (path_parts : list string) (value : json) :
  snd (_set_by_path d path_parts value)
  = match path_parts with
    | [] => Err IndexError
    | _ :: _ => if list_on_path d path_parts then Err TypeError else Ok tt
    end
  /\ (forall e : exn,
        snd (_set_by_path d path_parts value) = Err e ->
        fst (_set_by_path d path_parts value) = d).
Proof.
  split; [apply set_by_path_snd|]. intros e. apply set_by_path_keeps.
Qed.

(** X2. What [_set_by_path] has written is read back along the same path:
    whenever it returns, the value is at the path. *)
Theorem set_by_path_read_back
  (d d' : dict) (path_parts : list string) (value : json) :
  _set_by_path d path_parts value = (d', Ok tt) ->
  get_by_path path_parts (JDict d') = Some value.
Proof.
  intros H. pose proof (get_by_path_set d path_parts value) as G.
  rewrite H in G. apply G. reflexivity.
Qed.

Lemma set_by_path_read_back_witness :
  _set_by_path [("company", JInt 7)] ["company"; "address"; "city"] (JStr "Vigo")
  = ([("company", JDict [("address", JDict [("city", JStr "Vigo")])])], Ok tt)
  /\ get_by_path ["company"; "address"; "city"]
       (JDict [("company", JDict [("address", JDict [("city", JStr "Vigo")])])])
     = Some (JStr "Vigo").
Proof.
  split; [reflexivity|].
  apply (set_by_path_read_back [("company", JInt 7)] _ _ (JStr "Vigo")). reflexivity.
Defined.

(** X3. [_set_by_path] leaves alone whatever lies off its path: reading
    along a path that parts ways with the one written gives the same
    before and after, whether the assignment returns or raises. *)
Theorem set_by_path_frame
  (d : dict) (path_parts q : list string) (value : json) :
  diverge q path_parts = true ->
  get_by_path q (JDict (fst (_set_by_path d path_parts value)))
  = get_by_path q (JDict d).
Proof. apply get_by_path_frame. Qed.

Lemma set_by_path_frame_witness :
  get_by_path ["tables"; "irpf_year"]
    (JDict (fst (_set_by_path [("tables", JDict [("irpf_year", JInt 2025)])]
                   ["tables"; "cotization_year"] (JInt 2024))))
  = Some (JInt 2025).
Proof.
  rewrite (set_by_path_frame [("tables", JDict [("irpf_year", JInt 2025)])]
             ["tables"; "cotization_year"] ["tables"; "irpf_year"] (JInt 2024));
    reflexivity.
Defined.

(** X4. The last write wins: assigning at a path, then again at the same
    path, leaves what the second assignment alone would have left. *)
Theorem set_by_path_overwrite
  (d d1 : dict) (path_parts : list string) (v w : json) :
  _set_by_path d path_parts v = (d1, Ok tt) ->
  _set_by_path d1 path_parts w = _set_by_path d path_parts w.
Proof.
  intros H. pose proof (set_by_path_again d path_parts v w) as G.
  rewrite H in G. apply G. reflexivity.
Qed.

Lemma set_by_path_overwrite_witness :
  _set_by_path [("worker", JDict [("nif", JStr "X")])] ["worker"; "nif"] (JStr "Y")
  = _set_by_path [] ["worker"; "nif"] (JStr "Y").
Proof.
  apply (set_by_path_overwrite [] _ ["worker"; "nif"] (JStr "X") (JStr "Y")). reflexivity.
Defined.

(** X5. An intermediate key bound to a number, a text, a boolean or [None]
    loses its value: [_set_by_path] binds it to a new dictionary that holds
    nothing but the rest of the path. *)
Theorem set_by_path_replaces_scalar
  (d : dict) (p q : string) (rest : list string) (s value : json) :
  dict_get p d = Some s ->
  is_scalar s = true ->
  exists c : dict,
    _set_by_path [] (q :: rest) value = (c, Ok tt)
    /\ _set_by_path d (p :: q :: rest) value = (dict_set p (JDict c) d, Ok tt).
Proof.
  intros Hp Hs. exists (fst (_set_by_path [] (q :: rest) value)).
  pose proof (set_by_path_fresh (q :: rest) value ltac:(discriminate)) as Hf.
  split.
  - rewrite <- Hf. apply surjective_pairing.
  - rewrite set_by_path_unfold, Hp, Hf. destruct s; try discriminate; reflexivity.
Qed.

Lemma set_by_path_replaces_scalar_witness :
  exists c : dict,
    _set_by_path [] ["nif"] (JStr "Z") = (c, Ok tt)
    /\ _set_by_path [("worker", JStr "Ana")] ["worker"; "nif"] (JStr "Z")
       = (dict_set "worker" (JDict c) [("worker", JStr "Ana")], Ok tt).
Proof.
  apply (set_by_path_replaces_scalar [("worker", JStr "Ana")] "worker" "nif" []
           (JStr "Ana") (JStr "Z")); reflexivity.
Defined.

(** ** The detector as a whole *)

Section DetectorWhole.

Lemma sublist_append_if (b : bool) (m : MissingField) (l : list MissingField)
  (ps : list string) :
  sublist (map path l) ps ->
  sublist (map path (append_if b m l)) (ps ++ [path m])%list.
Proof.
  intros H. unfold append_if. destruct b.
  - rewrite map_app. apply sublist_app; [exact H|reflexivity].
  - apply sublist_inserts_r, H.
Qed.

Lemma in_paths_append_if (p : string) (b : bool) (m : MissingField)
  (l : list MissingField) :
  In p (map path (append_if b m l))
  <-> In p (map path l) \/ (b = true /\ p = path m).
Proof.
  unfold append_if. destruct b.
  - rewrite map_app, in_app_iff. cbn [map In]. intuition congruence.
  - intuition congruence.
Qed.

Lemma in_paths_gaps_of (p : string) (b1 b2 b3 b4 b5 b6 b7 : bool) (py : json) :
  In p (map path (gaps_of b1 b2 b3 b4 b5 b6 b7 py))
  <-> (b1 = true /\ p = "compensation.plus_convenio_amount")
      \/ (b2 = true /\ p = "company.atep_tariff_pct")
      \/ (b3 = true /\ p = "tables.cotization_year")
      \/ (b4 = true /\ p = "tables.irpf_year")
      \/ (b5 = true /\ p = "compensation.base_salary_cra_code")
      \/ (b6 = true /\ p = "worker.nif")
      \/ (b7 = true /\ p = "region_config.irpf_regime").
Proof.
  unfold gaps_of. rewrite !in_paths_append_if. cbn [map In path gap_plus_convenio
    gap_atep gap_cotization_year gap_irpf_year gap_cra gap_nif gap_regime].
  tauto.
Qed.

Lemma in_paths_gaps_of_each (b1 b2 b3 b4 b5 b6 b7 : bool) (py : json) :
  let gaps := map path (gaps_of b1 b2 b3 b4 b5 b6 b7 py) in
  (In "compensation.plus_convenio_amount" gaps <-> b1 = true)
  /\ (In "company.atep_tariff_pct" gaps <-> b2 = true)
  /\ (In "tables.cotization_year" gaps <-> b3 = true)
  /\ (In "tables.irpf_year" gaps <-> b4 = true)
  /\ (In "compensation.base_salary_cra_code" gaps <-> b5 = true)
  /\ (In "worker.nif" gaps <-> b6 = true)
  /\ (In "region_config.irpf_regime" gaps <-> b7 = true).
Proof.
  cbv zeta. repeat split;
    try (rewrite in_paths_gaps_of; intros Hor; decompose [or and] Hor;
         try discriminate; assumption);
    intros ->; apply in_paths_gaps_of;
    repeat (first [left; split; reflexivity | right]); split; reflexivity.
Qed.

Lemma field_unset_unset2 (k1 k2 : string) (d : dict) (b : bool) :
  field_unset k1 k2 d = Ok b -> unset2 k1 k2 d = b.
Proof.
  unfold field_unset, unset2, dict_get_or. cbn [get_by_path].
  destruct (dict_get k1 d) as [[| | | | | |c]|]; cbn [py_get bind_result];
    try discriminate; unfold dict_get_or.
  - destruct (dict_get k2 c); intros [= <-]; reflexivity.
  - intros [= <-]. reflexivity.
Qed.

Lemma unset2_of_section (k1 k2 : string) (d : dict) (c : dict) :
  dict_get k1 (fst (dict_setdefault k1 (JDict []) d)) = Some (JDict c) ->
  unset2 k1 k2 d = negb (truthy (dict_get_or k2 JNull c)).
Proof.
  intros H. unfold unset2, dict_get_or. cbn [get_by_path].
  destruct (setdefault_cases _ _ _ H) as [->|[-> [= ->]]].
  - destruct (dict_get k2 c); reflexivity.
  - reflexivity.
Qed.

Lemma has_plus_in_probed (k1 k2 : string) (d : dict) :
  k1 <> "company" -> k1 <> "tables" ->
  has_plus_in k1 k2 (probed d) = has_plus_in k1 k2 d.
Proof.
  intros H1 H2. unfold has_plus_in, dict_get_or.
  rewrite probed_other by assumption. reflexivity.
Qed.

Lemma probed_company (d : dict) :
  dict_get "company" (probed d)
  = dict_get "company" (fst (dict_setdefault "company" (JDict []) d)).
Proof. unfold probed. apply dict_setdefault_other. discriminate. Qed.

Lemma probed_keeps (k : string) (v : json) (d : dict) :
  dict_get k d = Some v -> dict_get k (probed d) = Some v.
Proof.
  intros H. unfold probed, dict_setdefault.
  destruct (dict_get "company" d) eqn:Hc; cbn [fst].
  - destruct (dict_get "tables" d) eqn:Ht; cbn [fst]; [exact H|].
    rewrite dict_get_set_ne; [exact H|]. intros ->. congruence.
  - assert (Hk : k <> "company") by (intros ->; congruence).
    destruct (dict_get "tables" (dict_set "company" (JDict []) d)) eqn:Ht; cbn [fst].
    + rewrite dict_get_set_ne by exact Hk. exact H.
    + rewrite dict_get_set_ne in Ht by discriminate.
      rewrite !dict_get_set_ne; [exact H|exact Hk|]. intros ->. congruence.
Qed.

Lemma probed_present (d : dict) (c t : json) :
  dict_get "company" d = Some c -> dict_get "tables" d = Some t -> probed d = d.
Proof.
  intros Hc Ht. unfold probed, dict_setdefault. rewrite Hc. cbn [fst].
  rewrite Ht. reflexivity.
Qed.

Lemma probed_has (d : dict) :
  dict_has "company" (probed d) = true /\ dict_has "tables" (probed d) = true.
Proof.
  unfold dict_has. split.
  - rewrite probed_company. unfold dict_setdefault.
    destruct (dict_get "company" d) eqn:E; cbn [fst];
      [rewrite E|rewrite dict_get_set_eq]; reflexivity.
  - unfold probed.
    destruct (dict_setdefault "tables" (JDict [])
                (fst (dict_setdefault "company" (JDict []) d))) as [d' v] eqn:E.
    cbn [fst]. rewrite (dict_setdefault_get _ _ _ _ _ E). reflexivity.
Qed.

Lemma read2_section_dict (k1 k2 : string) (dflt r v : json) (d : dict) :
  read2 k1 k2 dflt d = Ok r -> dict_get k1 d = Some v -> exists c, v = JDict c.
Proof.
  unfold read2, dict_get_or. intros H Hv. rewrite Hv in H.
  destruct v; try discriminate. eauto.
Qed.

Lemma has_plus_in_section_dict (k1 k2 : string) (r : bool) (v : json) (d : dict) :
  has_plus_in k1 k2 d = Ok r -> dict_get k1 d = Some v -> exists c, v = JDict c.
Proof.
  unfold has_plus_in, dict_get_or. intros H Hv. rewrite Hv in H.
  destruct v; try discriminate. eauto.
Qed.

Lemma field_unset_section_dict (k1 k2 : string) (r : bool) (v : json) (d : dict) :
  field_unset k1 k2 d = Ok r -> dict_get k1 d = Some v -> exists c, v = JDict c.
Proof.
  unfold field_unset, dict_get_or. intros H Hv. rewrite Hv in H.
  destruct v; try discriminate. eauto.
Qed.

Lemma sublist_gaps_of (b1 b2 b3 b4 b5 b6 b7 : bool) (py : json) :
  sublist (map path (gaps_of b1 b2 b3 b4 b5 b6 b7 py)) detector_paths.
Proof.
  unfold gaps_of.
  change detector_paths
    with ((((((([] ++ [path gap_plus_convenio]) ++ [path gap_atep])
               ++ [path (gap_cotization_year py)]) ++ [path (gap_irpf_year py)])
             ++ [path gap_cra]) ++ [path gap_nif]) ++ [path gap_regime])%list.
  repeat apply sublist_append_if. constructor.
Qed.

Lemma reported_iff_fires
  (d d1 : dict) (gaps : list MissingField) (p : string) :
  detect_missing d = (d1, Ok gaps) ->
  In p detector_paths ->
  (In p (map path gaps) <-> rule_fires p d).
Proof.
  intros H Hp.
  destruct (detect_missing_inv d d1 gaps H)
    as (a & b & company & tables & py & b5 & b6 & b7
        & Ha & Hb & Hd1 & Hco & Hta & Hpy & H5 & H6 & H7 & ->).
  subst d1.
  rewrite field_unset_probed in H5, H6, H7 by discriminate.
  apply field_unset_unset2 in H5, H6, H7.
  unfold probed in Hta.
  pose proof (unset2_of_section "company" "cnae" d company Hco) as Hcnae.
  pose proof (unset2_of_section "company" "atep_tariff_pct" d company Hco) as Hatep.
  assert (Hta' : dict_get "tables" (fst (dict_setdefault "tables" (JDict []) d))
                 = Some (JDict tables)).
  { destruct (setdefault_cases _ _ _ Hta) as [E|[E ->]];
      rewrite dict_setdefault_other in E by discriminate;
      unfold dict_setdefault; rewrite E; cbn [fst];
      [exact E|apply dict_get_set_eq]. }
  pose proof (unset2_of_section "tables" "cotization_year" d tables Hta') as Hcot.
  pose proof (unset2_of_section "tables" "irpf_year" d tables Hta') as Hirpf.
  destruct (in_paths_gaps_of_each (a && negb b) (no_tariff company)
              (negb (truthy (dict_get_or "cotization_year" JNull tables)))
              (negb (truthy (dict_get_or "irpf_year" JNull tables)))
              b5 b6 b7 py) as (I1 & I2 & I3 & I4 & I5 & I6 & I7).
  cbn [detector_paths In] in Hp.
  destruct Hp as [<-|[<-|[<-|[<-|[<-|[<-|[<-|[]]]]]]]];
    unfold rule_fires; cbn [String.eqb Ascii.eqb Bool.eqb].
  - rewrite I1, Ha, Hb. destruct a, b; cbn [andb negb];
      split; try discriminate; try (intros [? ?]; discriminate); auto.
  - change (unset_at "company.cnae" d) with (unset2 "company" "cnae" d).
    change (unset_at "company.atep_tariff_pct" d)
      with (unset2 "company" "atep_tariff_pct" d).
    rewrite I2, Hcnae, Hatep. unfold no_tariff. apply andb_true_iff.
  - change (unset_at "tables.cotization_year" d)
      with (unset2 "tables" "cotization_year" d).
    rewrite I3, Hcot. reflexivity.
  - change (unset_at "tables.irpf_year" d) with (unset2 "tables" "irpf_year" d).
    rewrite I4, Hirpf. reflexivity.
  - change (unset_at "compensation.base_salary_cra_code" d)
      with (unset2 "compensation" "base_salary_cra_code" d).
    rewrite I5, H5. reflexivity.
  - change (unset_at "worker.nif" d) with (unset2 "worker" "nif" d).
    rewrite I6, H6. reflexivity.
  - change (unset_at "region_config.irpf_regime" d)
      with (unset2 "region_config" "irpf_regime" d).
    rewrite I7, H7. reflexivity.
Qed.

End DetectorWhole.

(** X6. The detector returns at most seven gaps, with distinct paths, in
    the fixed order of its rules: the paths of the gaps are a subsequence
    of the seven paths. *)
Theorem detect_missing_order (d d1 : dict) (gaps : list MissingField) :
  detect_missing d = (d1, Ok gaps) ->
  sublist (map path gaps) detector_paths.
Proof.
  intros H.
  destruct (detect_missing_inv d d1 gaps H)
    as (a & b & company & tables & py & b5 & b6 & b7 & _ & _ & _ & _ & _ & _ & _ & _ & _ & ->).
  apply sublist_gaps_of.
Qed.

Lemma detect_missing_order_witness :
  sublist ["company.atep_tariff_pct"; "tables.cotization_year"; "tables.irpf_year";
           "compensation.base_salary_cra_code"; "region_config.irpf_regime"]
    detector_paths.
Proof.
  apply (detect_missing_order sample_region (probed sample_region)
           (gaps_of false true true true true false true JNull)).
  vm_compute. reflexivity.
Defined.

(** X7. The only thing the detector changes in the caller's payload is to
    bind [company] and [tables] to an empty dictionary when they are
    absent: afterwards both keys are there, every binding of the payload is
    as it was, no other key is added, and a payload that has both keys is
    left untouched. *)
Theorem detect_missing_side_effect (d d1 : dict) (gaps : list MissingField) :
  detect_missing d = (d1, Ok gaps) ->
  dict_has "company" d1 = true
  /\ dict_has "tables" d1 = true
  /\ (forall k v, dict_get k d = Some v -> dict_get k d1 = Some v)
  /\ (forall k, k <> "company" -> k <> "tables" -> dict_get k d1 = dict_get k d)
  /\ (dict_has "company" d = true -> dict_has "tables" d = true -> d1 = d).
Proof.
  intros H.
  destruct (detect_missing_inv d d1 gaps H)
    as (a & b & company & tables & py & b5 & b6 & b7 & _ & _ & -> & _).
  destruct (probed_has d) as [Hc Ht].
  repeat split; try assumption.
  - intros k v. apply probed_keeps.
  - intros k. apply probed_other.
  - unfold dict_has. intros H1 H2.
    destruct (dict_get "company" d) eqn:E1; [|discriminate].
    destruct (dict_get "tables" d) eqn:E2; [|discriminate].
    eapply probed_present; eassumption.
Qed.

Lemma detect_missing_side_effect_witness :
  dict_has "company" (probed sample_region) = true
  /\ dict_has "tables" (probed sample_region) = true
  /\ (forall k v, dict_get k sample_region = Some v
                  -> dict_get k (probed sample_region) = Some v)
  /\ (forall k, k <> "company" -> k <> "tables"
                -> dict_get k (probed sample_region) = dict_get k sample_region)
  /\ (dict_has "company" sample_region = true -> dict_has "tables" sample_region = true
      -> probed sample_region = sample_region).
Proof.
  apply (detect_missing_side_effect sample_region (probed sample_region)
           (gaps_of false true true true true false true JNull)).
  vm_compute. reflexivity.
Defined.

(** X8. Detection is idempotent: run again on the payload it has left, the
    detector returns the same gaps and changes nothing. *)
Theorem detect_missing_idempotent (d d1 : dict) (gaps : list MissingField) :
  detect_missing d = (d1, Ok gaps) ->
  detect_missing d1 = (d1, Ok gaps).
Proof.
  intros H.
  destruct (detect_missing_inv d d1 gaps H)
    as (a & b & company & tables & py & b5 & b6 & b7
        & Ha & Hb & Hd1 & Hco & Hta & Hpy & H5 & H6 & H7 & ->).
  subst d1.
  apply detect_missing_intro; try assumption.
  - rewrite has_plus_in_probed by discriminate. exact Ha.
  - rewrite has_plus_in_probed by discriminate. exact Hb.
  - rewrite probed_company. exact Hco.
  - unfold read2, dict_get_or in *. rewrite probed_other by discriminate.
    rewrite dict_setdefault_other in Hpy by discriminate. exact Hpy.
Qed.

Lemma detect_missing_idempotent_witness :
  detect_missing (probed sample_region)
  = (probed sample_region, Ok (gaps_of false true true true true false true JNull)).
Proof.
  apply (detect_missing_idempotent sample_region). vm_compute. reflexivity.
Defined.

(** X9. The detector returns only on a payload whose sections are
    dictionaries: if [collective_agreement], [compensation], [company],
    [period], [tables], [worker] or [region_config] is bound to anything
    else ([None] included), the detector raises. *)
Theorem detect_missing_needs_sections
  (d d1 : dict) (gaps : list MissingField) (k : string) (v : json) :
  detect_missing d = (d1, Ok gaps) ->
  In k detector_sections ->
  dict_get k d = Some v ->
  exists c : dict, v = JDict c.
Proof.
  intros H Hk Hv.
  destruct (detect_missing_inv d d1 gaps H)
    as (a & b & company & tables & py & b5 & b6 & b7
        & Ha & Hb & Hd1 & Hco & Hta & Hpy & H5 & H6 & H7 & _).
  subst d1.
  rewrite field_unset_probed in H6, H7 by discriminate.
  cbn [detector_sections In] in Hk.
  destruct Hk as [<-|[<-|[<-|[<-|[<-|[<-|[<-|[]]]]]]]].
  - eapply has_plus_in_section_dict; [exact Ha|exact Hv].
  - eapply has_plus_in_section_dict; [exact Hb|exact Hv].
  - destruct (setdefault_cases _ _ _ Hco) as [E|[E _]]; rewrite Hv in E.
    + injection E as ->. eauto.
    + discriminate.
  - eapply read2_section_dict; [exact Hpy|].
    rewrite dict_setdefault_other by discriminate. exact Hv.
  - unfold probed in Hta. destruct (setdefault_cases _ _ _ Hta) as [E|[E _]];
      rewrite dict_setdefault_other in E by discriminate; rewrite Hv in E.
    + injection E as ->. eauto.
    + discriminate.
  - eapply field_unset_section_dict; [exact H6|exact Hv].
  - eapply field_unset_section_dict; [exact H7|exact Hv].
Qed.

Lemma detect_missing_needs_sections_witness :
  exists c : dict, JDict [("nif", JStr "12345678Z")] = JDict c.
Proof.
  apply (detect_missing_needs_sections sample_region (probed sample_region)
           (gaps_of false true true true true false true JNull) "worker").
  - vm_compute. reflexivity.
  - cbn. tauto.
  - reflexivity.
Defined.

(** X10. A gap is reported exactly when its rule fires.  On a payload on
    which the detector returns, each of the seven paths is among the gaps
    if and only if: for the allowance, an allowance is named Plus Convenio
    and no variable-pay item is; for the tariff, neither [company.cnae] nor
    the tariff is set; for any other path, the field is not set (absent, or
    false for Python). *)
Theorem detect_missing_exact
  (d d1 : dict) (gaps : list MissingField) (p : string) :
  detect_missing d = (d1, Ok gaps) ->
  In p detector_paths ->
  (In p (map path gaps) <-> rule_fires p d).
Proof. apply reported_iff_fires. Qed.

Lemma detect_missing_exact_witness :
  In "worker.nif" (map path (gaps_of false true true true true false true JNull))
  <-> rule_fires "worker.nif" sample_region.
Proof.
  apply (detect_missing_exact sample_region (probed sample_region)).
  - vm_compute. reflexivity.
  - cbn. tauto.
Defined.

(** ** Names in any letter-casing *)

Section Casing.

Lemma in_all_ascii (c : ascii) : In c (map ascii_of_nat (seq 0 256)).
Proof.
  rewrite <- (ascii_nat_embedding c). apply in_map, in_seq.
  pose proof (nat_ascii_bounded c). lia.
Qed.

(** Letter-casing is what [str.lower] removes. *)
Lemma same_letter_lower (a b : ascii) :
  same_letter a b = Ascii.eqb (PyStr.lower_char a) (PyStr.lower_char b).
Proof.
  assert (H : forallb (fun a => forallb (fun b =>
                Bool.eqb (same_letter a b)
                  (Ascii.eqb (PyStr.lower_char a) (PyStr.lower_char b)))
                (map ascii_of_nat (seq 0 256)))
                (map ascii_of_nat (seq 0 256)) = true)
    by (vm_compute; reflexivity).
  rewrite forallb_forall in H. specialize (H a (in_all_ascii a)).
  rewrite forallb_forall in H. specialize (H b (in_all_ascii b)).
  apply Bool.eqb_prop, H.
Qed.

Lemma same_text_lower (s t : string) :
  same_text s t = String.eqb (PyStr.lower s) (PyStr.lower t).
Proof.
  revert t. induction s as [|a s IH]; intros [|b t]; cbn; try reflexivity.
  rewrite same_letter_lower, IH.
  destruct (Ascii.eqb (PyStr.lower_char a) (PyStr.lower_char b)); reflexivity.
Qed.

Lemma same_text_plus_convenio (s : string) :
  same_text s "Plus Convenio" = String.eqb (PyStr.lower s) "plus convenio".
Proof. apply same_text_lower. Qed.

(** The test of the scans is the name in any letter-casing. *)
Lemma is_plus_convenio_named (it : json) (b : bool) :
  is_plus_convenio it = Ok b -> named "Plus Convenio" it = b.
Proof.
  unfold is_plus_convenio, named.
  destruct it as [| | | | | |f]; try discriminate.
  cbn [py_get bind_result]. unfold dict_get_or.
  destruct (dict_get "name" f) as [[| | | |s| |]|]; try discriminate.
  - rewrite same_text_plus_convenio. intros [= <-]. reflexivity.
  - intros [= <-]. reflexivity.
Qed.

Lemma is_plus_convenio_labelled (it : json) :
  labelled it = true -> is_plus_convenio it = Ok (named "Plus Convenio" it).
Proof.
  unfold is_plus_convenio, named, labelled.
  destruct it as [| | | | | |f]; try discriminate.
  cbn [py_get bind_result]. unfold dict_get_or.
  destruct (dict_get "name" f) as [[| | | |s| |]|]; try discriminate; intros _.
  - rewrite same_text_plus_convenio. reflexivity.
  - reflexivity.
Qed.

Lemma named_labelled (label : string) (it : json) :
  named label it = true -> labelled it = true.
Proof.
  unfold named, labelled. destruct it as [| | | | | |f]; try discriminate.
  destruct (dict_get "name" f) as [[| | | |s| |]|]; try discriminate. reflexivity.
Qed.

(** A scan that finds nothing has read every item, and none has the
    name. *)
Lemma any_plus_convenio_none (l : list json) :
  any_plus_convenio l = Ok false -> existsb (named "Plus Convenio") l = false.
Proof.
  induction l as [|x l IH]; [reflexivity|]. cbn [any_plus_convenio existsb].
  destruct (is_plus_convenio x) as [[]|e] eqn:Hx; cbn [bind_result]; try discriminate.
  intros Hl. rewrite (is_plus_convenio_named x false Hx), (IH Hl). reflexivity.
Qed.

Lemma any_plus_convenio_labelled (l : list json) :
  forallb labelled l = true ->
  any_plus_convenio l = Ok (existsb (named "Plus Convenio") l).
Proof.
  induction l as [|x l IH]; [reflexivity|]. cbn [forallb any_plus_convenio existsb].
  intros H. apply andb_true_iff in H as [Hx Hl].
  rewrite (is_plus_convenio_labelled x Hx). cbn [bind_result].
  destruct (named "Plus Convenio" x); [reflexivity|]. apply IH, Hl.
Qed.

(** The scan stops at the first item with the name: what follows it is not
    read. *)
Lemma any_plus_convenio_found (pre post : list json) (it : json) :
  forallb labelled pre = true ->
  named "Plus Convenio" it = true ->
  any_plus_convenio (pre ++ it :: post) = Ok true.
Proof.
  intros Hpre Hit. induction pre as [|x pre IH]; cbn [app any_plus_convenio].
  - rewrite (is_plus_convenio_labelled it (named_labelled _ it Hit)), Hit. reflexivity.
  - cbn [forallb] in Hpre. apply andb_true_iff in Hpre as [Hx Hpre].
    rewrite (is_plus_convenio_labelled x Hx). cbn [bind_result].
    destruct (named "Plus Convenio" x); [reflexivity|]. apply IH, Hpre.
Qed.

Lemma list_at_read2 (k1 k2 : string) (d : dict) (l : list json) :
  list_at k1 k2 d l -> read2 k1 k2 (JList []) d = Ok (JList l).
Proof.
  unfold list_at, read2, dict_get_or.
  destruct (dict_get k1 d) as [[| | | | | |c]|]; try contradiction; cbn [py_get].
  - unfold dict_get_or. destruct (dict_get k2 c); intros ->; reflexivity.
  - cbn [dict_get]. intros ->. reflexivity.
Qed.

End Casing.

(** ** When the detector returns *)

Section DetectorReturns.

Lemma setdefault_section (k : string) (d : dict) :
  is_section d k = true ->
  exists c : dict, snd (dict_setdefault k (JDict []) d) = JDict c.
Proof.
  unfold is_section, dict_setdefault.
  destruct (dict_get k d) as [[| | | | | |c]|]; try discriminate; intros _;
    eexists; reflexivity.
Qed.

Lemma is_section_setdefault (k k' : string) (d : dict) :
  is_section d k' = true ->
  is_section (fst (dict_setdefault k (JDict []) d)) k' = true.
Proof.
  intros H. unfold is_section.
  destruct (string_dec k' k) as [->|Hne].
  - unfold dict_setdefault. unfold is_section in H.
    destruct (dict_get k d) as [v|] eqn:E; cbn [fst].
    + rewrite E. exact H.
    + rewrite dict_get_set_eq. reflexivity.
  - rewrite dict_setdefault_other by exact Hne. exact H.
Qed.

Lemma read2_section (k1 k2 : string) (dflt : json) (d : dict) :
  is_section d k1 = true -> exists r, read2 k1 k2 dflt d = Ok r.
Proof.
  unfold is_section, read2, dict_get_or.
  destruct (dict_get k1 d) as [[| | | | | |c]|]; try discriminate; intros _;
    eexists; reflexivity.
Qed.

Lemma field_unset_section (k1 k2 : string) (d : dict) :
  is_section d k1 = true -> exists b, field_unset k1 k2 d = Ok b.
Proof.
  intros H. rewrite field_unset_read2.
  destruct (read2_section k1 k2 JNull d H) as [r ->]. eexists. reflexivity.
Qed.

(** The detector returns when its two scans do and every section it reads
    is a dictionary or is not there. *)
Lemma detect_missing_returns (d : dict) (a b : bool) :
  forallb (is_section d) detector_sections = true ->
  has_plus_in "collective_agreement" "allowances" d = Ok a ->
  has_plus_in "compensation" "variables" d = Ok b ->
  exists (b2 b3 b4 b5 b6 b7 : bool) (py : json),
    detect_missing d
    = (probed d, Ok (gaps_of (a && negb b) b2 b3 b4 b5 b6 b7 py)).
Proof.
  intros Hs Ha Hb. rewrite forallb_forall in Hs.
  assert (Hin : forall k, In k detector_sections -> forall da,
             da = fst (dict_setdefault "company" (JDict []) d) ->
             is_section da k = true
             /\ is_section (fst (dict_setdefault "tables" (JDict []) da)) k = true).
  { intros k Hk da ->. split; repeat apply is_section_setdefault; apply Hs, Hk. }
  unfold detect_missing, bind, lift, get, ret, setdefault_dict, probed.
  rewrite Ha, Hb.
  destruct (setdefault_section "company" d) as [company Hco];
    [apply Hs; cbn; tauto|].
  destruct (dict_setdefault "company" (JDict []) d) as [da company'] eqn:Eco.
  cbn [fst snd] in *. subst company'. cbn [py_get].
  destruct (read2_section "period" "year" JNull da) as [py Hpy];
    [apply (Hin "period"); [cbn; tauto|reflexivity]|].
  unfold read2 in Hpy.
  destruct (setdefault_section "tables" da) as [tables Hta];
    [apply (Hin "tables"); [cbn; tauto|reflexivity]|].
  destruct (field_unset_section "compensation" "base_salary_cra_code"
              (fst (dict_setdefault "tables" (JDict []) da))) as [b5 H5];
    [apply (Hin "compensation"); [cbn; tauto|reflexivity]|].
  destruct (field_unset_section "worker" "nif"
              (fst (dict_setdefault "tables" (JDict []) da))) as [b6 H6];
    [apply (Hin "worker"); [cbn; tauto|reflexivity]|].
  destruct (field_unset_section "region_config" "irpf_regime"
              (fst (dict_setdefault "tables" (JDict []) da))) as [b7 H7];
    [apply (Hin "region_config"); [cbn; tauto|reflexivity]|].
  destruct (dict_setdefault "tables" (JDict []) da) as [db tables'] eqn:Eta.
  cbn [fst snd] in *. subst tables'.
  destruct (negb (truthy (dict_get_or "cnae" JNull company)));
    rewrite Hpy, Eta; cbn [py_get]; rewrite H5, H6, H7;
    do 7 eexists; reflexivity.
Qed.

End DetectorReturns.

(** ** The allowance special case on the document *)

Section Routing.

Lemma get2_nest_set_other (k1 k2 x y : string) (v : json) (d : dict) :
  (k1, k2) <> (x, y) ->
  get_by_path [k1; k2] (JDict (nest_set x y v d)) = get_by_path [k1; k2] (JDict d).
Proof.
  intros Hne. unfold nest_set, sub. cbn [get_by_path]. rewrite dict_get_set.
  destruct (String.eqb k1 x) eqn:E1; [|reflexivity].
  apply String.eqb_eq in E1. subst x.
  assert (E2 : k2 <> y) by congruence.
  destruct (dict_get k1 d) as [[| | | | | |c]|];
    rewrite dict_get_set_ne by exact E2; reflexivity.
Qed.

(** The generic assignments leave alone a field that none of them names. *)
Lemma apply_values_get_other (k1 k2 : string)
  (gvs : list (MissingField * json)) (d d' : dict) :
  Forall (fun mv => simple_gap (fst mv)) gvs ->
  Forall (fun mv => key_of (fst mv) <> Some (k1, k2)) gvs ->
  apply_values gvs d = (d', Ok tt) ->
  get_by_path [k1; k2] (JDict d') = get_by_path [k1; k2] (JDict d).
Proof.
  revert d. induction gvs as [|[m v] gvs IH]; intros d Hs Hk Ha.
  - injection Ha as <-. reflexivity.
  - inversion Hs as [|? ? [Hp (x & y & Hxy)] Hs']; subst.
    inversion Hk as [|? ? Hne Hk']; subst. cbn [fst] in Hne, Hp, Hxy.
    cbn [apply_values] in Ha. unfold bind in Ha.
    destruct (apply_value m v d) as [d0 [[]|e]] eqn:Hav; [|discriminate].
    apply (apply_value_simple _ _ _ _ x y Hp Hxy) in Hav. subst d0.
    rewrite (IH _ Hs' Hk' Ha). apply get2_nest_set_other.
    intros [= -> ->]. exact (Hne Hxy).
Qed.

Lemma is_section_not_list (k : string) (d : dict) :
  is_section d k = true -> not_list_at k d.
Proof. unfold is_section. intros H l Hl. rewrite Hl in H. discriminate. Qed.

Lemma is_section_probed (k : string) (d : dict) :
  is_section d k = true -> is_section (probed d) k = true.
Proof. intros H. unfold probed. repeat apply is_section_setdefault. exact H. Qed.

End Routing.

(** C4, as stated, fails: with an allowance named Plus Convenio and variable
    pay that is an empty dictionary, no entry has the name, the detector
    reports the gap, and the resolver raises at [vars_.append] (line 267). *)
Lemma plus_convenio_not_routed :
  get_by_path ["collective_agreement"; "allowances"] (JDict sample_variables_dict)
  = Some (JList [JDict [("name", JStr "PLUS Convenio")]])
  /\ named "Plus Convenio" (JDict [("name", JStr "PLUS Convenio")]) = true
  /\ get_by_path ["compensation"; "variables"] (JDict sample_variables_dict)
     = Some (JDict [])
  /\ ~ routes_plus_convenio sample_variables_dict (mkConsole [] []).
Proof.
  split; [reflexivity|]. split; [reflexivity|]. split; [reflexivity|].
  intros (d1 & d2 & rest & con' & w & l & Hdet & _ & Hres & _).
  vm_compute in Hdet. injection Hdet as <- <-.
  vm_compute in Hres. discriminate Hres.
Qed.

(** C4, amended. Take a document in which every section the detector reads
    is a dictionary or is not there, whose allowances are a list with an
    item named Plus Convenio in some letter-casing, the items before it
    being dictionaries whose name is a text or is not there, and whose
    variable-pay entries are a list (an absent list counts as empty) of
    such dictionaries, none of them named Plus Convenio in any
    letter-casing.  On it the detector returns, with the gap of the monthly
    amount as its first gap and no other gap of that path.  Resolving that
    gap under "default", alone or with the other gaps of the detector,
    returns, with the console as it was; it appends to
    [compensation.variables] the item named Plus Convenio, taxable and
    contributory, with code C02 and amount 0.0, and leaves what the literal
    path [compensation.plus_convenio_amount] holds as it was. *)
Theorem plus_convenio_routing
  (d : dict) (pre post vl : list json) (it : json) (con : console) :
  forallb (is_section d) detector_sections = true ->
  list_at "collective_agreement" "allowances" d (pre ++ it :: post) ->
  forallb labelled pre = true ->
  named "Plus Convenio" it = true ->
  list_at "compensation" "variables" d vl ->
  forallb labelled vl = true ->
  existsb (named "Plus Convenio") vl = false ->
  let appended := (vl ++ [plus_convenio_item (JFloat PyFloat.zero)])%list in
  let d2 := nest_set "compensation" "variables" (JList appended) (probed d) in
  exists (rest : list MissingField) (d3 : dict),
    detect_missing d = (probed d, Ok (gap_plus_convenio :: rest))
    /\ Forall (fun g => is_plus_path g = false) rest
    /\ resolve_missing [gap_plus_convenio] "default" (probed d, con)
       = ((d2, con),
          Ok ["Valor por defecto aplicado en compensation.plus_convenio_amount: 0.0"])
    /\ get_by_path ["compensation"; "variables"] (JDict d2) = Some (JList appended)
    /\ get_by_path ["compensation"; "plus_convenio_amount"] (JDict d2)
       = get_by_path ["compensation"; "plus_convenio_amount"] (JDict d)
    /\ (exists w : list string,
          resolve_missing (gap_plus_convenio :: rest) "default" (probed d, con)
          = ((d3, con), Ok w))
    /\ get_by_path ["compensation"; "variables"] (JDict d3) = Some (JList appended)
    /\ get_by_path ["compensation"; "plus_convenio_amount"] (JDict d3)
       = get_by_path ["compensation"; "plus_convenio_amount"] (JDict d).
Proof.
  intros Hsec Hal Hpre Hit Hvl Hlab Hnone appended d2.
  assert (Ha : has_plus_in "collective_agreement" "allowances" d = Ok true).
  { rewrite has_plus_in_read2, (list_at_read2 _ _ _ _ Hal). cbn [bind_result py_iter].
    apply any_plus_convenio_found; assumption. }
  assert (Hany : any_plus_convenio vl = Ok false).
  { rewrite (any_plus_convenio_labelled vl Hlab), Hnone. reflexivity. }
  assert (Hb : has_plus_in "compensation" "variables" d = Ok false).
  { rewrite has_plus_in_read2, (list_at_read2 _ _ _ _ Hvl). exact Hany. }
  destruct (detect_missing_returns d true false Hsec Ha Hb)
    as (b2 & b3 & b4 & b5 & b6 & b7 & py & Hdet).
  cbn [andb negb] in Hdet. rewrite gaps_of_plus in Hdet.
  set (rest := gaps_of false b2 b3 b4 b5 b6 b7 py) in *.
  assert (Hvars1 : read2 "compensation" "variables" (JList []) (probed d)
                   = Ok (JList vl)).
  { unfold read2, dict_get_or. rewrite probed_other by discriminate.
    exact (list_at_read2 _ _ _ _ Hvl). }
  assert (Hset : set_plus_convenio (JFloat PyFloat.zero) (probed d) = (d2, Ok tt)).
  { apply (set_plus_convenio_appends (JFloat PyFloat.zero) (JFloat PyFloat.zero)
             vl (probed d) Hvars1 Hany eq_refl). }
  assert (Hget : get_by_path ["compensation"; "variables"] (JDict d2)
                 = Some (JList appended)).
  { subst d2. unfold nest_set. cbn [get_by_path].
    rewrite dict_get_set_eq, dict_get_set_eq. reflexivity. }
  assert (Hlit : get_by_path ["compensation"; "plus_convenio_amount"] (JDict d2)
                 = get_by_path ["compensation"; "plus_convenio_amount"] (JDict d)).
  { subst d2. rewrite get2_nest_set_other by discriminate.
    cbn [get_by_path]. rewrite probed_other by discriminate. reflexivity. }
  rewrite forallb_forall in Hsec.
  assert (Hnl : forall k, In k detector_sections -> not_list_at k d2).
  { intros k Hk. subst d2. apply not_list_at_nest_set, is_section_not_list.
    apply is_section_probed, Hsec, Hk. }
  assert (Hsimple : Forall (fun mv => simple_gap (fst mv)) (zip rest (map default rest))).
  { apply Forall_zip_fst, (others_simple _ _ _ _ _ _ _ _ eq_refl). }
  destruct (apply_values_returns (zip rest (map default rest)) d2 Hsimple) as [d3 Hd3].
  { apply (Forall_zip_fst
             (fun m => forall k1 k2, key_of m = Some (k1, k2) -> not_list_at k1 d2)).
    apply Forall_forall. intros g Hin k1 k2 Hk.
    apply list_elem_of_In, (in_others _ _ _ _ _ _ _ _ eq_refl) in Hin.
    destruct Hin as [[_ ->]|[[_ ->]|[[_ ->]|[[_ ->]|[[_ ->]|[_ ->]]]]]];
      lazy in Hk; injection Hk as <- <-; apply Hnl; cbn; tauto. }
  assert (Hother : forall k2, k2 = "variables" \/ k2 = "plus_convenio_amount" ->
             Forall (fun mv => key_of (fst mv) <> Some ("compensation", k2))
               (zip rest (map default rest))).
  { intros k2 Hk2.
    apply (Forall_zip_fst (fun m => key_of m <> Some ("compensation", k2))).
    apply Forall_forall. intros g Hin.
    apply list_elem_of_In, (in_others _ _ _ _ _ _ _ _ eq_refl) in Hin.
    destruct Hin as [[_ ->]|[[_ ->]|[[_ ->]|[[_ ->]|[[_ ->]|[_ ->]]]]]];
      destruct Hk2 as [->| ->]; lazy; discriminate. }
  exists rest, d3.
  split; [exact Hdet|]. split; [apply gaps_of_not_plus|].
  split.
  { cbn [resolve_missing String.eqb Ascii.eqb Bool.eqb resolve_loop].
    unfold bind, on_snd, on_fst, choose_value, apply_value.
    cbn [String.eqb Ascii.eqb Bool.eqb ret fst snd path default gap_plus_convenio].
    rewrite Hset. reflexivity. }
  split; [exact Hget|]. split; [exact Hlit|].
  split.
  { eexists. rewrite resolve_missing_loop by reflexivity.
    rewrite (resolve_loop_defaults "default" eq_refl).
    cbn [map zip zip_with apply_values]. unfold bind.
    change (apply_value gap_plus_convenio (default gap_plus_convenio) (probed d))
      with (set_plus_convenio (JFloat PyFloat.zero) (probed d)).
    rewrite Hset.
    change (zip_with pair rest (map default rest)) with (zip rest (map default rest)).
    rewrite Hd3. reflexivity. }
  split.
  - rewrite (apply_values_get_other "compensation" "variables" _ d2 d3 Hsimple
               (Hother _ (or_introl eq_refl)) Hd3).
    exact Hget.
  - rewrite (apply_values_get_other "compensation" "plus_convenio_amount" _ d2 d3 Hsimple
               (Hother _ (or_intror eq_refl)) Hd3).
    exact Hlit.
Qed.

Lemma plus_convenio_routing_witness :
  let appended := ([] ++ [plus_convenio_item (JFloat PyFloat.zero)])%list in
  let d2 :=
    nest_set "compensation" "variables" (JList appended) (probed sample_allowance) in
  exists (rest : list MissingField) (d3 : dict),
    detect_missing sample_allowance
    = (probed sample_allowance, Ok (gap_plus_convenio :: rest))
    /\ Forall (fun g => is_plus_path g = false) rest
    /\ resolve_missing [gap_plus_convenio] "default"
         (probed sample_allowance, mkConsole [] [])
       = ((d2, mkConsole [] []),
          Ok ["Valor por defecto aplicado en compensation.plus_convenio_amount: 0.0"])
    /\ get_by_path ["compensation"; "variables"] (JDict d2) = Some (JList appended)
    /\ get_by_path ["compensation"; "plus_convenio_amount"] (JDict d2)
       = get_by_path ["compensation"; "plus_convenio_amount"] (JDict sample_allowance)
    /\ (exists w : list string,
          resolve_missing (gap_plus_convenio :: rest) "default"
            (probed sample_allowance, mkConsole [] [])
          = ((d3, mkConsole [] []), Ok w))
    /\ get_by_path ["compensation"; "variables"] (JDict d3) = Some (JList appended)
    /\ get_by_path ["compensation"; "plus_convenio_amount"] (JDict d3)
       = get_by_path ["compensation"; "plus_convenio_amount"] (JDict sample_allowance).
Proof.
  apply (plus_convenio_routing sample_allowance [] [] []
           (JDict [("name", JStr "PLUS Convenio")]) (mkConsole [] []));
    reflexivity.
Defined.

(** ** What a reported gap says of the document *)

Lemma get2_read2 (k1 k2 : string) (dflt v : json) (d : dict) :
  get_by_path [k1; k2] (JDict d) = Some v -> read2 k1 k2 dflt d = Ok v.
Proof.
  cbn [get_by_path]. unfold read2, dict_get_or.
  destruct (dict_get k1 d) as [[| | | | | |c]|]; try discriminate.
  cbn [py_get]. unfold dict_get_or.
  destruct (dict_get k2 c); [|discriminate]. intros [= ->]. reflexivity.
Qed.

(** C5, as stated, fails: a year of the contribution tables that is there,
    with the value zero, is reported as a gap. *)
Lemma zero_year_reported :
  holds_value "tables.cotization_year" sample_zero_year = true
  /\ detect_missing sample_zero_year
     = (sample_zero_year, Ok [gap_cotization_year (JInt 2025)])
  /\ ~ reports_only_absent sample_zero_year.
Proof.
  split; [reflexivity|]. split; [vm_compute; reflexivity|].
  intros H.
  specialize (H sample_zero_year [gap_cotization_year (JInt 2025)]).
  assert (Hdet : detect_missing sample_zero_year
                 = (sample_zero_year, Ok [gap_cotization_year (JInt 2025)]))
    by (vm_compute; reflexivity).
  specialize (H Hdet). inversion H as [|g l [Hp|Hv] _]; subst.
  - vm_compute in Hp. discriminate Hp.
  - vm_compute in Hv. discriminate Hv.
Qed.

(** C5, amended. Every gap the detector returns is for a field that is not
    set in the document.  For the allowance gap, the scan of the
    variable-pay entries found no item named Plus Convenio: when the
    entries are a list, none of its items has that name in any
    letter-casing.  For any other gap, the document has nothing at the
    gap's path, or a value there that is false for Python: [None], [False],
    zero, or an empty text, list or dictionary. *)
Theorem detect_missing_reports_only_unset (d d1 : dict) (gaps : list MissingField) :
  detect_missing d = (d1, Ok gaps) ->
  Forall (fun g =>
            if is_plus_path g
            then has_plus_in "compensation" "variables" d = Ok false
                 /\ forall vl : list json,
                      get_by_path ["compensation"; "variables"] (JDict d)
                      = Some (JList vl) ->
                      existsb (named "Plus Convenio") vl = false
            else unset_at (path g) d = true) gaps.
Proof.
  intros H.
  destruct (detect_missing_inv d d1 gaps H)
    as (a & b & company & tables & py & b5 & b6 & b7
        & Ha & Hb & Hd1 & Hco & Hta & Hpy & H5 & H6 & H7 & ->).
  subst d1. unfold gaps_of.
  repeat apply Forall_append_if; [constructor|..]; intros Hb'.
  - assert (Hf : b = false)
      by (destruct b; [rewrite andb_false_r in Hb'; discriminate|reflexivity]).
    subst b. split; [exact Hb|]. intros vl Hvl.
    rewrite has_plus_in_read2, (get2_read2 _ _ (JList []) _ _ Hvl) in Hb.
    apply any_plus_convenio_none, Hb.
  - apply (unset_two "company" "atep_tariff_pct").
    apply andb_true_iff in Hb' as [_ Hatep]. apply negb_true_iff in Hatep.
    destruct (setdefault_cases _ _ _ Hco) as [->|[-> _]]; [exact Hatep|exact I].
  - apply (unset_two "tables" "cotization_year"). apply negb_true_iff in Hb'.
    unfold probed in Hta. apply setdefault_cases in Hta.
    rewrite dict_setdefault_other in Hta by discriminate.
    destruct Hta as [->|[-> _]]; [exact Hb'|exact I].
  - apply (unset_two "tables" "irpf_year"). apply negb_true_iff in Hb'.
    unfold probed in Hta. apply setdefault_cases in Hta.
    rewrite dict_setdefault_other in Hta by discriminate.
    destruct Hta as [->|[-> _]]; [exact Hb'|exact I].
  - subst b5. rewrite field_unset_probed in H5 by discriminate.
    apply (unset_two "compensation" "base_salary_cra_code"), field_unset_two, H5.
  - subst b6. rewrite field_unset_probed in H6 by discriminate.
    apply (unset_two "worker" "nif"), field_unset_two, H6.
  - subst b7. rewrite field_unset_probed in H7 by discriminate.
    apply (unset_two "region_config" "irpf_regime"), field_unset_two, H7.
Qed.

Lemma detect_missing_reports_only_unset_witness :
  Forall (fun g =>
            if is_plus_path g
            then has_plus_in "compensation" "variables" sample_allowance = Ok false
                 /\ forall vl : list json,
                      get_by_path ["compensation"; "variables"] (JDict sample_allowance)
                      = Some (JList vl) ->
                      existsb (named "Plus Convenio") vl = false
            else unset_at (path g) sample_allowance = true)
    (gaps_of true true true true true true true JNull).
Proof.
  apply (detect_missing_reports_only_unset sample_allowance (probed sample_allowance)).
  reflexivity.
Defined.

(** ** Detection after resolution: the converse *)

Section ZipAll.

Context {A B : Type}.

Lemma Forall2_of_zip (R : A -> B -> Prop) (l : list A) (k : list B) :
  length k = length l ->
  (forall x y, In (x, y) (zip l k) -> R x y) ->
  Forall2 R l k.
Proof.
  revert k. induction l as [|a l IH]; intros [|b k] Hlen Hall; try discriminate.
  - constructor.
  - constructor.
    + apply Hall. left. reflexivity.
    + apply IH; [simpl in Hlen; congruence|].
      intros x y Hin. apply Hall. right. exact Hin.
Qed.

End ZipAll.

Lemma read2_unset2 (k1 k2 : string) (d : dict) (r : json) :
  read2 k1 k2 JNull d = Ok r -> unset2 k1 k2 d = negb (truthy r).
Proof.
  intros H. apply field_unset_unset2. rewrite field_unset_read2, H. reflexivity.
Qed.

Section RedetectConverse.

Variables (b2 b3 b4 b5 b6 b7 : bool) (py : json).
Variables (others : list MissingField) (vs : list json) (e d2 d2' : dict).
Hypothesis others_eq : others = gaps_of false b2 b3 b4 b5 b6 b7 py.
Hypothesis same_length : length vs = length others.
Hypothesis applied : apply_values (zip others vs) e = (d2, Ok tt).
Hypothesis redetected : detect_missing d2 = (d2', Ok []).
Hypothesis cnae_unset : b2 = true -> unset2 "company" "cnae" e = true.

Lemma no_rule_fires (p : string) : In p detector_paths -> ~ rule_fires p d2.
Proof.
  intros Hp Hf. apply (reported_iff_fires d2 d2' [] p redetected Hp) in Hf.
  destruct Hf.
Qed.

Lemma written_reads (g : MissingField) (v : json) (k1 k2 : string) :
  In (g, v) (zip others vs) ->
  key_of g = Some (k1, k2) ->
  unset2 k1 k2 d2 = negb (truthy v).
Proof.
  intros Hin Hk. apply read2_unset2.
  apply (apply_values_read_written k1 k2 JNull v g (zip others vs) e d2);
    [|
     |exact Hin|exact Hk|exact applied].
  - apply Forall_zip_fst, (others_simple _ _ _ _ _ _ _ _ others_eq).
  - change (fun mv : MissingField * json => key_of (fst mv))
      with (key_of ∘ @fst MissingField json).
    rewrite list_fmap_compose, fst_zip;
      [apply (others_nodup _ _ _ _ _ _ _ _ others_eq)|].
    rewrite same_length. reflexivity.
Qed.

Lemma cnae_after : b2 = true -> unset2 "company" "cnae" d2 = true.
Proof.
  intros Hb2. etransitivity; [|exact (cnae_unset Hb2)]. unfold unset2.
  rewrite (apply_values_get_other "company" "cnae" (zip others vs) e d2);
    [reflexivity| |
     |exact applied].
  - apply Forall_zip_fst, (others_simple _ _ _ _ _ _ _ _ others_eq).
  - apply (Forall_zip_fst (fun m => key_of m <> Some ("company", "cnae"))).
    apply Forall_forall. intros g Hin.
    apply list_elem_of_In, (in_others _ _ _ _ _ _ _ _ others_eq) in Hin.
    destruct Hin as [[_ ->]|[[_ ->]|[[_ ->]|[[_ ->]|[[_ ->]|[_ ->]]]]]];
      lazy; discriminate.
Qed.

(** When the detector finds nothing afterwards, every value written was
    true for Python. *)
Lemma written_truthy (g : MissingField) (v : json) :
  In (g, v) (zip others vs) -> truthy v = true.
Proof.
  intros Hin. pose proof (zip_fst_in _ _ _ _ Hin) as Hg.
  apply (in_others _ _ _ _ _ _ _ _ others_eq) in Hg.
  assert (Hno : forall k1 k2, key_of g = Some (k1, k2) ->
                  unset2 k1 k2 d2 <> true -> truthy v = true).
  { intros k1 k2 Hk Hun. rewrite (written_reads g v k1 k2 Hin Hk) in Hun.
    destruct (truthy v); [reflexivity|]. destruct Hun. reflexivity. }
  destruct Hg as [[Hb ->]|[[_ ->]|[[_ ->]|[[_ ->]|[[_ ->]|[_ ->]]]]]].
  - apply (Hno "company" "atep_tariff_pct" eq_refl). intros Hun.
    apply (no_rule_fires "company.atep_tariff_pct"); [cbn; tauto|].
    split; [exact (cnae_after Hb)|exact Hun].
  - apply (Hno "tables" "cotization_year" eq_refl).
    apply (no_rule_fires "tables.cotization_year"). cbn; tauto.
  - apply (Hno "tables" "irpf_year" eq_refl).
    apply (no_rule_fires "tables.irpf_year"). cbn; tauto.
  - apply (Hno "compensation" "base_salary_cra_code" eq_refl).
    apply (no_rule_fires "compensation.base_salary_cra_code"). cbn; tauto.
  - apply (Hno "worker" "nif" eq_refl).
    apply (no_rule_fires "worker.nif"). cbn; tauto.
  - apply (Hno "region_config" "irpf_regime" eq_refl).
    apply (no_rule_fires "region_config.irpf_regime"). cbn; tauto.
Qed.

Lemma others_settled : Forall2 settles others vs.
Proof.
  apply Forall2_of_zip; [exact same_length|].
  intros g v Hin. right. exact (written_truthy g v Hin).
Qed.

End RedetectConverse.

(** Whatever values are applied for the gaps of a detection, if the
    detector finds nothing afterwards then each value settled its gap. *)
Lemma settles_after_redetect
  (payload d1 d2 d2' : dict) (gaps : list MissingField) (vs : list json) :
  detect_missing payload = (d1, Ok gaps) ->
  length vs = length gaps ->
  apply_values (zip gaps vs) d1 = (d2, Ok tt) ->
  detect_missing d2 = (d2', Ok []) ->
  Forall2 settles gaps vs.
Proof.
  intros Hdet Hlen Happ Hre.
  destruct (detect_missing_inv payload d1 gaps Hdet)
    as (a & b & company & tables & py & b5 & b6 & b7
        & Ha & Hb & Hd1 & Hco & Hta & Hpy & H5 & H6 & H7 & ->).
  assert (Hb1 : has_plus_in "compensation" "variables" d1 = Ok b).
  { subst d1. unfold has_plus_in, dict_get_or in *.
    rewrite probed_other by discriminate. exact Hb. }
  assert (Hco1 : dict_get "company" d1 = Some (JDict company)).
  { subst d1. unfold probed. rewrite dict_setdefault_other by discriminate. exact Hco. }
  assert (Hcnae : no_tariff company = true -> unset2 "company" "cnae" d1 = true).
  { intros Hnt. rewrite (read2_unset2 _ _ _ _ (read2_at_dict _ "cnae" JNull _ _ Hco1)).
    unfold no_tariff in Hnt. apply andb_true_iff in Hnt as [Hnt _]. exact Hnt. }
  clear Ha Hb Hco Hpy Hdet H5 H6 H7 Hta.
  destruct (a && negb b) eqn:Hplus.
  - apply andb_true_iff in Hplus as [-> Hnb]. apply negb_true_iff in Hnb. subst b.
    rewrite gaps_of_plus in Hlen, Happ |- *.
    destruct vs as [|v vs']; [discriminate|].
    cbn [zip zip_with apply_values] in Happ. unfold bind in Happ.
    destruct (apply_value gap_plus_convenio v d1) as [e [[]|err]] eqn:Hav;
      [|discriminate].
    destruct (apply_plus_inv v _ e Hb1 Hav) as (l & amt & Hany & ->).
    constructor; [left; reflexivity|].
    eapply (others_settled _ _ _ _ _ _ _ _ vs' _ d2 d2' eq_refl);
      [simpl in Hlen; congruence|exact Happ|exact Hre|].
    intros Hnt. unfold unset2. rewrite get2_nest_set_other by discriminate.
    exact (Hcnae Hnt).
  - eapply (others_settled _ _ _ _ _ _ _ _ vs d1 d2 d2' eq_refl);
      [exact Hlen|exact Happ|exact Hre|exact Hcnae].
Qed.

(** C2, amended. For every document, and under "default" as well as under
    "ask": when the detector returns and the resolver returns, the resolver
    has applied one value for each gap, in turn, and the detector run again
    on the resolved payload returns the empty list if and only if every
    value applied settles its gap, that is, is true for Python (not [None],
    [False], zero, or an empty text, list or dictionary); the amount of the
    allowance always settles its gap.  When the values do, the detector run
    again writes nothing either.  Under any policy but "ask" the values
    applied are the defaults of the gaps. *)
Theorem redetect_after_resolution
  (policy : string) (payload d1 d2 : dict) (gaps : list MissingField)
  (con con' : console) (w : list string) :
  String.eqb policy "fail" = false ->
  detect_missing payload = (d1, Ok gaps) ->
  resolve_missing gaps policy (d1, con) = ((d2, con'), Ok w) ->
  apply_values (zip gaps (chosen_values policy gaps con)) d1 = (d2, Ok tt)
  /\ length (chosen_values policy gaps con) = length gaps
  /\ (Forall2 settles gaps (chosen_values policy gaps con) ->
      detect_missing d2 = (d2, Ok []))
  /\ (forall d2' : dict,
        detect_missing d2 = (d2', Ok []) ->
        Forall2 settles gaps (chosen_values policy gaps con))
  /\ (String.eqb policy "ask" = false ->
      chosen_values policy gaps con = map default gaps).
Proof.
  intros Hpol Hdet Hres.
  rewrite resolve_missing_loop in Hres by exact Hpol.
  apply resolve_loop_values in Hres as [Hlen Happ].
  split; [exact Happ|]. split; [exact Hlen|].
  split; [|split].
  - intros Hset. exact (redetect_after_values payload d1 d2 gaps _ Hdet Hset Happ).
  - intros d2' Hre.
    exact (settles_after_redetect payload d1 d2 d2' gaps _ Hdet Hlen Happ Hre).
  - intros Hask. apply chosen_values_default, Hask.
Qed.

Lemma redetect_after_resolution_witness :
  let payload := [("period", JDict [("year", JInt 2025)])] in
  let con := mkConsole [] [] in
  let gaps := gaps_of false true true true true true true (JInt 2025) in
  let d2 := fst (fst (resolve_missing gaps "default" (probed payload, con))) in
  apply_values (zip gaps (chosen_values "default" gaps con)) (probed payload)
  = (d2, Ok tt)
  /\ length (chosen_values "default" gaps con) = length gaps
  /\ (Forall2 settles gaps (chosen_values "default" gaps con) ->
      detect_missing d2 = (d2, Ok []))
  /\ (forall d2' : dict,
        detect_missing d2 = (d2', Ok []) ->
        Forall2 settles gaps (chosen_values "default" gaps con))
  /\ (String.eqb "default" "ask" = false ->
      chosen_values "default" gaps con = map default gaps).
Proof.
  apply (redetect_after_resolution "default"
           [("period", JDict [("year", JInt 2025)])]
           (probed [("period", JDict [("year", JInt 2025)])]) _ _
           (mkConsole [] []) (mkConsole [] [])
           (map (warning_text "Valor por defecto aplicado en ")
              (gaps_of false true true true true true true (JInt 2025)))).
  - reflexivity.
  - vm_compute. reflexivity.
  - vm_compute. reflexivity.
Defined.

(** ** The resolver as a whole *)

Section ResolverWhole.

(** One question of the resolver under "ask". *)
Lemma choose_value_ask (m : MissingField) (w : list string) (c : console) :
  choose_value "ask" m w c
  = match stdin c with
    | [] => (mkConsole [] (stdout c ++ [prompt_of m])%list, Err EOFError)
    | line :: rest =>
        let c' := mkConsole rest (stdout c ++ [prompt_of m])%list in
        if String.eqb (PyStr.strip line) EmptyString && is_not_none (default m) then
          (c', Ok (default m, (w ++ [warning_text "Usado valor por defecto en " m])%list))
        else if String.eqb (PyStr.strip line) EmptyString then
          (c', Err (ValueError ("Dato obligatorio no proporcionado: " ++ path m)))
        else
          match _parse_input (PyStr.strip line) m with
          | Ok v => (c', Ok (v, w))
          | Err e => (c', Err e)
          end
    end.
Proof.
  unfold choose_value, prompt_of. cbn [String.eqb Ascii.eqb Bool.eqb]. cbv zeta.
  unfold bind, input. destruct (stdin c) as [|line rest]; [reflexivity|].
  destruct (String.eqb (PyStr.strip line) EmptyString && is_not_none (default m));
    [reflexivity|].
  destruct (String.eqb (PyStr.strip line) EmptyString); [reflexivity|].
  unfold lift, ret. destruct (_parse_input (PyStr.strip line) m); reflexivity.
Qed.

Lemma resolve_loop_ask_console (missing : list MissingField) (w w' : list string)
  (d d' : dict) (c c' : console) :
  resolve_loop "ask" missing w (d, c) = ((d', c'), Ok w') ->
  exists lines : list string,
    stdin c = (lines ++ stdin c')%list
    /\ length lines = length missing
    /\ stdout c' = (stdout c ++ map prompt_of missing)%list.
Proof.
  revert w d c. induction missing as [|m rest IH]; intros w d c H.
  - injection H as <- <- _. exists []. rewrite app_nil_r. auto.
  - cbn [resolve_loop] in H. unfold bind, on_snd, on_fst in H. cbn [fst snd] in H.
    rewrite choose_value_ask in H.
    destruct (stdin c) as [|line ins] eqn:Hin; [discriminate|]. cbv zeta in H.
    assert (Hgo : forall (d1 : dict) (w1 : list string),
               resolve_loop "ask" rest w1
                 (d1, mkConsole ins (stdout c ++ [prompt_of m])%list)
               = ((d', c'), Ok w') ->
               exists lines : list string,
                 line :: ins = (lines ++ stdin c')%list
                 /\ length lines = length (m :: rest)
                 /\ stdout c' = (stdout c ++ map prompt_of (m :: rest))%list).
    { intros d1 w1 Hvw.
      apply IH in Hvw as (lines & Hl & Hlen & Hout). cbn [stdin stdout] in Hl, Hout.
      exists (line :: lines). rewrite Hl, Hout. cbn [length map].
      rewrite <- app_assoc. auto. }
    destruct (String.eqb (PyStr.strip line) EmptyString && is_not_none (default m)).
    + cbn [fst snd] in H.
      destruct (apply_value m (default m) d) as [d1 [[]|e]]; [|discriminate].
      eapply Hgo, H.
    + destruct (String.eqb (PyStr.strip line) EmptyString); [discriminate|].
      destruct (_parse_input (PyStr.strip line) m) as [v|e]; [|discriminate].
      cbn [fst snd] in H.
      destruct (apply_value m v d) as [d1 [[]|e]]; [|discriminate].
      eapply Hgo, H.
Qed.

Lemma resolve_loop_enter (missing : list MissingField) :
  forall (lines rest : list string) (w out : list string) (d d' : dict),
    Forall has_default missing ->
    Forall blank lines ->
    length lines = length missing ->
    apply_values (zip missing (map default missing)) d = (d', Ok tt) ->
    resolve_loop "ask" missing w (d, mkConsole (lines ++ rest) out)
    = ((d', mkConsole rest (out ++ map prompt_of missing)),
       Ok (w ++ map (warning_text "Usado valor por defecto en ") missing))%list.
Proof.
  induction missing as [|m gaps IH]; intros lines rest w out d d' Hdef Hbl Hlen Happ.
  - destruct lines; [|discriminate]. injection Happ as <-.
    cbn. rewrite !app_nil_r. reflexivity.
  - destruct lines as [|line lines]; [discriminate|].
    apply Forall_cons in Hdef as [Hm Hdef]. apply Forall_cons in Hbl as [Hline Hbl].
    injection Hlen as Hlen.
    cbn [map zip zip_with apply_values] in Happ. unfold bind in Happ.
    destruct (apply_value m (default m) d) as [d1 [[]|e]] eqn:Hav; [|discriminate].
    cbn [resolve_loop]. unfold bind, on_snd, on_fst. cbn [fst snd].
    rewrite choose_value_ask. cbn [stdin stdout app]. cbv zeta.
    unfold blank in Hline. unfold has_default in Hm. rewrite Hline, Hm.
    cbn [String.eqb andb fst snd]. rewrite Hav.
    rewrite (IH lines rest _ _ d1 d' Hdef Hbl Hlen Happ).
    cbn [map]. rewrite <- !app_assoc. reflexivity.
Qed.

Lemma resolve_loop_nil_acc (policy : string) (missing : list MissingField)
  (w : list string) (s : dict * console) :
  resolve_loop policy missing w s
  = match resolve_loop policy missing [] s with
    | (s', Ok w') => (s', Ok (w ++ w')%list)
    | (s', Err e) => (s', Err e)
    end.
Proof.
  revert w s. induction missing as [|m rest IH]; intros w s.
  - cbn. rewrite app_nil_r. reflexivity.
  - cbn [resolve_loop]. unfold bind, on_snd, on_fst.
    rewrite (choose_value_from_nil policy m w).
    destruct (choose_value policy m [] (snd s)) as [c1 [[v w0]|e]]; [|reflexivity].
    cbn [fst snd].
    destruct (apply_value m v (fst s)) as [d1 [[]|e]]; [|reflexivity].
    rewrite (IH (w ++ w0)%list), (IH w0).
    destruct (resolve_loop policy rest [] (d1, c1)) as [s2 [w2|e]]; [|reflexivity].
    rewrite app_assoc. reflexivity.
Qed.

Lemma not_in_paths_nil (gaps : list MissingField) :
  (forall p, In p detector_paths -> ~ In p (map path gaps)) ->
  sublist (map path gaps) detector_paths ->
  gaps = [].
Proof.
  intros Hno Hsub. destruct gaps as [|g gaps]; [reflexivity|].
  exfalso. apply (Hno (path g)); [|left; reflexivity].
  apply list_elem_of_In. eapply sublist_subseteq; [exact Hsub|].
  apply list_elem_of_In. left. reflexivity.
Qed.

Lemma resolve_missing_default_values
  (missing : list MissingField) (d d' : dict) (c c' : console) (w : list string) :
  resolve_missing missing "default" (d, c) = ((d', c'), Ok w) ->
  c' = c
  /\ w = map (warning_text "Valor por defecto aplicado en ") missing
  /\ apply_values (zip missing (map default missing)) d = (d', Ok tt).
Proof.
  rewrite resolve_missing_loop by reflexivity.
  rewrite (resolve_loop_defaults "default" eq_refl).
  destruct (apply_values (zip missing (map default missing)) d) as [d1 [[]|e]];
    [|discriminate].
  intros [= <- <- <-]. auto.
Qed.

End ResolverWhole.

(** X11. Any policy other than "ask" and "fail" is taken as "default": the
    resolver does with it exactly what it does under "default". *)
Theorem resolve_missing_other_policy
  (policy : string) (missing : list MissingField) (s : dict * console) :
  String.eqb policy "ask" = false ->
  String.eqb policy "fail" = false ->
  resolve_missing missing policy s = resolve_missing missing "default" s.
Proof.
  intros Hask Hfail. destruct s as [d c].
  rewrite !resolve_missing_loop by (exact Hfail || reflexivity).
  rewrite (resolve_loop_defaults policy Hask).
  rewrite (resolve_loop_defaults "default" eq_refl). reflexivity.
Qed.

Lemma resolve_missing_other_policy_witness :
  resolve_missing [gap_nif] "DEFAULT" ([], mkConsole [] [])
  = resolve_missing [gap_nif] "default" ([], mkConsole [] []).
Proof.
  apply (resolve_missing_other_policy "DEFAULT" [gap_nif]); reflexivity.
Defined.

(** X12. Under "default" a run of the resolver that returns has applied
    the default of every gap in turn, has left the console alone, and
    returns one warning for each gap, in the order of the gaps. *)
Theorem resolve_missing_default_warnings
  (missing : list MissingField) (d d' : dict) (c c' : console) (w : list string) :
  resolve_missing missing "default" (d, c) = ((d', c'), Ok w) ->
  c' = c
  /\ w = map (warning_text "Valor por defecto aplicado en ") missing
  /\ apply_values (zip missing (map default missing)) d = (d', Ok tt).
Proof.
  intros H. destruct (resolve_missing_default_values missing d d' c c' w H) as (Hc & Hw & Ha).
  repeat split; assumption.
Qed.

Lemma resolve_missing_default_warnings_witness :
  mkConsole ["x"] [] = mkConsole ["x"] []
  /\ ["Valor por defecto aplicado en worker.nif: NO-INFORMADO"]
     = map (warning_text "Valor por defecto aplicado en ") [gap_nif]
  /\ apply_values (zip [gap_nif] (map default [gap_nif])) []
     = ([("worker", JDict [("nif", JStr "NO-INFORMADO")])], Ok tt).
Proof.
  apply (resolve_missing_default_warnings [gap_nif] [] _ (mkConsole ["x"] [])).
  reflexivity.
Defined.

(** X13. Under "ask" a run of the resolver that returns has asked one
    question for each gap, in the order of the gaps, and has read exactly
    one line of input for each. *)
Theorem resolve_missing_ask_console
  (missing : list MissingField) (d d' : dict) (c c' : console) (w : list string) :
  resolve_missing missing "ask" (d, c) = ((d', c'), Ok w) ->
  exists lines : list string,
    stdin c = (lines ++ stdin c')%list
    /\ length lines = length missing
    /\ stdout c' = (stdout c ++ map prompt_of missing)%list.
Proof.
  rewrite resolve_missing_loop by reflexivity. apply resolve_loop_ask_console.
Qed.

Lemma resolve_missing_ask_console_witness :
  exists lines : list string,
    ["12345678Z"; "next"] = (lines ++ ["next"])%list
    /\ length lines = length [gap_nif]
    /\ [prompt_of gap_nif] = ([] ++ map prompt_of [gap_nif])%list.
Proof.
  apply (resolve_missing_ask_console [gap_nif] []
           [("worker", JDict [("nif", JStr "12345678Z")])]
           (mkConsole ["12345678Z"; "next"] [])
           (mkConsole ["next"] [prompt_of gap_nif]) []).
  vm_compute. reflexivity.
Defined.

(** X14. Pressing Enter at every question is policy "default": when every
    gap has a default and every answer is blank, the resolver under "ask"
    leaves the payload that "default" leaves, with one warning for each
    gap. *)
Theorem resolve_missing_enter_is_default
  (missing : list MissingField) (lines rest out : list string)
  (d d' : dict) (c0 c0' : console) (w0 : list string) :
  Forall has_default missing ->
  Forall blank lines ->
  length lines = length missing ->
  resolve_missing missing "default" (d, c0) = ((d', c0'), Ok w0) ->
  resolve_missing missing "ask" (d, mkConsole (lines ++ rest) out)
  = ((d', mkConsole rest (out ++ map prompt_of missing)),
     Ok (map (warning_text "Usado valor por defecto en ") missing))%list.
Proof.
  intros Hdef Hbl Hlen Hd.
  rewrite resolve_missing_loop in Hd by reflexivity.
  rewrite (resolve_loop_defaults "default" eq_refl) in Hd.
  destruct (apply_values (zip missing (map default missing)) d) as [d1 [[]|e]] eqn:Happ;
    [|discriminate].
  injection Hd as <- _ _.
  rewrite resolve_missing_loop by reflexivity.
  apply (resolve_loop_enter missing lines rest [] out d d1 Hdef Hbl Hlen Happ).
Qed.

Lemma resolve_missing_enter_is_default_witness :
  resolve_missing [gap_nif; gap_regime] "ask" ([], mkConsole ([" "; ""] ++ ["left"]) [])
  = (([("worker", JDict [("nif", JStr "NO-INFORMADO")]);
       ("region_config", JDict [("irpf_regime", JStr "AEAT")])],
      mkConsole ["left"] ([] ++ map prompt_of [gap_nif; gap_regime])),
     Ok (map (warning_text "Usado valor por defecto en ") [gap_nif; gap_regime]))%list.
Proof.
  apply (resolve_missing_enter_is_default [gap_nif; gap_regime] [" "; ""] ["left"] []
           [] _ (mkConsole [] []) (mkConsole [] [])
           (map (warning_text "Valor por defecto aplicado en ") [gap_nif; gap_regime])).
  - repeat constructor.
  - repeat constructor.
  - reflexivity.
  - vm_compute. reflexivity.
Defined.

(** X15. The resolver does not undo: when it raises at a gap, the values
    of the gaps before it stay written in the caller's payload, and the
    gaps after it are not looked at. *)
Theorem resolve_missing_keeps_partial
  (policy : string) (before after : list MissingField) (m : MissingField)
  (d d1 d2 : dict) (c c1 c2 : console) (w1 : list string) (e : exn) :
  String.eqb policy "fail" = false ->
  resolve_missing before policy (d, c) = ((d1, c1), Ok w1) ->
  resolve_missing [m] policy (d1, c1) = ((d2, c2), Err e) ->
  resolve_missing (before ++ m :: after) policy (d, c) = ((d2, c2), Err e).
Proof.
  intros Hfail Hb Hm.
  rewrite resolve_missing_loop in * by exact Hfail.
  rewrite resolve_loop_app, Hb.
  change (m :: after) with ([m] ++ after)%list.
  rewrite resolve_loop_app, (resolve_loop_nil_acc policy [m] w1), Hm. reflexivity.
Qed.

Lemma resolve_missing_keeps_partial_witness :
  resolve_missing ([gap_nif] ++ gap_regime :: [gap_cra]) "ask"
    ([], mkConsole ["1Z"; "BOGUS"; "C01"] [])
  = (([("worker", JDict [("nif", JStr "1Z")])],
      mkConsole ["C01"] [prompt_of gap_nif; prompt_of gap_regime]),
     Err (ValueError bogus_message)).
Proof.
  apply (resolve_missing_keeps_partial "ask" [gap_nif] [gap_cra] gap_regime
           [] [("worker", JDict [("nif", JStr "1Z")])] _
           (mkConsole ["1Z"; "BOGUS"; "C01"] [])
           (mkConsole ["BOGUS"; "C01"] [prompt_of gap_nif]) _ []);
    vm_compute; reflexivity.
Defined.

(** X16. Under "fail" the preflight lets through exactly the documents on
    which no rule of the detector fires: when it returns, there is no
    warning, the console is untouched, the payload has only gained
    [company] and [tables], and none of the seven rules fires; and when the
    detector returns and no rule fires, the preflight returns. *)
Theorem preflight_fail_accepts
  (d d1 : dict) (gaps : list MissingField) (c : console) :
  detect_missing d = (d1, Ok gaps) ->
  (preflight "fail" (d, c) = ((d1, c), Ok [])
   <-> forall p, In p detector_paths -> ~ rule_fires p d)
  /\ (forall (s : dict * console) (w : list string),
        preflight "fail" (d, c) = (s, Ok w) -> s = (probed d, c) /\ w = []).
Proof.
  intros Hdet.
  assert (Hpre : preflight "fail" (d, c)
                 = match gaps with
                   | [] => ((d1, c), Ok [])
                   | _ :: _ =>
                       ((d1, c),
                        Err (ValueError ("Faltan datos críticos: "
                                         ++ PyStr.join "; " (map path gaps))))
                   end).
  { unfold preflight, bind, on_fst. cbn [fst snd]. rewrite Hdet.
    destruct gaps; reflexivity. }
  assert (Hd1 : d1 = probed d).
  { destruct (detect_missing_inv d d1 gaps Hdet)
      as (a & b & company & tables & py & b5 & b6 & b7 & _ & _ & Hd1 & _).
    exact Hd1. }
  split; [split|].
  - intros H p Hp Hf. rewrite Hpre in H.
    destruct gaps as [|g gaps]; [|discriminate].
    apply (reported_iff_fires d d1 [] p Hdet Hp) in Hf. destruct Hf.
  - intros Hno. rewrite Hpre.
    assert (gaps = []) as ->; [|reflexivity].
    apply not_in_paths_nil.
    + intros p Hp Hin. apply (Hno p Hp).
      apply (reported_iff_fires d d1 gaps p Hdet Hp), Hin.
    + destruct (detect_missing_inv d d1 gaps Hdet)
        as (a & b & company & tables & py & b5 & b6 & b7
            & _ & _ & _ & _ & _ & _ & _ & _ & _ & ->).
      apply sublist_gaps_of.
  - intros s w. rewrite Hpre, <- Hd1.
    destruct gaps; [|discriminate]. intros [= <- <-]. auto.
Qed.

Lemma preflight_fail_accepts_witness :
  (preflight "fail" (sample_complete, mkConsole [] [])
   = ((sample_complete, mkConsole [] []), Ok [])
   <-> forall p, In p detector_paths -> ~ rule_fires p sample_complete)
  /\ (forall (s : dict * console) (w : list string),
        preflight "fail" (sample_complete, mkConsole [] []) = (s, Ok w) ->
        s = (probed sample_complete, mkConsole [] []) /\ w = []).
Proof.
  apply (preflight_fail_accepts sample_complete sample_complete []).
  vm_compute. reflexivity.
Defined.

(** ** Region enrichment as a whole *)

Section EnrichmentWhole.

Lemma truthy_str (c : string) : truthy (JStr c) = true -> c <> EmptyString.
Proof. cbn. intros H ->. discriminate. Qed.

Lemma setdefault_notes_has (rc : dict) :
  dict_has "irpf_regime" (fst (dict_setdefault "notes" (JStr EmptyString) rc))
  = dict_has "irpf_regime" rc.
Proof.
  unfold dict_has. rewrite dict_setdefault_other by discriminate. reflexivity.
Qed.

(** A region identifier that is not a string is in no table: enrichment
    stops after [notes], or at the test [ccaa in CCAA_REGION_MAP] when the
    identifier cannot be hashed. *)
Lemma enrich_not_string (payload rc : dict) (ccaa : json) :
  dict_get "region_config" payload = Some (JDict rc) ->
  dict_get_or "ccaa" JNull rc = ccaa ->
  truthy ccaa = true ->
  (forall c, ccaa <> JStr c) ->
  dict_get "irpf_regime" rc = None ->
  enrich_region_config payload
  = if is_scalar ccaa
    then Ok (dict_set "region_config"
               (JDict (fst (dict_setdefault "notes" (JStr EmptyString) rc))) payload)
    else Err TypeError.
Proof.
  intros Hrc Hccaa Ht Hns Htag.
  unfold enrich_region_config. cbv zeta.
  unfold dict_get_or at 1. rewrite Hrc. cbn [bind_result py_get].
  rewrite Hccaa. cbn [bind_result]. rewrite Ht. cbn [negb].
  unfold dict_setdefault at 1. rewrite Hrc.
  pose proof (setdefault_notes_has rc) as Hh.
  destruct (dict_setdefault "notes" (JStr EmptyString) rc) as [rc1 u].
  cbn [fst] in *. rewrite Hh. unfold dict_has. rewrite Htag. cbn [negb].
  destruct ccaa as [| | | |c| |]; try reflexivity.
  destruct (Hns c eq_refl).
Qed.

(** The outcome of enrichment, case by case. *)
Lemma enrich_outcome (payload : dict) :
  enrich_region_config payload
  = match dict_get "region_config" payload with
    | None => Ok payload
    | Some (JDict rc) =>
        let ccaa := dict_get_or "ccaa" JNull rc in
        if negb (truthy ccaa) then Ok payload
        else if is_scalar ccaa || dict_has "irpf_regime" rc then
          Ok (dict_set "region_config" (JDict (final_rc ccaa rc)) payload)
        else Err TypeError
    | Some _ => Err AttributeError
    end.
Proof.
  destruct (dict_get "region_config" payload) as [v|] eqn:Hrc.
  - destruct v as [| | | | | |rc];
      try (unfold enrich_region_config, dict_get_or; cbv zeta; rewrite Hrc;
           reflexivity).
    cbv zeta. destruct (truthy (dict_get_or "ccaa" JNull rc)) eqn:Ht; cbn [negb].
    + destruct (dict_get_or "ccaa" JNull rc) as [| | | |c| |] eqn:Hccaa;
        try (destruct (dict_get "irpf_regime" rc) as [tag|] eqn:Htag;
             [rewrite (enrich_with_regime payload rc _ tag Hrc Hccaa Ht Htag);
              unfold dict_has; rewrite Htag, orb_true_r; reflexivity
             |rewrite (enrich_not_string payload rc _ Hrc Hccaa Ht) by congruence;
              unfold dict_has; rewrite Htag; reflexivity]).
      cbn [is_scalar orb final_rc].
      apply enrich_with_identifier; [exact Hrc| |apply truthy_str, Ht].
      unfold dict_get_or in Hccaa. destruct (dict_get "ccaa" rc); [|discriminate].
      congruence.
    + eapply enrich_no_identifier; [| |exact Ht].
      * unfold dict_get_or. rewrite Hrc. reflexivity.
      * reflexivity.
  - eapply (enrich_no_identifier payload (JDict []) JNull).
    + unfold dict_get_or. rewrite Hrc. reflexivity.
    + reflexivity.
    + reflexivity.
Qed.

Lemma only_adds_refl (rc : dict) : only_adds rc rc.
Proof. split; auto. Qed.

Lemma only_adds_trans (rc1 rc2 rc3 : dict) :
  only_adds rc1 rc2 -> only_adds rc2 rc3 -> only_adds rc1 rc3.
Proof.
  intros [A1 B1] [A2 B2]. split.
  - auto.
  - intros k H1 H2. rewrite B2, B1 by assumption. reflexivity.
Qed.

Lemma only_adds_set (k0 : string) (v : json) (rc : dict) :
  k0 = "notes" \/ k0 = "irpf_regime" ->
  dict_get k0 rc = None ->
  only_adds rc (dict_set k0 v rc).
Proof.
  intros Hk Hnone. split.
  - intros k x Hx. rewrite dict_get_set_ne; [exact Hx|]. intros ->. congruence.
  - intros k H1 H2. apply dict_get_set_ne. destruct Hk; congruence.
Qed.

Lemma only_adds_notes (rc : dict) :
  only_adds rc (fst (dict_setdefault "notes" (JStr EmptyString) rc)).
Proof.
  unfold dict_setdefault. destruct (dict_get "notes" rc) eqn:E; cbn [fst].
  - apply only_adds_refl.
  - apply only_adds_set; auto.
Qed.

Lemma only_adds_enriched (c : string) (rc : dict) : only_adds rc (enriched_rc c rc).
Proof.
  unfold enriched_rc. cbv zeta.
  pose proof (only_adds_notes rc) as H1.
  destruct (dict_has "irpf_regime" _) eqn:Hh; [exact H1|].
  destruct (dict_get c CCAA_REGION_MAP) as [[| | | | | |e]|]; try exact H1.
  destruct (dict_get "irpf_regime" e); [|exact H1].
  eapply only_adds_trans; [exact H1|]. apply only_adds_set; [auto|].
  unfold dict_has in Hh. destruct (dict_get "irpf_regime" _); [discriminate|reflexivity].
Qed.

Lemma only_adds_final (ccaa : json) (rc : dict) : only_adds rc (final_rc ccaa rc).
Proof.
  destruct ccaa; try apply only_adds_notes. apply only_adds_enriched.
Qed.

Lemma setdefault_notes_fixed (rc : dict) :
  dict_has "notes" rc = true ->
  fst (dict_setdefault "notes" (JStr EmptyString) rc) = rc.
Proof.
  unfold dict_has, dict_setdefault. destruct (dict_get "notes" rc); [reflexivity|discriminate].
Qed.

Lemma setdefault_notes_notes (rc : dict) :
  dict_has "notes" (fst (dict_setdefault "notes" (JStr EmptyString) rc)) = true.
Proof.
  unfold dict_has, dict_setdefault. destruct (dict_get "notes" rc) eqn:E; cbn [fst].
  - rewrite E. reflexivity.
  - rewrite dict_get_set_eq. reflexivity.
Qed.

Lemma final_rc_notes (ccaa : json) (rc : dict) :
  dict_has "notes" (final_rc ccaa rc) = true.
Proof.
  destruct ccaa; try apply setdefault_notes_notes.
  unfold final_rc, dict_has. rewrite enriched_rc_notes. reflexivity.
Qed.

Lemma enriched_rc_fixed (c : string) (rc : dict) :
  enriched_rc c (enriched_rc c rc) = enriched_rc c rc.
Proof.
  pose proof (final_rc_notes (JStr c) rc) as Hn. cbn [final_rc] in Hn.
  unfold enriched_rc at 1. cbv zeta. rewrite (setdefault_notes_fixed _ Hn).
  destruct (dict_has "irpf_regime" (enriched_rc c rc)) eqn:Hh; [reflexivity|].
  destruct (dict_get c CCAA_REGION_MAP) as [[| | | | | |e]|] eqn:Hc; try reflexivity.
  destruct (dict_get "irpf_regime" e) as [t|] eqn:He; [|reflexivity].
  exfalso. revert Hh. unfold enriched_rc. cbv zeta.
  destruct (dict_has "irpf_regime" (fst (dict_setdefault "notes" (JStr EmptyString) rc)))
    eqn:Hh1; [congruence|].
  rewrite Hc, He. unfold dict_has. rewrite dict_get_set_eq. discriminate.
Qed.

Lemma final_rc_fixed (ccaa : json) (rc : dict) :
  final_rc ccaa (final_rc ccaa rc) = final_rc ccaa rc.
Proof.
  destruct ccaa; try (apply setdefault_notes_fixed, setdefault_notes_notes).
  apply enriched_rc_fixed.
Qed.

(** Every region of the table has the regime [regime_of] gives. *)
Lemma region_map_regime (c : string) :
  dict_get c CCAA_REGION_MAP
  = if dict_has c CCAA_REGION_MAP then Some (regime (regime_of c)) else None.
Proof.
  unfold dict_has. destruct (dict_get c CCAA_REGION_MAP) as [entry|] eqn:E;
    [|reflexivity].
  f_equal. revert E. unfold CCAA_REGION_MAP. simpl.
  repeat match goal with
         | |- context [String.eqb c ?l] =>
             let E := fresh "E" in
             destruct (String.eqb c l) eqn:E;
             [apply String.eqb_eq in E; subst c; intros [= <-]; reflexivity|]
         end.
  discriminate.
Qed.

Lemma regime_of_truthy (c : string) : truthy (JStr (regime_of c)) = true.
Proof.
  unfold regime_of. destruct (String.eqb c _); [reflexivity|].
  destruct (String.eqb c _); reflexivity.
Qed.

(** The tag of the result for a document with a text as region identifier
    and no tag. *)
Lemma enriched_rc_tag (c : string) (rc : dict) :
  dict_has "irpf_regime" rc = false ->
  dict_get "irpf_regime" (enriched_rc c rc)
  = if dict_has c CCAA_REGION_MAP then Some (JStr (regime_of c)) else None.
Proof.
  intros Hno. unfold enriched_rc. cbv zeta.
  rewrite setdefault_notes_has, Hno, region_map_regime.
  assert (Hnone : dict_get "irpf_regime"
                    (fst (dict_setdefault "notes" (JStr EmptyString) rc)) = None).
  { rewrite dict_setdefault_other by discriminate.
    unfold dict_has in Hno. destruct (dict_get "irpf_regime" rc); [discriminate|reflexivity]. }
  destruct (dict_has c CCAA_REGION_MAP); [|exact Hnone].
  cbn [regime dict_get String.eqb Ascii.eqb Bool.eqb]. apply dict_get_set_eq.
Qed.

End EnrichmentWhole.

Lemma final_rc_notes_value (ccaa : json) (rc : dict) :
  dict_get "notes" (final_rc ccaa rc)
  = Some (dict_get_or "notes" (JStr EmptyString) rc).
Proof.
  destruct ccaa; try apply enriched_rc_notes;
    unfold final_rc, dict_setdefault, dict_get_or;
    (destruct (dict_get "notes" rc) eqn:Hn; cbn [fst]; [exact Hn|apply dict_get_set_eq]).
Qed.

(** C3, amended. What enrichment does about [notes], for every document.
    When [region_config] is a dictionary whose region identifier [ccaa] is
    true for Python, enrichment returns a document whose [region_config]
    has a [notes] field, holding the value the document had there, else the
    empty string; but for an identifier that is a list or a dictionary (it
    cannot be looked up in the table) in a [region_config] without
    [irpf_regime], where it raises [TypeError].  When [region_config] is
    not there, or is a dictionary whose [ccaa] is not there or is false for
    Python, the document is returned as it is: no [notes] field is added.
    When [region_config] is anything but a dictionary, enrichment raises
    [AttributeError]. *)
Theorem enrich_ensures_notes (payload : dict) :
  match dict_get "region_config" payload with
  | Some (JDict rc) =>
      let ccaa := dict_get_or "ccaa" JNull rc in
      if truthy ccaa then
        if is_scalar ccaa || dict_has "irpf_regime" rc then
          notes_ensured payload
          /\ exists (data rc' : dict),
               enrich_region_config payload = Ok data
               /\ dict_get "region_config" data = Some (JDict rc')
               /\ dict_get "notes" rc'
                  = Some (dict_get_or "notes" (JStr EmptyString) rc)
        else enrich_region_config payload = Err TypeError
      else enrich_region_config payload = Ok payload
  | Some _ => enrich_region_config payload = Err AttributeError
  | None => enrich_region_config payload = Ok payload
  end.
Proof.
  pose proof (enrich_outcome payload) as H.
  destruct (dict_get "region_config" payload) as [v|]; [|exact H].
  destruct v as [| | | | | |rc]; try exact H.
  cbv zeta in H |- *.
  destruct (truthy (dict_get_or "ccaa" JNull rc)); cbn [negb] in H; [|exact H].
  destruct (is_scalar (dict_get_or "ccaa" JNull rc) || dict_has "irpf_regime" rc);
    [|exact H].
  pose proof (final_rc_notes_value (dict_get_or "ccaa" JNull rc) rc) as Hn.
  split.
  - eexists _, _. split; [exact H|]. split; [apply dict_get_set_eq|].
    unfold dict_has. rewrite Hn. reflexivity.
  - eexists _, _. split; [exact H|]. split; [apply dict_get_set_eq|exact Hn].
Qed.

(** X17. Enrichment only adds: a result differs from the document at most
    in [region_config], where every field is kept with its value and
    nothing is added but [notes] and [irpf_regime]; a document without a
    [region_config] comes back as it is. *)
Theorem enrich_only_adds (payload data : dict) :
  enrich_region_config payload = Ok data ->
  (forall k, k <> "region_config" -> dict_get k data = dict_get k payload)
  /\ (dict_get "region_config" payload = None -> data = payload)
  /\ (forall v, dict_get "region_config" payload = Some v ->
        exists rc rc' : dict,
          v = JDict rc
          /\ dict_get "region_config" data = Some (JDict rc')
          /\ only_adds rc rc').
Proof.
  rewrite enrich_outcome.
  destruct (dict_get "region_config" payload) as [v|] eqn:Hrc.
  - destruct v as [| | | | | |rc]; try discriminate. cbv zeta.
    destruct (negb (truthy (dict_get_or "ccaa" JNull rc))).
    + intros [= <-]. repeat split; try discriminate.
      intros v [= <-]. exists rc, rc. auto using only_adds_refl.
    + destruct (is_scalar _ || dict_has "irpf_regime" rc); [|discriminate].
      intros [= <-]. repeat split; try discriminate.
      * intros k Hk. apply dict_get_set_ne, Hk.
      * intros v [= <-]. eexists rc, _.
        split; [reflexivity|]. split; [apply dict_get_set_eq|apply only_adds_final].
  - intros [= <-]. repeat split; try discriminate.
Qed.

Lemma enrich_only_adds_witness :
  (forall k, k <> "region_config" ->
     dict_get k [("region_config",
                  JDict [("ccaa", JStr "País Vasco"); ("notes", JStr EmptyString);
                         ("irpf_regime", JStr "FORAL_PV")]);
                 ("worker", JDict [("nif", JStr "12345678Z")])]
     = dict_get k sample_region)
  /\ (dict_get "region_config" sample_region = None ->
      [("region_config",
        JDict [("ccaa", JStr "País Vasco"); ("notes", JStr EmptyString);
               ("irpf_regime", JStr "FORAL_PV")]);
       ("worker", JDict [("nif", JStr "12345678Z")])] = sample_region)
  /\ (forall v, dict_get "region_config" sample_region = Some v ->
        exists rc rc' : dict,
          v = JDict rc
          /\ dict_get "region_config"
               [("region_config",
                 JDict [("ccaa", JStr "País Vasco"); ("notes", JStr EmptyString);
                        ("irpf_regime", JStr "FORAL_PV")]);
                ("worker", JDict [("nif", JStr "12345678Z")])]
             = Some (JDict rc')
          /\ only_adds rc rc').
Proof.
  apply (enrich_only_adds sample_region). reflexivity.
Defined.

(** X18. Enrichment is idempotent: enriching a result gives the result
    back. *)
Theorem enrich_idempotent (payload data : dict) :
  enrich_region_config payload = Ok data ->
  enrich_region_config data = Ok data.
Proof.
  intros H. pose proof H as H0. rewrite enrich_outcome in H.
  destruct (dict_get "region_config" payload) as [v|] eqn:Hrc.
  - destruct v as [| | | | | |rc]; try discriminate. cbv zeta in H.
    destruct (negb (truthy (dict_get_or "ccaa" JNull rc))) eqn:Ht.
    + injection H as <-. exact H0.
    + destruct (is_scalar _ || dict_has "irpf_regime" rc) eqn:Hs; [|discriminate].
      injection H as <-.
      set (ccaa := dict_get_or "ccaa" JNull rc) in *.
      destruct (only_adds_final ccaa rc) as [Hkeep Hsame].
      assert (Hccaa : dict_get_or "ccaa" JNull (final_rc ccaa rc) = ccaa).
      { unfold dict_get_or. rewrite Hsame by discriminate. reflexivity. }
      rewrite enrich_outcome, dict_get_set_eq. cbv zeta.
      rewrite Hccaa, Ht.
      assert (Hs' : is_scalar ccaa || dict_has "irpf_regime" (final_rc ccaa rc) = true).
      { apply orb_true_iff in Hs as [Hs|Hs]; [rewrite Hs; reflexivity|].
        unfold dict_has in *.
        destruct (dict_get "irpf_regime" rc) as [t|] eqn:Etag; [|discriminate].
        rewrite (Hkeep _ _ Etag). apply orb_true_r. }
      rewrite Hs', final_rc_fixed, dict_set_set. reflexivity.
  - injection H as <-. exact H0.
Qed.

Lemma enrich_idempotent_witness :
  enrich_region_config
    [("region_config",
      JDict [("ccaa", JStr "País Vasco"); ("notes", JStr EmptyString);
             ("irpf_regime", JStr "FORAL_PV")]);
     ("worker", JDict [("nif", JStr "12345678Z")])]
  = Ok [("region_config",
         JDict [("ccaa", JStr "País Vasco"); ("notes", JStr EmptyString);
                ("irpf_regime", JStr "FORAL_PV")]);
        ("worker", JDict [("nif", JStr "12345678Z")])].
Proof.
  apply (enrich_idempotent sample_region). reflexivity.
Defined.

(** X19. Enrichment raises in two cases only: an [AttributeError] when
    [region_config] is bound to something that is not a dictionary, and a
    [TypeError] when the region identifier is a non-empty list or
    dictionary and [region_config] has no regime tag. *)
Theorem enrich_raises (payload : dict) (e : exn) :
  enrich_region_config payload = Err e
  <-> (e = AttributeError
       /\ exists v, dict_get "region_config" payload = Some v
                    /\ forall rc, v <> JDict rc)
      \/ (e = TypeError
          /\ exists (rc : dict) (ccaa : json),
               dict_get "region_config" payload = Some (JDict rc)
               /\ dict_get "ccaa" rc = Some ccaa
               /\ truthy ccaa = true
               /\ is_scalar ccaa = false
               /\ dict_has "irpf_regime" rc = false).
Proof.
  rewrite enrich_outcome.
  destruct (dict_get "region_config" payload) as [v|] eqn:Hrc.
  - destruct v as [| | | | | |rc];
      try (split;
           [intros [= <-]; left; split; [reflexivity|];
            eexists; split; [reflexivity|discriminate]
           |intros [[-> _]|[_ (rc & ccaa & [= ] & _)]]; reflexivity]).
    cbv zeta. unfold dict_get_or.
    destruct (dict_get "ccaa" rc) as [ccaa|] eqn:Hccaa.
    + destruct (truthy ccaa) eqn:Ht; cbn [negb].
      * destruct (is_scalar ccaa) eqn:Hs; cbn [orb].
        -- split; [discriminate|].
           intros [[_ (v & [= <-] & Hv)]|[_ (rc0 & c0 & [= <-] & Hc0 & _ & Hs0 & _)]].
           ++ destruct (Hv rc eq_refl).
           ++ congruence.
        -- destruct (dict_has "irpf_regime" rc) eqn:Hh.
           ++ split; [discriminate|].
              intros [[_ (v & [= <-] & Hv)]|[_ (rc0 & c0 & [= <-] & _ & _ & _ & Hh0)]].
              ** destruct (Hv rc eq_refl).
              ** congruence.
           ++ split.
              ** intros [= <-]. right. split; [reflexivity|].
                 exists rc, ccaa. auto.
              ** intros [[_ (v & [= <-] & Hv)]|[-> _]]; [|reflexivity].
                 destruct (Hv rc eq_refl).
      * split; [discriminate|].
        intros [[_ (v & [= <-] & Hv)]|[_ (rc0 & c0 & [= <-] & Hc0 & Ht0 & _)]].
        -- destruct (Hv rc eq_refl).
        -- congruence.
    + cbn [truthy negb]. split; [discriminate|].
      intros [[_ (v & [= <-] & Hv)]|[_ (rc0 & c0 & [= <-] & Hc0 & _)]].
      * destruct (Hv rc eq_refl).
      * congruence.
  - split; [discriminate|].
    intros [[_ (v & Hv & _)]|[_ (rc0 & c0 & Hv & _)]]; discriminate.
Qed.

(** X20. For a document whose region identifier is a non-empty text and
    whose [region_config] has no regime tag, enrichment returns, and the
    tag of the result is the regime of the region when the table has it
    (FORAL_NAVARRA for Navarra, FORAL_PV for the Basque Country, AEAT for
    the seventeen others); for a text the table does not have, the result
    has no tag. *)
Theorem enrich_region_tag (payload rc : dict) (c : string) :
  dict_get "region_config" payload = Some (JDict rc) ->
  dict_get "ccaa" rc = Some (JStr c) ->
  c <> EmptyString ->
  dict_has "irpf_regime" rc = false ->
  exists data : dict,
    enrich_region_config payload = Ok data
    /\ regime_tag data
       = if dict_has c CCAA_REGION_MAP then Some (JStr (regime_of c)) else None.
Proof.
  intros Hrc Hccaa Hc Hno.
  exists (dict_set "region_config" (JDict (enriched_rc c rc)) payload).
  split; [apply enrich_with_identifier; assumption|].
  unfold regime_tag. rewrite dict_get_set_eq. apply enriched_rc_tag, Hno.
Qed.

Lemma enrich_region_tag_witness :
  exists data : dict,
    enrich_region_config [("region_config", JDict [("ccaa", JStr "pais vasco")])] = Ok data
    /\ regime_tag data
       = if dict_has "pais vasco" CCAA_REGION_MAP
         then Some (JStr (regime_of "pais vasco")) else None.
Proof.
  apply (enrich_region_tag [("region_config", JDict [("ccaa", JStr "pais vasco")])]
           [("ccaa", JStr "pais vasco")] "pais vasco");
    [reflexivity | reflexivity | discriminate | reflexivity].
Defined.

(** X21. Enrichment settles the regime question for the regions of the
    table and for those only: for a document whose region identifier is a
    non-empty text and whose [region_config] has no regime tag, the
    detector run on the enriched document reports the regime gap if and
    only if the table does not have the region. *)
Theorem enrich_settles_regime
  (payload rc data d1 : dict) (c : string) (gaps : list MissingField) :
  dict_get "region_config" payload = Some (JDict rc) ->
  dict_get "ccaa" rc = Some (JStr c) ->
  c <> EmptyString ->
  dict_has "irpf_regime" rc = false ->
  enrich_region_config payload = Ok data ->
  detect_missing data = (d1, Ok gaps) ->
  (In "region_config.irpf_regime" (map path gaps)
   <-> dict_has c CCAA_REGION_MAP = false).
Proof.
  intros Hrc Hccaa Hc Hno He Hdet.
  rewrite (enrich_with_identifier payload rc c Hrc Hccaa Hc) in He.
  injection He as <-.
  rewrite (reported_iff_fires _ d1 gaps _ Hdet)
    by (cbn; tauto).
  unfold rule_fires. cbn [String.eqb Ascii.eqb Bool.eqb].
  change (unset_at "region_config.irpf_regime" ?d)
    with (unset2 "region_config" "irpf_regime" d).
  unfold unset2. cbn [get_by_path]. rewrite dict_get_set_eq.
  rewrite (enriched_rc_tag c rc Hno).
  destruct (dict_has c CCAA_REGION_MAP).
  - rewrite regime_of_truthy. cbn. split; discriminate.
  - split; reflexivity.
Qed.

Lemma enrich_settles_regime_witness :
  In "region_config.irpf_regime"
    (map path (gaps_of false true true true true true false JNull))
  <-> dict_has "Galicia" CCAA_REGION_MAP = false.
Proof.
  apply (enrich_settles_regime
           [("region_config", JDict [("ccaa", JStr "Galicia")])]
           [("ccaa", JStr "Galicia")]
           [("region_config",
             JDict [("ccaa", JStr "Galicia"); ("notes", JStr EmptyString);
                    ("irpf_regime", JStr "AEAT")])]
           (probed [("region_config",
                     JDict [("ccaa", JStr "Galicia"); ("notes", JStr EmptyString);
                            ("irpf_regime", JStr "AEAT")])])
           "Galicia");
    [reflexivity | reflexivity | discriminate | reflexivity | reflexivity
    | vm_compute; reflexivity].
Defined.

(** ** Parsing an answer *)

Section Answers.

Lemma not_in_false (v : string) (l : list string) : not_in v l = false <-> In v l.
Proof.
  unfold not_in. rewrite negb_false_iff, existsb_exists. split.
  - intros (x & Hx & E). apply String.eqb_eq in E. subst x. exact Hx.
  - intros H. exists v. split; [exact H|apply String.eqb_refl].
Qed.

Lemma parse_input_enum_eq (s : string) (mf : MissingField) (opts : list string) :
  type mf = "enum" ->
  enum mf = Some opts ->
  opts <> [] ->
  _parse_input s mf
  = if not_in (PyStr.strip s) opts
    then Err (ValueError ("Valor '" ++ PyStr.strip s ++ "' no está en " ++ str_list opts))
    else Ok (JStr (PyStr.strip s)).
Proof.
  intros Ht He Hne. unfold _parse_input. rewrite Ht, He.
  cbn [String.eqb Ascii.eqb Bool.eqb enum_list enum_truthy]. cbv zeta.
  destruct opts as [|o opts]; [congruence|]. reflexivity.
Qed.

End Answers.

(** X23. An answer to a gap with options is checked against them: after
    white space is stripped from both ends, the answer is returned when it
    is one of the options, letter for letter, and rejected with a
    [ValueError] that names it and lists the options otherwise. *)
Theorem parse_input_enum (s : string) (mf : MissingField) (opts : list string) :
  type mf = "enum" ->
  enum mf = Some opts ->
  opts <> [] ->
  (In (PyStr.strip s) opts -> _parse_input s mf = Ok (JStr (PyStr.strip s)))
  /\ (~ In (PyStr.strip s) opts ->
      _parse_input s mf
      = Err (ValueError ("Valor '" ++ PyStr.strip s ++ "' no está en " ++ str_list opts)))
  /\ (forall x, _parse_input s mf = Ok x -> x = JStr (PyStr.strip s) /\ In x (map JStr opts)).
Proof.
  intros Ht He Hne. rewrite (parse_input_enum_eq s mf opts Ht He Hne).
  destruct (not_in (PyStr.strip s) opts) eqn:Hin.
  - assert (Hn : ~ In (PyStr.strip s) opts).
    { intros H. apply not_in_false in H. congruence. }
    repeat split; try discriminate; tauto.
  - apply not_in_false in Hin. repeat split; try tauto.
    + injection H as <-. reflexivity.
    + injection H as <-. apply in_map, Hin.
Qed.

Lemma parse_input_enum_witness :
  (In (PyStr.strip " FORAL_PV ") ["AEAT"; "FORAL_NAVARRA"; "FORAL_PV"] ->
   _parse_input " FORAL_PV " gap_regime = Ok (JStr (PyStr.strip " FORAL_PV ")))
  /\ (~ In (PyStr.strip " FORAL_PV ") ["AEAT"; "FORAL_NAVARRA"; "FORAL_PV"] ->
      _parse_input " FORAL_PV " gap_regime
      = Err (ValueError ("Valor '" ++ PyStr.strip " FORAL_PV " ++ "' no está en "
                         ++ str_list ["AEAT"; "FORAL_NAVARRA"; "FORAL_PV"])))
  /\ (forall x, _parse_input " FORAL_PV " gap_regime = Ok x ->
        x = JStr (PyStr.strip " FORAL_PV ")
        /\ In x (map JStr ["AEAT"; "FORAL_NAVARRA"; "FORAL_PV"])).
Proof.
  apply (parse_input_enum " FORAL_PV " gap_regime ["AEAT"; "FORAL_NAVARRA"; "FORAL_PV"]);
    [reflexivity | reflexivity | discriminate].
Defined.

(** X24. What [_parse_input] can give: for a gap of type number, a float;
    for any other type, the answer with white space stripped from both
    ends; and it raises nothing but a [ValueError], which only a gap of
    type number or enum can cause.  A gap of type enum without options
    accepts any answer. *)
Theorem parse_input_result (s : string) (mf : MissingField) :
  match _parse_input s mf with
  | Ok x =>
      if String.eqb (type mf) "number" then exists f : spec_float, x = JFloat f
      else x = JStr (PyStr.strip s)
  | Err e =>
      (exists msg : string, e = ValueError msg)
      /\ (type mf = "number"
          \/ (type mf = "enum" /\ exists o opts, enum mf = Some (o :: opts)))
  end.
Proof.
  unfold _parse_input.
  destruct (String.eqb (type mf) "number") eqn:Hn.
  - apply String.eqb_eq in Hn. cbn [py_float].
    destruct (PyFloat.of_string _); cbn [bind_result]; eauto.
  - destruct (String.eqb (type mf) "enum") eqn:He; [|reflexivity].
    apply String.eqb_eq in He. cbv zeta.
    destruct (enum mf) as [[|o opts]|]; cbn [enum_truthy andb]; try reflexivity.
    destruct (not_in _ _); [|reflexivity].
    split; [eauto|]. right. eauto.
Qed.

Lemma default_resolution_complete_witness :
  exists (d2 : dict) (w : list string),
    resolve_missing (gaps_of false true true true true true true (JInt 2025)) "default"
      (probed [("period", JDict [("year", JInt 2025)])], mkConsole [] [])
    = ((d2, mkConsole [] []), Ok w)
    /\ detect_missing d2 = (d2, Ok []).
Proof.
  apply (default_resolution_complete
           [("period", JDict [("year", JInt 2025)])]
           (probed [("period", JDict [("year", JInt 2025)])])
           (gaps_of false true true true true true true (JInt 2025))
           [] (JInt 2025) (mkConsole [] []));
    vm_compute; reflexivity.
Defined.

(** ** The copy of line 112 *)

(** X25. The copy holds the document of the payload: when
    [json.loads(json.dumps(payload))] returns, serialising the copy gives
    the text that serialising the payload gave, the copy is a new object
    when the payload is a list or a dictionary, and the heap has only
    grown. *)
Theorem copy_holds_same_document (h h' : heap) (payload data : val) :
  (text <- dumps payload ;; loads_m text)%st h = (h', Ok data) ->
  exists (j : json) (new : list obj),
    dumps payload h = (h, Ok j)
    /\ dumps data h' = (h', Ok j)
    /\ h' = (h ++ new)%list
    /\ val_above (length h) data.
Proof.
  unfold bind, dumps, loads_m.
  destruct (reify (S (length h)) h payload) as [j|] eqn:Hj; [|discriminate].
  destruct (loads j h) as [h1 v] eqn:Hl. intros [= <- <-].
  destruct (loads_new_all j h) as (new & Hnew & _ & Hv).
  rewrite Hl in Hnew, Hv. cbn [fst snd] in Hnew, Hv.
  exists j, new. repeat split; try assumption.
  pose proof (loads_reads_back_all j h (S (length h1))) as Hb.
  rewrite Hl in Hb. cbn [fst snd] in Hb. rewrite Hb; [reflexivity|lia].
Qed.

Lemma copy_holds_same_document_witness :
  exists (j : json) (new : list obj),
    dumps (VRef 1) [OList [VInt 1]; ODict [("a", VRef 0)]]
    = ([OList [VInt 1]; ODict [("a", VRef 0)]], Ok j)
    /\ dumps (VRef 3)
         [OList [VInt 1]; ODict [("a", VRef 0)]; OList [VInt 1]; ODict [("a", VRef 2)]]
       = ([OList [VInt 1]; ODict [("a", VRef 0)]; OList [VInt 1]; ODict [("a", VRef 2)]],
          Ok j)
    /\ [OList [VInt 1]; ODict [("a", VRef 0)]; OList [VInt 1]; ODict [("a", VRef 2)]]
       = ([OList [VInt 1]; ODict [("a", VRef 0)]] ++ new)%list
    /\ val_above (length [OList [VInt 1]; ODict [("a", VRef 0)]]) (VRef 3).
Proof.
  apply (copy_holds_same_document [OList [VInt 1]; ODict [("a", VRef 0)]] _ (VRef 1)).
  reflexivity.
Defined.

(** ** The call to the model *)

Section CallFacts.

Variable svc : services.

Lemma extract_output_cons (it : item) (rest : list item) (output_obj : json) :
  extract_output svc (it :: rest) output_obj
  = match read_part it with
    | Some c => bind_result (parsed_or_loaded svc c) (extract_output svc rest)
    | None => extract_output svc rest output_obj
    end.
Proof.
  unfold read_part. cbn [extract_output].
  destruct (is_type (i_type it) "message"); [|reflexivity].
  destruct (first_output_text (i_content it)); reflexivity.
Qed.

Lemma extract_output_value (items : list item) (init v : json) :
  extract_output svc items init = Ok v ->
  match last_some (map read_part items) with
  | Some c => parsed_or_loaded svc c = Ok v
  | None => v = init
  end.
Proof.
  revert init. induction items as [|it rest IH]; intros init.
  - intros [= <-]. reflexivity.
  - rewrite extract_output_cons. cbn [map last_some].
    destruct (read_part it) as [c|].
    + destruct (parsed_or_loaded svc c) as [v1|e] eqn:Hc; [|discriminate].
      cbn [bind_result]. intros H. apply IH in H.
      destruct (last_some (map read_part rest)); [exact H|]. congruence.
    + intros H. apply IH in H.
      destruct (last_some (map read_part rest)); exact H.
Qed.

Lemma extract_output_returns (items : list item) (init : json) :
  (forall c, In (Some c) (map read_part items) ->
             exists v, parsed_or_loaded svc c = Ok v) ->
  exists v, extract_output svc items init = Ok v.
Proof.
  revert init. induction items as [|it rest IH]; intros init Hall.
  - exists init. reflexivity.
  - rewrite extract_output_cons. cbn [map In] in Hall.
    destruct (read_part it) as [c|].
    + destruct (Hall c (or_introl eq_refl)) as [v1 ->]. cbn [bind_result].
      apply IH. intros c' Hc'. apply Hall. right. exact Hc'.
    + apply IH. intros c' Hc'. apply Hall. right. exact Hc'.
Qed.

Lemma merge_warnings_ok (output_obj out : json) (w0 : string) (ws : list string) :
  merge_warnings output_obj (w0 :: ws) = Ok out ->
  exists (d : dict) (l : list json),
    output_obj = JDict d
    /\ dict_get_or "warnings" (JList []) d = JList l
    /\ out = JDict (dict_set "warnings" (JList (l ++ map JStr (w0 :: ws))) d).
Proof.
  unfold merge_warnings, dict_setdefault, dict_get_or.
  destruct output_obj as [| | | | | |d]; try discriminate.
  destruct (dict_get "warnings" d) as [v|] eqn:Hw.
  - destruct v as [| | | | |l|]; try discriminate.
    intros [= <-]. exists d, l. rewrite Hw. repeat split; reflexivity.
  - intros [= <-]. exists d, []. rewrite Hw, dict_set_set. repeat split; reflexivity.
Qed.

Lemma finish_no_warnings (output : list item) (out : json) :
  finish svc output [] = Returned out ->
  extract_output svc output JNull = Ok out.
Proof.
  unfold finish.
  destruct (extract_output svc output JNull) as [obj|e]; [|discriminate].
  cbn [merge_warnings].
  destruct obj; try discriminate;
    (destruct (validate_with_schema svc _ _ _); [|discriminate]);
    intros [= <-]; reflexivity.
Qed.

Lemma finish_warnings (output : list item) (out : json) (w0 : string) (ws : list string) :
  finish svc output (w0 :: ws) = Returned out ->
  exists (d : dict) (l : list json),
    extract_output svc output JNull = Ok (JDict d)
    /\ dict_get_or "warnings" (JList []) d = JList l
    /\ out = JDict (dict_set "warnings" (JList (l ++ map JStr (w0 :: ws))) d).
Proof.
  unfold finish.
  destruct (extract_output svc output JNull) as [obj|e]; [|discriminate].
  destruct (merge_warnings obj (w0 :: ws)) as [merged|e] eqn:Hm.
  - apply merge_warnings_ok in Hm as (d & l & -> & Hl & ->).
    destruct (validate_with_schema svc _ _ _); [|discriminate].
    intros [= <-]. exists d, l. split; [reflexivity|]. split; [exact Hl|reflexivity].
  - destruct obj; discriminate.
Qed.

Lemma preflight_fail_cases (data : dict) (con : console) :
  preflight "fail" (data, con)
  = match detect_missing data with
    | (d1, Ok []) => ((d1, con), Ok [])
    | (d1, Ok (g :: gaps)) =>
        ((d1, con),
         Err (ValueError ("Faltan datos críticos: "
                          ++ PyStr.join "; " (map path (g :: gaps)))))
    | (d1, Err e) => ((d1, con), Err e)
    end.
Proof.
  unfold preflight, bind, on_fst. cbn [fst snd].
  destruct (detect_missing data) as [d1 [[|g gaps]|e]]; reflexivity.
Qed.

End CallFacts.

(** X26. Under "fail" nothing incomplete reaches the model.  A call sends
    at most one request and leaves the console alone; when it sends one,
    the input passed validation, and the document sent is the enriched
    input with [company] and [tables] ensured, on which no rule of the
    detector fires; and when the call returns, it returns the object read
    from the answer of the model, unchanged. *)
Theorem call_fail_gate (svc : services) (input_payload : dict) (w w' : world)
  (r : outcome (client_error svc) json) :
  call_gpt5_compute_payroll svc input_payload "fail" w = (w', r) ->
  w_console w' = w_console w
  /\ (w_sent w' = w_sent w
      \/ exists data : dict,
           validate_with_schema svc (JDict input_payload) (PAYROLL_INPUT_SCHEMA svc)
             "PayrollInputSchema" = Ok tt
           /\ enrich_region_config input_payload = Ok data
           /\ w_sent w' = (w_sent w ++ [probed data])%list
           /\ (forall p, In p detector_paths -> ~ rule_fires p data)
           /\ forall out, r = Returned out ->
                exists output,
                  responses_create svc (probed data) = inr output
                  /\ extract_output svc output JNull = Ok out).
Proof.
  unfold call_gpt5_compute_payroll.
  destruct (validate_with_schema svc (JDict input_payload) _ _) as [[]|e] eqn:Hval;
    [|intros [= <- <-]; auto].
  destruct (enrich_region_config input_payload) as [data|e] eqn:Hen;
    [|intros [= <- <-]; auto].
  rewrite preflight_fail_cases.
  destruct (detect_missing data) as [d1 [[|g gaps]|e]] eqn:Hdet;
    try (intros [= <- <-]; auto).
  assert (Hd1 : d1 = probed data).
  { destruct (detect_missing_inv data d1 [] Hdet)
      as (a & b & company & tables & py & b5 & b6 & b7 & _ & _ & Hd1 & _).
    exact Hd1. }
  subst d1. cbv zeta.
  assert (Hno : forall p, In p detector_paths -> ~ rule_fires p data).
  { intros p Hp Hf.
    apply (reported_iff_fires data (probed data) [] p Hdet Hp) in Hf. destruct Hf. }
  destruct (responses_create svc (probed data)) as [ce|output] eqn:Hresp;
    intros [= <- <-]; cbn [w_console w_sent]; (split; [reflexivity|]); right;
    exists data; repeat split; try assumption; try discriminate.
  intros out Hout. exists output. split; [exact Hresp|].
  apply finish_no_warnings, Hout.
Qed.

Lemma call_fail_gate_witness :
  w_console sample_world = w_console (mkWorld (mkConsole [] []) [])
  /\ (w_sent sample_world = w_sent (mkWorld (mkConsole [] []) [])
      \/ exists data : dict,
           validate_with_schema sample_services (JDict sample_complete)
             (PAYROLL_INPUT_SCHEMA sample_services) "PayrollInputSchema" = Ok tt
           /\ enrich_region_config sample_complete = Ok data
           /\ w_sent sample_world
              = (w_sent (mkWorld (mkConsole [] []) []) ++ [probed data])%list
           /\ (forall p, In p detector_paths -> ~ rule_fires p data)
           /\ forall out,
                Returned (E := client_error sample_services) (JDict [("net", JInt 1)])
                = Returned out ->
                exists output,
                  responses_create sample_services (probed data) = inr output
                  /\ extract_output sample_services output JNull = Ok out).
Proof.
  apply (call_fail_gate sample_services sample_complete
           (mkWorld (mkConsole [] []) []) sample_world
           (Returned (JDict [("net", JInt 1)]))).
  vm_compute. reflexivity.
Defined.

(** X27. The object read from the answer of the model is that of the last
    message that has a part of type [output_text], taken from the first
    such part of that message: its [parsed] object when that is true for
    Python, else its text read with [json.loads].  The reading returns
    whenever each such part can be read, and gives [None] when no message
    has one. *)
Theorem extract_output_last (svc : services) (items : list item) :
  (forall v, extract_output svc items JNull = Ok v ->
     match last_some (map read_part items) with
     | Some c => parsed_or_loaded svc c = Ok v
     | None => v = JNull
     end)
  /\ ((forall c, In (Some c) (map read_part items) ->
                 exists v, parsed_or_loaded svc c = Ok v) ->
      exists v, extract_output svc items JNull = Ok v).
Proof.
  split.
  - intros v. apply extract_output_value.
  - apply extract_output_returns.
Qed.

(** X28. Every default applied is reported.  A call under "default" that
    returns has left the console alone and has sent one request, with the
    enriched document after the defaults of the gaps the detector found
    were applied to it.  What it returns is made from the object read from
    the answer of the model to that request: that object itself when there
    was no gap, and otherwise that object, a dictionary, with one warning
    for each gap appended, in the order of the gaps, to the warnings it
    had. *)
Theorem call_default_reports (svc : services) (input_payload : dict) (w w' : world)
  (out : json) :
  call_gpt5_compute_payroll svc input_payload "default" w = (w', Returned out) ->
  exists (data d1 d2 : dict) (gaps : list MissingField) (output : list item) (obj : json),
    enrich_region_config input_payload = Ok data
    /\ detect_missing data = (d1, Ok gaps)
    /\ apply_values (zip gaps (map default gaps)) d1 = (d2, Ok tt)
    /\ w_console w' = w_console w
    /\ w_sent w' = (w_sent w ++ [d2])%list
    /\ responses_create svc d2 = inr output
    /\ extract_output svc output JNull = Ok obj
    /\ (gaps = [] -> out = obj)
    /\ (gaps <> [] ->
        exists (d : dict) (l : list json),
          obj = JDict d
          /\ dict_get_or "warnings" (JList []) d = JList l
          /\ out = JDict (dict_set "warnings"
                            (JList (l ++ map (fun g => JStr (warning_text
                                                "Valor por defecto aplicado en " g)) gaps))
                            d)).
Proof.
  unfold call_gpt5_compute_payroll.
  destruct (validate_with_schema svc (JDict input_payload) _ _) as [[]|e];
    [|discriminate].
  destruct (enrich_region_config input_payload) as [data|e]; [|discriminate].
  unfold preflight, bind, on_fst. cbn [fst snd].
  destruct (detect_missing data) as [d1 [gaps|e]] eqn:Hdet; [|discriminate].
  destruct (resolve_missing gaps "default" (d1, w_console w)) as [[d2 con] [ws|e]] eqn:Hres;
    [|discriminate].
  apply resolve_missing_default_values in Hres as (-> & -> & Hval).
  cbv zeta. destruct (responses_create svc d2) as [ce|output] eqn:Hresp; [discriminate|].
  intros [= <- Hfin]. cbn [w_console w_sent].
  destruct gaps as [|g gaps].
  - cbn [map] in Hfin. apply finish_no_warnings in Hfin.
    exists data, d1, d2, [], output, out.
    do 7 (split; [first [reflexivity|assumption]|]).
    split; [reflexivity|]. intros Hne. destruct (Hne eq_refl).
  - cbn [map] in Hfin.
    apply finish_warnings in Hfin as (d & l & Hobj & Hl & ->).
    exists data, d1, d2, (g :: gaps), output, (JDict d).
    do 7 (split; [first [reflexivity|assumption]|]).
    split; [discriminate|]. intros _.
    exists d, l. split; [reflexivity|]. split; [exact Hl|].
    rewrite <- (map_map (warning_text "Valor por defecto aplicado en ") JStr).
    reflexivity.
Qed.

Lemma call_default_reports_witness :
  exists (data d1 d2 : dict) (gaps : list MissingField) (output : list item) (obj : json),
    enrich_region_config sample_region = Ok data
    /\ detect_missing data = (d1, Ok gaps)
    /\ apply_values (zip gaps (map default gaps)) d1 = (d2, Ok tt)
    /\ w_console (fst (call_gpt5_compute_payroll sample_services sample_region "default"
                         (mkWorld (mkConsole [] []) [])))
       = w_console (mkWorld (mkConsole [] []) [])
    /\ w_sent (fst (call_gpt5_compute_payroll sample_services sample_region "default"
                      (mkWorld (mkConsole [] []) [])))
       = (w_sent (mkWorld (mkConsole [] []) []) ++ [d2])%list
    /\ responses_create sample_services d2 = inr output
    /\ extract_output sample_services output JNull = Ok obj
    /\ (gaps = [] -> sample_output = obj)
    /\ (gaps <> [] ->
        exists (d : dict) (l : list json),
          obj = JDict d
          /\ dict_get_or "warnings" (JList []) d = JList l
          /\ sample_output
             = JDict (dict_set "warnings"
                        (JList (l ++ map (fun g => JStr (warning_text
                                            "Valor por defecto aplicado en " g)) gaps))
                        d)).
Proof.
  apply (call_default_reports sample_services sample_region
           (mkWorld (mkConsole [] []) [])
           (fst (call_gpt5_compute_payroll sample_services sample_region "default"
                   (mkWorld (mkConsole [] []) [])))
           sample_output).
  vm_compute. reflexivity.
Defined.

(** ** File names of the batch driver *)

Section Slug.

Lemma bytes_app (a b : string) :
  list_ascii_of_string (a ++ b) = (list_ascii_of_string a ++ list_ascii_of_string b)%list.
Proof.
  induction a as [|c a IH]; [reflexivity|].
  change (list_ascii_of_string (String c a ++ b))
    with (c :: list_ascii_of_string (a ++ b)).
  rewrite IH. reflexivity.
Qed.

Lemma chars_aux_parts (cur s : string) :
  lead_and_continuation cur ->
  Forall lead_and_continuation (PyStr.chars_aux cur s).
Proof.
  revert cur. induction s as [|c r IH]; intros cur Hcur; cbn [PyStr.chars_aux].
  - constructor; [exact Hcur|constructor].
  - destruct (PyStr.is_cont c) eqn:Hc.
    + apply IH. destruct Hcur as (b & conts & -> & Hconts).
      exists b, (conts ++ String c EmptyString). split; [reflexivity|].
      rewrite bytes_app. apply Forall_app. split; [exact Hconts|].
      constructor; [exact Hc|constructor].
    + constructor; [exact Hcur|]. apply IH.
      exists c, EmptyString. split; [reflexivity|constructor].
Qed.

Lemma chars_parts (s : string) : Forall lead_and_continuation (PyStr.chars s).
Proof.
  destruct s as [|c r]; [constructor|]. apply chars_aux_parts.
  exists c, EmptyString. split; [reflexivity|constructor].
Qed.

Lemma join_empty_bytes (parts : list string) :
  list_ascii_of_string (PyStr.join EmptyString parts)
  = concat (map list_ascii_of_string parts).
Proof.
  induction parts as [|p rest IH]; [reflexivity|].
  destruct rest as [|q rest].
  - cbn. rewrite app_nil_r. reflexivity.
  - change (PyStr.join EmptyString (p :: q :: rest))
      with (p ++ PyStr.join EmptyString (q :: rest)).
    rewrite bytes_app, IH. reflexivity.
Qed.

Lemma is_cont_not_ascii (c : ascii) :
  PyStr.is_cont c = true -> (PyStr.byte_of c < 128)%N -> False.
Proof.
  unfold PyStr.is_cont. intros H Hlt.
  apply andb_true_iff in H as [H _]. apply N.leb_le in H. lia.
Qed.

Lemma kept_bytes (db : string -> bool) (ch : string) (c : ascii) :
  lead_and_continuation ch ->
  slug_keeps db ch = true ->
  In c (list_ascii_of_string ch) ->
  slug_byte c.
Proof.
  intros (b & conts & -> & Hconts) Hkeep Hin Hlt.
  cbn [list_ascii_of_string In] in Hin. destruct Hin as [<-|Hin].
  - unfold slug_keeps, isalnum in Hkeep.
    apply N.ltb_lt in Hlt. rewrite Hlt in Hkeep.
    apply orb_true_iff in Hkeep as [Hkeep|Hkeep];
      [apply orb_true_iff in Hkeep as [Hkeep|Hkeep]|].
    + apply andb_true_iff in Hkeep as [_ Hkeep]. left. exact Hkeep.
    + apply String.eqb_eq in Hkeep. injection Hkeep as -> _. right. left. reflexivity.
    + apply String.eqb_eq in Hkeep. injection Hkeep as -> _. right. right. reflexivity.
  - exfalso. rewrite Forall_forall in Hconts.
    apply (is_cont_not_ascii c); [|exact Hlt].
    apply Hconts, list_elem_of_In, Hin.
Qed.

Lemma lstrip_bytes_spec (c : ascii) (l : list ascii) :
  (exists pre, l = (pre ++ lstrip_bytes c l)%list)
  /\ head (lstrip_bytes c l) <> Some c.
Proof.
  induction l as [|a r [[pre Hpre] Hhead]]; cbn [lstrip_bytes].
  - split; [exists []; reflexivity|discriminate].
  - destruct (Ascii.eqb a c) eqn:E.
    + split; [|exact Hhead]. exists (a :: pre). cbn. rewrite <- Hpre. reflexivity.
    + split; [exists []; reflexivity|]. cbn. intros [= ->].
      rewrite Ascii.eqb_refl in E. discriminate.
Qed.

Lemma strip_bytes_spec (c : ascii) (l : list ascii) :
  (forall x, In x (strip_bytes c l) -> In x l)
  /\ head (strip_bytes c l) <> Some c
  /\ last (strip_bytes c l) <> Some c.
Proof.
  unfold strip_bytes.
  destruct (lstrip_bytes_spec c l) as [[pre1 H1] Hh1].
  destruct (lstrip_bytes_spec c (rev (lstrip_bytes c l))) as [[pre2 H2] Hh2].
  set (m := lstrip_bytes c l) in *.
  set (X := lstrip_bytes c (rev m)) in *.
  assert (Hm : m = (rev X ++ rev pre2)%list).
  { rewrite <- rev_app_distr, <- H2, rev_involutive. reflexivity. }
  split; [|split].
  - intros x Hx. rewrite H1. apply in_or_app. right.
    rewrite Hm. apply in_or_app. left. exact Hx.
  - destruct (rev X) as [|x t] eqn:E; [discriminate|].
    rewrite Hm in Hh1. exact Hh1.
  - rewrite rev_alt. change (rev_append X []) with (reverse X).
    rewrite last_reverse. exact Hh2.
Qed.

End Slug.

(** X29. The slug of a region identifier is safe in a file name: whatever
    the text and whatever the Unicode database says of the characters
    outside ASCII, every ASCII byte of [_safe_slug(s)] is a digit, a letter,
    a hyphen or an underscore (no space, dot, slash or control character),
    and the slug neither starts nor ends with an underscore. *)
Theorem safe_slug_is_safe (unicode_isalnum : string -> bool) (s : string) :
  Forall slug_byte (list_ascii_of_string (_safe_slug unicode_isalnum s))
  /\ head (list_ascii_of_string (_safe_slug unicode_isalnum s)) <> Some "_"%char
  /\ last (list_ascii_of_string (_safe_slug unicode_isalnum s)) <> Some "_"%char.
Proof.
  unfold _safe_slug. rewrite list_ascii_of_string_of_list_ascii.
  destruct (strip_bytes_spec "_"
              (list_ascii_of_string
                 (PyStr.join EmptyString
                    (List.filter (slug_keeps unicode_isalnum) (PyStr.chars s)))))
    as (Hin & Hhead & Hlast).
  split; [|split; assumption].
  apply Forall_forall. intros c Hc. apply list_elem_of_In, Hin in Hc.
  rewrite join_empty_bytes in Hc. apply in_concat in Hc as (bytes & Hb & Hc).
  apply in_map_iff in Hb as (ch & <- & Hch).
  apply filter_In in Hch as [Hch Hkeep].
  apply (kept_bytes unicode_isalnum ch c); [|exact Hkeep|exact Hc].
  pose proof (chars_parts s) as Hparts. rewrite Forall_forall in Hparts.
  apply Hparts, list_elem_of_In, Hch.
Qed.

Example safe_slug_castilla :
  _safe_slug (fun _ => true) "_Castilla-La Mancha/2025_" = "Castilla-LaMancha2025".
Proof. vm_compute. reflexivity. Qed.
